(** * Buddy: stream decoder, mood inference and conversation orchestrator

    A shallow embedding of three parts of the Buddy chat companion:

    - [lib/emotionDetector.ts]: [EMOTION_PATTERNS], [detectEmotion],
      [analyzeStreamingEmotion];
    - [lib/openrouter.ts]: [streamChat];
    - [components/chat/ChatContainer.tsx]: [buildSystemPrompt],
      [handleSubmit].

    together with the code around them:

    - [lib/openrouter.ts]: [fetchModels];
    - [lib/memory/MemoryStore.ts]: [saveMessage], [getRecentMessages],
      and the loading of the stored messages by [ChatContainer];
    - [lib/auth/PinLock.ts]: [generateSalt], [createPinHash], [verifyPin],
      [isLockedOut], [getLockoutRemaining], [getRemainingAttempts].

    JavaScript strings are sequences of UTF-16 code units; they are modelled
    as lists of code units ([N]).  Network chunks are lists of bytes ([N]
    below 256). *)

From Stdlib Require Import List Bool NArith ZArith Lia String Ascii DecimalString.
From Stdlib Require Sorting.Sorted Sorting.Permutation.
Import ListNotations.

Local Open Scope N_scope.

(* ================================================================== *)
(** * JavaScript strings *)
(* ================================================================== *)

Module JsString.

Abbreviation jsstring := (list N) (only parsing).

(** A string literal of the source, one code unit per character. *)
Definition lit (s : string) : jsstring :=
  map N_of_ascii (list_ascii_of_string s).

Fixpoint eqb (a b : jsstring) : bool :=
  match a, b with
  | [], [] => true
  | x :: a', y :: b' => (x =? y) && eqb a' b'
  | _, _ => false
  end.

(** [s.startsWith(prefix)] *)
Fixpoint startsWith (s prefix : jsstring) {struct prefix} : bool :=
  match prefix with
  | [] => true
  | p :: prefix' =>
      match s with
      | [] => false
      | c :: s' => (c =? p) && startsWith s' prefix'
      end
  end.

(** [s.includes(sub)]: [sub] starts at some position of [s]. *)
Fixpoint includes (s sub : jsstring) : bool :=
  startsWith s sub ||
  match s with
  | [] => false
  | _ :: s' => includes s' sub
  end.

(** Number of positions of [s] at which [sub] starts. *)
Fixpoint occurrences (s sub : jsstring) : nat :=
  ((if startsWith s sub then 1 else 0) +
   match s with
   | [] => 0
   | _ :: s' => occurrences s' sub
   end)%nat.

(** [s.toLowerCase()], one code unit at a time.  Basic Latin and Latin-1
    capitals move to their small letters.  Above U+00FF only the two code
    units whose lower-case form contains a Basic Latin letter are mapped
    (U+0130 and U+212A); the other Unicode mappings replace a non-ASCII
    unit by non-ASCII units, which no phrase or keyword of the pattern
    table can match and which are not word characters, so they are left
    in place. *)
Definition lower_unit (c : N) : list N :=
  if (65 <=? c) && (c <=? 90) then [c + 32]
  else if ((192 <=? c) && (c <=? 214)) || ((216 <=? c) && (c <=? 222))
       then [c + 32]
  else if c =? 304 then [105; 775]
  else if c =? 8490 then [107]
  else [c].

Definition toLowerCase (s : jsstring) : jsstring := flat_map lower_unit s.

(** White space and line terminators removed by [String.prototype.trim]. *)
Definition is_trim_space (c : N) : bool :=
  ((9 <=? c) && (c <=? 13)) || (c =? 32) || (c =? 160) || (c =? 5760) ||
  ((8192 <=? c) && (c <=? 8202)) || (c =? 8232) || (c =? 8233) ||
  (c =? 8239) || (c =? 8287) || (c =? 12288) || (c =? 65279).

Fixpoint trimStart (s : jsstring) : jsstring :=
  match s with
  | [] => []
  | c :: s' => if is_trim_space c then trimStart s' else s
  end.

Definition trim (s : jsstring) : jsstring :=
  rev (trimStart (rev (trimStart s))).

(** Decimal digits of a number, as in a template literal. *)
Definition of_N (n : N) : jsstring :=
  lit (NilEmpty.string_of_uint (N.to_uint n)).

End JsString.

Import JsString.

(* ================================================================== *)
(** * Mood inference: [lib/emotionDetector.ts] *)
(* ================================================================== *)

Module Emotion.

(** The moods the mascot can show.  [store.ts] declares the first six;
    the pattern table names four more. *)
Inductive BuddyMood :=
| idle | thinking | talking | happy | sleepy | confused
| excited | sad | surprised | embarrassed.

Definition BuddyMood_eqb (a b : BuddyMood) : bool :=
  match a, b with
  | idle, idle | thinking, thinking | talking, talking | happy, happy
  | sleepy, sleepy | confused, confused | excited, excited | sad, sad
  | surprised, surprised | embarrassed, embarrassed => true
  | _, _ => false
  end.

Record EmotionPattern := {
  mood : BuddyMood;
  keywords : list jsstring;
  phrases : list jsstring;
  weight : Z
}.

Definition EMOTION_PATTERNS : list EmotionPattern :=
  [ {| mood := excited;
       keywords := map lit ["wow"; "amazing"; "incredible"; "fantastic";
                            "awesome"; "brilliant"; "excellent";
                            "wonderful"]%string;
       phrases := map lit ["that's exciting"; "i can't wait";
                           "this is great"; "how exciting"]%string;
       weight := 3 |};
    {| mood := sad;
       keywords := map lit ["sorry"; "unfortunately"; "sad"; "loss";
                            "difficult"; "tough"; "hard"; "condolences";
                            "miss"]%string;
       phrases := map lit ["i'm sorry to hear"; "that must be hard";
                           "my condolences";
                           "i understand how you feel"]%string;
       weight := 3 |};
    {| mood := surprised;
       keywords := map lit ["whoa"; "unexpected"; "really"; "seriously";
                            "no way"; "unbelievable"]%string;
       phrases := map lit ["i didn't expect"; "that's surprising";
                           "wait what"; "are you serious"]%string;
       weight := 2 |};
    {| mood := happy;
       keywords := map lit ["great"; "good"; "nice"; "lovely"; "glad";
                            "happy"; "pleased"; "enjoy"; "love";
                            "congratulations"; "yay"]%string;
       phrases := map lit ["well done"; "that's great"; "happy to help";
                           "glad to hear"]%string;
       weight := 2 |};
    {| mood := confused;
       keywords := map lit ["hmm"; "unclear"; "strange"; "weird"; "odd";
                            "confusing"; "puzzling"]%string;
       phrases := map lit ["i'm not sure"; "that's strange";
                           "let me think"; "i don't understand"]%string;
       weight := 2 |};
    {| mood := embarrassed;
       keywords := map lit ["oops"; "mistake"; "wrong"; "error";
                            "apologies"; "meant"]%string;
       phrases := map lit ["my mistake"; "i was wrong"; "let me correct";
                           "i apologize"]%string;
       weight := 2 |};
    {| mood := thinking;
       keywords := map lit ["consider"; "analyze"; "think"; "perhaps";
                            "maybe"; "might"; "possibly";
                            "interesting"]%string;
       phrases := map lit ["let me think"; "good question";
                           "that depends"; "considering"]%string;
       weight := 1 |} ].

(** ** The regular expression [new RegExp(`\b${keyword}\b`, 'i')]

    Every keyword of the table consists of letters and spaces, so the
    pattern is: a word boundary, the keyword's characters as literals, a
    word boundary.  The expression has no [u] flag: word characters are
    [A-Za-z0-9_], and two code units match under [i] when their
    [Canonicalize] images agree. *)

Definition is_word_char (c : N) : bool :=
  ((97 <=? c) && (c <=? 122)) || ((65 <=? c) && (c <=? 90)) ||
  ((48 <=? c) && (c <=? 57)) || (c =? 95).

(** [Canonicalize] without [u]: the upper-case form when it is a single
    code unit, except that a unit from U+0080 up never maps below U+0080.
    Small Basic Latin letters go to capitals; the units from U+0080 up
    stay from U+0080 up and are kept as they are here, since a keyword
    character is always below U+0080. *)
Definition canonicalize (c : N) : N :=
  if (97 <=? c) && (c <=? 122) then c - 32 else c.

Definition is_word_at (o : option N) : bool :=
  match o with
  | Some c => is_word_char c
  | None => false
  end.

(** The assertion [\b] between the unit before the position ([prev]) and
    the unit at it ([next]); [None] at either end of the input. *)
Definition word_boundary (prev next : option N) : bool :=
  xorb (is_word_at prev) (is_word_at next).

(** The literal characters of the keyword against the input at the current
    position; returns the last unit consumed and the rest of the input. *)
Fixpoint match_chars (kw : jsstring) (prev : option N) (text : jsstring)
  : option (option N * jsstring) :=
  match kw with
  | [] => Some (prev, text)
  | k :: kw' =>
      match text with
      | [] => None
      | c :: text' =>
          if canonicalize c =? canonicalize k
          then match_chars kw' (Some c) text'
          else None
      end
  end.

(** One attempt of the whole pattern at the current position. *)
Definition match_at (kw : jsstring) (prev : option N) (text : jsstring)
  : bool :=
  word_boundary prev (hd_error text) &&
  match match_chars kw prev text with
  | Some (p, rest) => word_boundary p (hd_error rest)
  | None => false
  end.

(** [regex.test]: the pattern is tried at every position in turn. *)
Fixpoint regex_search (kw : jsstring) (prev : option N) (text : jsstring)
  : bool :=
  match_at kw prev text ||
  match text with
  | [] => false
  | c :: text' => regex_search kw (Some c) text'
  end.

Definition keyword_test (kw text : jsstring) : bool :=
  regex_search kw None text.

(** Number of positions at which the pattern matches. *)
Fixpoint regex_count (kw : jsstring) (prev : option N) (text : jsstring)
  : nat :=
  ((if match_at kw prev text then 1 else 0) +
   match text with
   | [] => 0
   | c :: text' => regex_count kw (Some c) text'
   end)%nat.

Definition keyword_occurrences (kw text : jsstring) : nat :=
  regex_count kw None text.

(** ** [detectEmotion] *)

Local Open Scope Z_scope.

(** The two inner loops of [detectEmotion] for one pattern. *)
Definition pattern_score (p : EmotionPattern) (lowerText : jsstring) : Z :=
  let score :=
    fold_left (fun score phrase =>
                 if includes lowerText phrase
                 then score + weight p * 2 else score)
              (phrases p) 0 in
  fold_left (fun score keyword =>
               if keyword_test keyword lowerText
               then score + weight p else score)
            (keywords p) score.

(** The body of the outer loop: the update of [bestMatch]. *)
Definition update_best (lowerText : jsstring)
  (bestMatch : option (BuddyMood * Z)) (p : EmotionPattern)
  : option (BuddyMood * Z) :=
  let score := pattern_score p lowerText in
  if (0 <? score) &&
     match bestMatch with
     | None => true
     | Some b => snd b <? score
     end
  then Some (mood p, score)
  else bestMatch.

(** [bestMatch] after the outer loop over a pattern table. *)
Definition best_match (table : list EmotionPattern) (text : jsstring)
  : option (BuddyMood * Z) :=
  let lowerText := toLowerCase text in
  fold_left (update_best lowerText) table None.

Definition detectEmotion_with (table : list EmotionPattern)
  (text : jsstring) : option BuddyMood :=
  option_map fst (best_match table text).

Definition detectEmotion (text : jsstring) : option BuddyMood :=
  detectEmotion_with EMOTION_PATTERNS text.

(** ** [analyzeStreamingEmotion] *)

Definition analyzeStreamingEmotion_with (table : list EmotionPattern)
  (fullText : jsstring) (currentMood : BuddyMood) : BuddyMood :=
  if Z.of_nat (List.length fullText) <? 50 then currentMood
  else
    match detectEmotion_with table fullText with
    | Some detected =>
        if negb (BuddyMood_eqb detected thinking) then detected
        else currentMood
    | None => currentMood
    end.

Definition analyzeStreamingEmotion (fullText : jsstring)
  (currentMood : BuddyMood) : BuddyMood :=
  analyzeStreamingEmotion_with EMOTION_PATTERNS fullText currentMood.

(** ** The reference definition of the specification

    Lower-case the text; score every pattern of the table; drop the
    patterns that score zero; return the mood of the candidate with the
    highest score, the earlier table entry winning a tie. *)

Definition count_true {A} (f : A -> bool) (l : list A) : Z :=
  Z.of_nat (List.length (filter f l)).

Definition reference_score (p : EmotionPattern) (lowerText : jsstring) : Z :=
  weight p * 2 * count_true (includes lowerText) (phrases p) +
  weight p * 1 * count_true (fun kw => keyword_test kw lowerText)
                            (keywords p).

Definition reference_candidates (table : list EmotionPattern)
  (lowerText : jsstring) : list (BuddyMood * Z) :=
  filter (fun c => negb (snd c =? 0))
         (map (fun p => (mood p, reference_score p lowerText)) table).

Definition highest_score (cands : list (BuddyMood * Z)) : option Z :=
  match cands with
  | [] => None
  | c :: rest => Some (fold_left Z.max (map snd rest) (snd c))
  end.

Definition reference_select (cands : list (BuddyMood * Z))
  : option (BuddyMood * Z) :=
  match highest_score cands with
  | None => None
  | Some top => find (fun c => snd c =? top) cands
  end.

Definition reference_detectEmotion (table : list EmotionPattern)
  (text : jsstring) : option BuddyMood :=
  option_map fst
    (reference_select (reference_candidates table (toLowerCase text))).

(** ** Whole-word occurrence, as the specification words it *)

(** The code unit before the end of [l]; [prev] when [l] is empty. *)
Definition last_unit (prev : option N) (l : jsstring) : option N :=
  fold_left (fun _ c => Some c) l prev.

(** The same characters up to the case of Basic Latin letters. *)
Definition same_letters (a b : jsstring) : Prop :=
  map canonicalize a = map canonicalize b.

(** [kw] occurs in [text], in any case, with no word character right
    before it and none right after it. *)
Definition whole_word_occurrence (kw text : jsstring) : Prop :=
  exists pre mid suf,
    text = pre ++ mid ++ suf /\ same_letters mid kw /\
    is_word_at (last_unit None pre) = false /\
    is_word_at (hd_error suf) = false.

(** A keyword that starts and ends with a word character. *)
Definition word_delimited (kw : jsstring) : Prop :=
  is_word_at (hd_error kw) = true /\ is_word_at (last_unit None kw) = true.

(** ** Occurrence counts, to state that multiplicity is not scored *)

Definition sum_Z (l : list Z) : Z := fold_right Z.add 0%Z l.

(** What one phrase or keyword adds to a score: its amount when it occurs
    at least once, whatever the number of occurrences. *)
Definition contribution (amount : Z) (occurs : nat) : Z :=
  if (0 <? occurs)%nat then amount else 0%Z.

(** Every phrase and keyword of [table] occurs in both texts or in none. *)
Definition same_presence (table : list EmotionPattern)
  (text1 text2 : jsstring) : bool :=
  forallb (fun p =>
    forallb (fun phrase =>
               Bool.eqb (0 <? occurrences text1 phrase)%nat
                        (0 <? occurrences text2 phrase)%nat)
            (phrases p) &&
    forallb (fun kw =>
               Bool.eqb (0 <? keyword_occurrences kw text1)%nat
                        (0 <? keyword_occurrences kw text2)%nat)
            (keywords p)) table.

(** ** Sample texts *)

Definition long_wow : jsstring :=
  lit "Wow, the idea you describe sounds like a lot of fun to build".

Definition long_think : jsstring :=
  lit "Perhaps we should consider the other option before we go on".

Definition excited_pattern : EmotionPattern :=
  nth 0 EMOTION_PATTERNS {| mood := idle; keywords := []; phrases := [];
                            weight := 0 |}.

End Emotion.

(* ================================================================== *)
(** * JSON values and [JSON.parse] *)
(* ================================================================== *)

Module Json.

(** A value produced by [JSON.parse].  A number is kept as the decimal it
    was written as: [digits * 10 ^ exponent], negated when [negative]. *)
#[warnings="-register-all"] Inductive json :=
| JNull
| JBool (b : bool)
| JNumber (negative : bool) (digits : N) (exponent : Z)
| JString (s : jsstring)
| JArray (items : list json)
| JObject (members : list (jsstring * json)).

Definition is_ws (c : N) : bool :=
  (c =? 32) || (c =? 9) || (c =? 10) || (c =? 13).

Fixpoint skip_ws (s : jsstring) : jsstring :=
  match s with
  | c :: s' => if is_ws c then skip_ws s' else s
  | [] => []
  end.

Definition is_digit (c : N) : bool := (48 <=? c) && (c <=? 57).

Definition hex_value (c : N) : option N :=
  if is_digit c then Some (c - 48)
  else if (97 <=? c) && (c <=? 102) then Some (c - 87)
  else if (65 <=? c) && (c <=? 70) then Some (c - 55)
  else None.

Definition hex4 (a b c d : N) : option N :=
  match hex_value a, hex_value b, hex_value c, hex_value d with
  | Some x, Some y, Some z, Some w => Some (((x * 16 + y) * 16 + z) * 16 + w)
  | _, _, _, _ => None
  end.

(** The characters of a string after its opening quote, up to and
    including the closing quote; [acc] holds the units read, latest first. *)
Fixpoint parse_string_body (s : jsstring) (acc : jsstring)
  : option (jsstring * jsstring) :=
  match s with
  | [] => None
  | c :: s1 =>
      if c =? 34 then Some (rev acc, s1)
      else if c <? 32 then None
      else if c =? 92 then
        match s1 with
        | [] => None
        | e :: s2 =>
            if e =? 34 then parse_string_body s2 (34 :: acc)
            else if e =? 92 then parse_string_body s2 (92 :: acc)
            else if e =? 47 then parse_string_body s2 (47 :: acc)
            else if e =? 98 then parse_string_body s2 (8 :: acc)
            else if e =? 102 then parse_string_body s2 (12 :: acc)
            else if e =? 110 then parse_string_body s2 (10 :: acc)
            else if e =? 114 then parse_string_body s2 (13 :: acc)
            else if e =? 116 then parse_string_body s2 (9 :: acc)
            else if e =? 117 then
              match s2 with
              | h1 :: h2 :: h3 :: h4 :: s3 =>
                  match hex4 h1 h2 h3 h4 with
                  | Some u => parse_string_body s3 (u :: acc)
                  | None => None
                  end
              | _ => None
              end
            else None
        end
      else parse_string_body s1 (c :: acc)
  end.

(** A run of decimal digits: their value, their number and the rest. *)
Fixpoint parse_digits (s : jsstring) (value : N) (count : nat)
  : N * nat * jsstring :=
  match s with
  | c :: s' =>
      if is_digit c then parse_digits s' (value * 10 + (c - 48)) (S count)
      else (value, count, s)
  | [] => (value, count, [])
  end.

(** A number: an optional minus sign; a zero, or a digit from 1 to 9 and
    further digits; optionally a point and one digit or more; optionally
    e or E, a sign and one digit or more. *)
Definition parse_number (s : jsstring) : option (json * jsstring) :=
  let (negative, s1) :=
    match s with
    | c :: s' => if c =? 45 then (true, s') else (false, s)
    | [] => (false, s)
    end in
  let int_part :=
    match s1 with
    | c :: s' =>
        if c =? 48 then Some (0, s')
        else if is_digit c then
          (let '(v, _, rest) := parse_digits s1 0 O in Some (v, rest))
        else None
    | [] => None
    end in
  match int_part with
  | None => None
  | Some (int_value, s2) =>
      let frac_part :=
        match s2 with
        | c :: s' =>
            if c =? 46 then
              (let '(v, n, rest) := parse_digits s' int_value O in
               match n with
               | O => None
               | _ => Some (v, Z.of_nat n, rest)
               end)
            else Some (int_value, 0%Z, s2)
        | [] => Some (int_value, 0%Z, s2)
        end in
      match frac_part with
      | None => None
      | Some (digits, frac_len, s3) =>
          let no_exp := Some (JNumber negative digits (- frac_len)%Z, s3) in
          match s3 with
          | c :: s' =>
              if (c =? 101) || (c =? 69) then
                (let (exp_negative, s4) :=
                   match s' with
                   | d :: s'' =>
                       if d =? 45 then (true, s'')
                       else if d =? 43 then (false, s'')
                       else (false, s')
                   | [] => (false, s')
                   end in
                 let '(v, n, rest) := parse_digits s4 0 O in
                 match n with
                 | O => None
                 | _ =>
                     let e := if exp_negative then (- Z.of_N v)%Z
                              else Z.of_N v in
                     Some (JNumber negative digits (e - frac_len)%Z, rest)
                 end)
              else no_exp
          | [] => no_exp
          end
      end
  end.

(** A value at the head of the input ([parse_value]), the rest of an
    array after one of its elements ([parse_elements]) and the rest of an
    object after one of its members ([parse_members]).  Every call uses
    up at least one code unit, so fuel beyond the length of the input is
    never needed. *)
Fixpoint parse_value (fuel : nat) (s : jsstring) {struct fuel}
  : option (json * jsstring) :=
  match fuel with
  | O => None
  | S fuel' =>
      match s with
      | [] => None
      | c :: s' =>
          if c =? 123 then
            match skip_ws s' with
            | d :: s1 =>
                if d =? 125 then Some (JObject [], s1)
                else parse_member fuel' (d :: s1) []
            | [] => None
            end
          else if c =? 91 then
            match skip_ws s' with
            | d :: s1 =>
                if d =? 93 then Some (JArray [], s1)
                else
                  match parse_value fuel' (d :: s1) with
                  | Some (v, s2) => parse_elements fuel' s2 [v]
                  | None => None
                  end
            | [] => None
            end
          else if c =? 34 then
            match parse_string_body s' [] with
            | Some (str, s1) => Some (JString str, s1)
            | None => None
            end
          else if startsWith s (lit "true") then
            Some (JBool true, skipn 4 s)
          else if startsWith s (lit "false") then
            Some (JBool false, skipn 5 s)
          else if startsWith s (lit "null") then
            Some (JNull, skipn 4 s)
          else parse_number s
      end
  end

with parse_elements (fuel : nat) (s : jsstring) (acc : list json)
  {struct fuel} : option (json * jsstring) :=
  match fuel with
  | O => None
  | S fuel' =>
      match skip_ws s with
      | c :: s1 =>
          if c =? 93 then Some (JArray (rev acc), s1)
          else if c =? 44 then
            match parse_value fuel' (skip_ws s1) with
            | Some (v, s2) => parse_elements fuel' s2 (v :: acc)
            | None => None
            end
          else None
      | [] => None
      end
  end

with parse_member (fuel : nat) (s : jsstring)
  (acc : list (jsstring * json)) {struct fuel}
  : option (json * jsstring) :=
  match fuel with
  | O => None
  | S fuel' =>
      match s with
      | q :: s1 =>
          if q =? 34 then
            match parse_string_body s1 [] with
            | Some (key, s2) =>
                match skip_ws s2 with
                | colon :: s3 =>
                    if colon =? 58 then
                      match parse_value fuel' (skip_ws s3) with
                      | Some (v, s4) =>
                          match skip_ws s4 with
                          | c :: s5 =>
                              if c =? 125
                              then Some (JObject (rev ((key, v) :: acc)), s5)
                              else if c =? 44
                              then parse_member fuel' (skip_ws s5)
                                                ((key, v) :: acc)
                              else None
                          | [] => None
                          end
                      | None => None
                      end
                    else None
                | [] => None
                end
            | None => None
            end
          else None
      | [] => None
      end
  end.

(** [JSON.parse(text)]; [None] stands for the [SyntaxError]. *)
Definition JSON_parse (text : jsstring) : option json :=
  match parse_value (S (List.length text)) (skip_ws text) with
  | Some (v, rest) =>
      match skip_ws rest with
      | [] => Some v
      | _ :: _ => None
      end
  | None => None
  end.

(** ** Reading properties *)

(** The member named [key] of an object; the last one when the text
    repeated the name. *)
Fixpoint lookup (members : list (jsstring * json)) (key : jsstring)
  : option json :=
  match members with
  | [] => None
  | (k, v) :: rest =>
      match lookup rest key with
      | Some later => Some later
      | None => if JsString.eqb k key then Some v else None
      end
  end.

(** [v.name] for a parsed value other than [null] and a name that no
    prototype defines ([choices], [delta], [content], [error],
    [message]); [None] is [undefined]. *)
Definition get_property (v : json) (name : jsstring) : option json :=
  match v with
  | JObject members => lookup members name
  | _ => None
  end.

(** [v[0]] for a parsed value other than [null]. *)
Definition get_index0 (v : json) : option json :=
  match v with
  | JObject members => lookup members (lit "0")
  | JArray items => hd_error items
  | JString (c :: _) => Some (JString [c])
  | _ => None
  end.

(** A number written as [digits * 10 ^ exponent] becomes the Number zero
    when it is at most half the smallest positive Number, [2 ^ -1075]. *)
Definition rounds_to_zero (digits : N) (exponent : Z) : bool :=
  (digits =? 0) ||
  ((exponent <? 0)%Z &&
   (Z.of_N digits * 2 ^ 1075 <=? 10 ^ (- exponent))%Z).

(** The truth value of [if (x)] for a property read. *)
Definition truthy (x : option json) : bool :=
  match x with
  | None => false
  | Some JNull => false
  | Some (JBool b) => b
  | Some (JNumber _ digits exponent) => negb (rounds_to_zero digits exponent)
  | Some (JString s) => negb (JsString.eqb s [])
  | Some (JArray _) => true
  | Some (JObject _) => true
  end.

(** The outcome of an expression that may raise a [TypeError]. *)
Inductive completion (A : Type) :=
| Normal (a : A)
| ThrowTypeError.
Arguments Normal {A} a.
Arguments ThrowTypeError {A}.

(** [chunk.choices[0]?.delta?.content] *)
Definition delta_content (chunk : json) : completion (option json) :=
  match chunk with
  | JNull => ThrowTypeError
  | _ =>
      match get_property chunk (lit "choices") with
      | None | Some JNull => ThrowTypeError
      | Some choices =>
          match get_index0 choices with
          | None | Some JNull => Normal None
          | Some first =>
              match get_property first (lit "delta") with
              | None | Some JNull => Normal None
              | Some delta => Normal (get_property delta (lit "content"))
              end
          end
      end
  end.

(** [error.error?.message] *)
Definition error_message (error : json) : completion (option json) :=
  match error with
  | JNull => ThrowTypeError
  | _ =>
      match get_property error (lit "error") with
      | None | Some JNull => Normal None
      | Some inner => Normal (get_property inner (lit "message"))
      end
  end.

(** Whether [String(v)] raises a [TypeError] for a parsed value: the
    conversion that [new Error(v)] applies to its argument.  An object
    is converted by its [toString]; a member of that name, which is
    never a function in a parsed value, hides the inherited method, and
    the inherited [valueOf] gives back the object, so that no primitive
    is found.  An array joins the conversions of its elements, with the
    empty string for [null]. *)
Fixpoint to_string_raises (v : json) : bool :=
  match v with
  | JObject members =>
      match lookup members (lit "toString") with
      | Some _ => true
      | None => false
      end
  | JArray items => existsb to_string_raises items
  | _ => false
  end.

End Json.

(* ================================================================== *)
(** * [TextDecoder]: streaming UTF-8 *)
(* ================================================================== *)

Module Utf8.

(** The state that [new TextDecoder()] keeps between calls of
    [decode(value, { stream: true })]. *)
Record decoder := {
  code_point : N;
  bytes_seen : N;
  bytes_needed : N;
  lower_boundary : N;
  upper_boundary : N;
  bom_seen : bool
}.

Definition fresh : decoder :=
  {| code_point := 0; bytes_seen := 0; bytes_needed := 0;
     lower_boundary := 128; upper_boundary := 191; bom_seen := false |}.

(** Back to the start of a character, keeping the BOM flag. *)
Definition reset (d : decoder) : decoder :=
  {| code_point := 0; bytes_seen := 0; bytes_needed := 0;
     lower_boundary := 128; upper_boundary := 191; bom_seen := bom_seen d |}.

Definition expect (d : decoder) (needed cp lower upper : N) : decoder :=
  {| code_point := cp; bytes_seen := 0; bytes_needed := needed;
     lower_boundary := lower; upper_boundary := upper;
     bom_seen := bom_seen d |}.

(** The code units of a code point. *)
Definition utf16 (cp : N) : jsstring :=
  if cp <? 65536 then [cp]
  else [55296 + N.shiftr (cp - 65536) 10; 56320 + N.land (cp - 65536) 1023].

(** A decoded code point goes to the output, except a byte order mark
    that comes first. *)
Definition emit (d : decoder) (cp : N) : jsstring * decoder :=
  let d' := {| code_point := code_point d; bytes_seen := bytes_seen d;
               bytes_needed := bytes_needed d;
               lower_boundary := lower_boundary d;
               upper_boundary := upper_boundary d; bom_seen := true |} in
  if negb (bom_seen d) && (cp =? 65279) then ([], d') else (utf16 cp, d').

(** A byte at the start of a character. *)
Definition lead_byte (d : decoder) (b : N) : jsstring * decoder :=
  if b <=? 127 then emit d b
  else if (194 <=? b) && (b <=? 223) then
    ([], expect d 1 (N.land b 31) 128 191)
  else if (224 <=? b) && (b <=? 239) then
    ([], expect d 2 (N.land b 15)
                (if b =? 224 then 160 else 128)
                (if b =? 237 then 159 else 191))
  else if (240 <=? b) && (b <=? 244) then
    ([], expect d 3 (N.land b 7)
                (if b =? 240 then 144 else 128)
                (if b =? 244 then 143 else 191))
  else emit d 65533.

(** One byte through the decoder.  A byte that cannot continue the
    character under way ends it with U+FFFD and is looked at again as the
    start of a character. *)
Definition step (d : decoder) (b : N) : jsstring * decoder :=
  if bytes_needed d =? 0 then lead_byte d b
  else if (b <? lower_boundary d) || (upper_boundary d <? b) then
    let (out1, d1) := emit (reset d) 65533 in
    let (out2, d2) := lead_byte d1 b in
    (out1 ++ out2, d2)
  else
    let cp := N.lor (N.shiftl (code_point d) 6) (N.land b 63) in
    let seen := bytes_seen d + 1 in
    if seen =? bytes_needed d then emit (reset d) cp
    else
      ([], {| code_point := cp; bytes_seen := seen;
              bytes_needed := bytes_needed d;
              lower_boundary := 128; upper_boundary := 191;
              bom_seen := bom_seen d |}).

(** [decoder.decode(value, { stream: true })] *)
Fixpoint decode (d : decoder) (value : list N) : jsstring * decoder :=
  match value with
  | [] => ([], d)
  | b :: value' =>
      let (out, d1) := step d b in
      let (rest, d2) := decode d1 value' in
      (out ++ rest, d2)
  end.

End Utf8.

(* ================================================================== *)
(** * The stream decoder: [streamChat] of [lib/openrouter.ts] *)
(* ================================================================== *)

Module Stream.
Import Json.

(** What [error.name] and [error.message] read from a rejection. *)
Record js_error := {
  name : jsstring;
  message : jsstring
}.

(** What a call can throw: [new Error(message)] for a value whose
    conversion to a string succeeds, the [TypeError] of a property read
    on [null] or [undefined] or of a conversion that fails, or the
    rejection of [fetch] or of [reader.read()]. *)
Inductive thrown :=
| NewError (message : json)
| TypeError
| Rejected (e : js_error).

(** [throw new Error(v)]: the constructor converts [v] to a string
    first, and what is thrown is the [TypeError] of that conversion when
    it fails. *)
Definition new_error (v : json) : thrown :=
  if to_string_raises v then TypeError else NewError v.

(** The body of a response: the chunks that [reader.read()] delivers, in
    order, and what the read after the last chunk does. *)
Inductive source_end :=
| EndOfBody
| ReadFails (e : js_error).

Record source := {
  chunks : list (list N);
  ending : source_end
}.

(** The response of [fetch]: [json_result] is what [response.json()]
    resolves to ([None] when it rejects), [body] is [response.body]. *)
Record Response := {
  ok : bool;
  status : N;
  json_result : option json;
  body : option source
}.

Inductive fetch_result :=
| FetchRejects (e : js_error)
| FetchResolves (response : Response).

(** One drained run of the generator: the values yielded, how it ended,
    and the number of calls of [reader.read()]. *)
Inductive outcome :=
| Returned
| Threw (t : thrown).

Record run := {
  fragments : list json;
  result : outcome;
  reads : nat
}.

(** [buffer.split('\n')] *)
Fixpoint split_lines (s : jsstring) : list jsstring :=
  match s with
  | [] => [[]]
  | c :: s' =>
      if c =? 10 then [] :: split_lines s'
      else
        match split_lines s' with
        | l :: ls => (c :: l) :: ls
        | [] => [[c]]
        end
  end.

(** The body of the loop over the lines. *)
Inductive line_result :=
| Skip
| Yield (content : json)
| Done.

Definition process_line (line : jsstring) : line_result :=
  if startsWith line (lit "data: ") then
    let data := skipn 6 line in
    if JsString.eqb data (lit "[DONE]") then Done
    else
      match JSON_parse data with
      | None => Skip
      | Some chunk =>
          match delta_content chunk with
          | ThrowTypeError => Skip
          | Normal content =>
              match content with
              | Some c => if truthy content then Yield c else Skip
              | None => Skip
              end
          end
      end
  else Skip.

(** [for (const line of lines)]: the values yielded and whether the
    sentinel made the generator return. *)
Fixpoint for_lines (lines : list jsstring) : list json * bool :=
  match lines with
  | [] => ([], false)
  | line :: lines' =>
      match process_line line with
      | Done => ([], true)
      | Skip => for_lines lines'
      | Yield c => let (fs, r) := for_lines lines' in (c :: fs, r)
      end
  end.

(** [while (true)] over the reads that remain. *)
Fixpoint read_loop (decoder : Utf8.decoder) (buffer : jsstring)
  (remaining : list (list N)) (e : source_end) : run :=
  match remaining with
  | [] =>
      {| fragments := [];
         result := match e with
                   | EndOfBody => Returned
                   | ReadFails err => Threw (Rejected err)
                   end;
         reads := 1 |}
  | value :: remaining' =>
      let (text, decoder') := Utf8.decode decoder value in
      let lines := split_lines (buffer ++ text) in
      let buffer' := last lines [] in
      let (fs, returned) := for_lines (removelast lines) in
      if returned then {| fragments := fs; result := Returned; reads := 1 |}
      else
        let r := read_loop decoder' buffer' remaining' e in
        {| fragments := fs ++ fragments r; result := result r;
           reads := S (reads r) |}
  end.

Definition threw (t : thrown) : run :=
  {| fragments := []; result := Threw t; reads := 0 |}.

(** [streamChat], given what [fetch] does with the request. *)
Definition streamChat (fetched : fetch_result) : run :=
  match fetched with
  | FetchRejects e => threw (Rejected e)
  | FetchResolves response =>
      if negb (ok response) then
        let error := match json_result response with
                     | Some v => v
                     | None => JObject []
                     end in
        match error_message error with
        | ThrowTypeError => threw TypeError
        | Normal m =>
            threw (new_error
                     (match m with
                      | Some v =>
                          if truthy m then v
                          else JString (lit "Chat request failed: " ++
                                        of_N (status response))
                      | None =>
                          JString (lit "Chat request failed: " ++
                                   of_N (status response))
                      end))
        end
      else
        match body response with
        | None => threw (NewError
                           (JString (lit "Response body is not readable")))
        | Some src => read_loop Utf8.fresh [] (chunks src) (ending src)
        end
  end.

(** A successful response with the given body. *)
Definition ok_response (src : source) : fetch_result :=
  FetchResolves {| ok := true; status := 200; json_result := None;
                   body := Some src |}.

(** ** Notions of the specification *)

(** The text that the decoder has produced once all chunks are read. *)
Definition decoded_text (chunks : list (list N)) : jsstring :=
  fst (Utf8.decode Utf8.fresh (List.concat chunks)).

(** The lines of a text that a newline ends; what follows the last
    newline is not among them. *)
Definition complete_lines (text : jsstring) : list jsstring :=
  removelast (split_lines text).

(** Lines put one after the other, each ended by a newline. *)
Definition lines_text (lines : list jsstring) : jsstring :=
  List.concat (map (fun line => line ++ [10]) lines).

Definition no_newline (s : jsstring) : Prop := ~ In 10 s.

(** How the generator ends when no sentinel stops it. *)
Definition end_outcome (e : source_end) : outcome :=
  match e with
  | EndOfBody => Returned
  | ReadFails err => Threw (Rejected err)
  end.

(** The literal with every apostrophe read as a double quote. *)
Definition quoted (s : string) : jsstring :=
  map (fun c => if c =? 39 then 34 else c) (lit s).

(** The event of the specification's first testable property, without
    and with its newline. *)
Definition hi_event : jsstring :=
  quoted "data: {'choices':[{'delta':{'content':'Hi'}}]}".

Definition hi_line : list N := hi_event ++ [10].

Definition done_line : jsstring := lit "data: [DONE]".

(** A line that makes the loop yield [c]: a content event. *)
Definition content_event (line : jsstring) (c : json) : Prop :=
  no_newline line /\ process_line line = Yield c.

(** The content events of the provider: a text without quote, backslash
    or control character as the content of the first choice's delta. *)
Definition plain_unit (u : N) : bool :=
  negb (u =? 34) && negb (u =? 92) && negb (u <? 32).

Definition content_payload (text : jsstring) : jsstring :=
  quoted "{'choices':[{'delta':{'content':'" ++ text ++ quoted "'}}]}".

Definition content_line (text : jsstring) : jsstring :=
  lit "data: " ++ content_payload text.

Definition content_chunk (text : jsstring) : json :=
  JObject [(lit "choices",
            JArray [JObject [(lit "delta",
                              JObject [(lit "content", JString text)])]])].

(** The fragments that one line adds to the sequence. *)
Definition line_fragments (line : jsstring) : list json :=
  match process_line line with
  | Yield c => [c]
  | _ => []
  end.

(** A second content event, and a body in three chunks: two events, each
    followed by an empty line, then the sentinel with a further event
    behind it in the same chunk, and a chunk after that. *)
Definition there_event : jsstring :=
  quoted "data: {'choices':[{'delta':{'content':' there'}}]}".

Definition sample_lines : list jsstring :=
  [ hi_event; []; there_event; [] ].

Definition sample_before : list (list N) :=
  [ hi_event ++ [10; 10] ++ firstn 20 there_event;
    skipn 20 there_event ++ [10; 10] ++ done_line ++ [10; 10] ++
    hi_event ++ [10] ].

Definition sample_after : list (list N) := [ hi_line ].

(** A body with an event that is not JSON between two content events. *)
Definition malformed_event : jsstring := lit "data: {not valid json}".

Definition sample_malformed : list (list N) :=
  [ hi_event ++ [10] ++ malformed_event ++ [10] ++ there_event ++ [10] ].

(** A failed response whose body is the JSON text null. *)
Definition null_error_response (st : N) (b : option source) : fetch_result :=
  FetchResolves {| ok := false; status := st; json_result := Some JNull;
                   body := b |}.

Definition generic_message (st : N) : json :=
  JString (lit "Chat request failed: " ++ of_N st).

End Stream.

(* ================================================================== *)
(** * The conversation orchestrator: [ChatContainer.tsx] *)
(* ================================================================== *)

Module Chat.
Import Emotion.
Import Stream (js_error, name, message).

Inductive Role := system | user | assistant.

(** [ChatMessage] of [openrouter.ts]. *)
Record ChatMessage := {
  chat_role : Role;
  chat_content : jsstring
}.

(** [Message] of [store.ts]. *)
Record Message := {
  id : jsstring;
  role : Role;
  content : jsstring;
  timestamp : N
}.

Inductive PersonalityLevel := playful | balanced | professional.

Record OpenRouterModel := {
  model_id : jsstring
}.

(** The fields of the store that the component reads or writes. *)
Record AppState := {
  messages : list Message;
  isStreaming : bool;
  buddyMood : BuddyMood;
  apiKey : option jsstring;
  selectedModel : option OpenRouterModel;
  userName : option jsstring;
  personality : PersonalityLevel
}.

(** What the component does to the outside: a record written by
    [saveMessage], a call of [streamChat], a timer for the return to
    [idle]. *)
Inductive effect :=
| SaveMessage (r : Role) (text : jsstring)
| Request (key model : jsstring) (chatMessages : list ChatMessage)
| IdleTimer (delay : N).

(** The store, the state of the component and the effects so far. *)
Record World := {
  store : AppState;
  input : jsstring;
  isLoading : bool;
  abortController : bool;
  trace : list effect
}.

(** What the generator returned by [streamChat] delivers to the loop:
    the fragments, then normal completion ([None]) or the error it
    throws, read through [error.name] and [error.message].  After
    [handleCancel] the pending [fetch] or [reader.read()] rejects with an
    error named AbortError. *)
Record fragment_stream := {
  delivered : list jsstring;
  failure : option js_error
}.

(** What one call of [handleSubmit] gets from its environment: the
    values of [crypto.randomUUID()] and [Date.now()], whether the two
    calls of [saveMessage] resolve ([None]) or reject, and the stream
    that [streamChat] gives for a key, a model and a message list. *)
Record Env := {
  userMsgId : jsstring;
  assistantMsgId : jsstring;
  errorMsgId : jsstring;
  now_user : N;
  now_assistant : N;
  now_error : N;
  save_user : option js_error;
  save_assistant : option js_error;
  respond : jsstring -> jsstring -> list ChatMessage -> fragment_stream
}.

(** How the promise of [handleSubmit] settles. *)
Inductive settled :=
| Fulfilled
| RejectedWith (e : js_error).

(** ** Store actions *)

Definition with_store (f : AppState -> AppState) (w : World) : World :=
  {| store := f (store w); input := input w; isLoading := isLoading w;
     abortController := abortController w; trace := trace w |}.

Definition set_messages (ms : list Message) (s : AppState) : AppState :=
  {| messages := ms; isStreaming := isStreaming s;
     buddyMood := buddyMood s; apiKey := apiKey s;
     selectedModel := selectedModel s; userName := userName s;
     personality := personality s |}.

Definition addMessage (m : Message) : World -> World :=
  with_store (fun s => set_messages (messages s ++ [m]) s).

Definition setStreaming (streaming : bool) : World -> World :=
  with_store (fun s =>
    {| messages := messages s; isStreaming := streaming;
       buddyMood := buddyMood s; apiKey := apiKey s;
       selectedModel := selectedModel s; userName := userName s;
       personality := personality s |}).

Definition setBuddyMood (m : BuddyMood) : World -> World :=
  with_store (fun s =>
    {| messages := messages s; isStreaming := isStreaming s;
       buddyMood := m; apiKey := apiKey s;
       selectedModel := selectedModel s; userName := userName s;
       personality := personality s |}).

Definition setInput (text : jsstring) (w : World) : World :=
  {| store := store w; input := text; isLoading := isLoading w;
     abortController := abortController w; trace := trace w |}.

Definition setIsLoading (loading : bool) (w : World) : World :=
  {| store := store w; input := input w; isLoading := loading;
     abortController := abortController w; trace := trace w |}.

Definition setAbortController (present : bool) (w : World) : World :=
  {| store := store w; input := input w; isLoading := isLoading w;
     abortController := present; trace := trace w |}.

Definition perform (e : effect) (w : World) : World :=
  {| store := store w; input := input w; isLoading := isLoading w;
     abortController := abortController w; trace := trace w ++ [e] |}.

(** ** [buildSystemPrompt] *)

Definition personalityTraits (p : PersonalityLevel) : jsstring :=
  match p with
  | playful =>
      lit "You are playful, use emojis often, and have a fun, casual tone."
  | balanced =>
      lit "You are friendly and helpful with a warm, conversational tone."
  | professional =>
      lit "You are professional and concise while remaining warm."
  end.

Definition buildSystemPrompt (s : AppState) : jsstring :=
  lit "You are Buddy, a friendly AI companion. " ++
  personalityTraits (personality s) ++ [10] ++
  match userName s with
  | Some (c :: n) =>
      lit "The user's name is " ++ (c :: n) ++
      lit ". Use their name occasionally."
  | _ => []
  end ++ [10] ++
  lit "You remember previous conversations and care about the user's wellbeing."
  ++ [10] ++
  lit "Keep responses concise but thoughtful. Show genuine interest in the user.".

(** ** [handleSubmit] *)

(** [l.slice(-n)] *)
Definition slice_last {A} (n : nat) (l : list A) : list A :=
  skipn (List.length l - n) l.

Definition to_chat (m : Message) : ChatMessage :=
  {| chat_role := role m; chat_content := content m |}.

(** The conversation history sent with the request; [s] is the store as
    the callback captured it, before the new message was added. *)
Definition chatMessages (s : AppState) (userMessage : jsstring)
  : list ChatMessage :=
  [ {| chat_role := system; chat_content := buildSystemPrompt s |} ] ++
  map to_chat (slice_last 20 (messages s)) ++
  [ {| chat_role := user; chat_content := userMessage |} ].

Definition set_content (text : jsstring) (m : Message) : Message :=
  {| id := id m; role := role m; content := text;
     timestamp := timestamp m |}.

(** The body of [for await (const chunk of streamChat(...))]. *)
Definition stream_step (msgId : jsstring) (st : jsstring * World)
  (chunk : jsstring) : jsstring * World :=
  let (assistantContent0, w) := st in
  let assistantContent := assistantContent0 ++ chunk in
  let detectedMood := analyzeStreamingEmotion assistantContent talking in
  let w1 := if negb (BuddyMood_eqb detectedMood talking)
            then setBuddyMood detectedMood w else w in
  let w2 := with_store (fun s =>
              set_messages
                (map (fun m => if JsString.eqb (id m) msgId
                               then set_content assistantContent m else m)
                     (messages s)) s) w1 in
  (assistantContent, w2).

(** The [catch] block. *)
Definition on_error (env : Env) (error : js_error) (w : World) : World :=
  if negb (JsString.eqb (name error) (lit "AbortError")) then
    addMessage {| id := errorMsgId env; role := assistant;
                  content := lit "Oops, something went wrong: " ++
                             message error;
                  timestamp := now_error env |}
               (setBuddyMood confused w)
  else w.

(** The [finally] block. *)
Definition on_finally (w : World) : World :=
  setAbortController false (setStreaming false (setIsLoading false w)).

Definition is_empty (s : jsstring) : bool :=
  match s with
  | [] => true
  | _ :: _ => false
  end.

(** The condition of the early return, negated: a turn starts. *)
Definition can_submit (w : World) : bool :=
  negb (is_empty (trim (input w))) &&
  match apiKey (store w) with
  | Some k => negb (is_empty k)
  | None => false
  end &&
  match selectedModel (store w) with
  | Some _ => true
  | None => false
  end &&
  negb (isLoading w).

Definition handleSubmit (env : Env) (w : World) : World * settled :=
  match apiKey (store w), selectedModel (store w) with
  | Some key, Some model =>
      if can_submit w then
        let userMessage := trim (input w) in
        let w1 := setBuddyMood thinking (setIsLoading true (setInput [] w)) in
        let w2 := addMessage {| id := userMsgId env; role := user;
                                content := userMessage;
                                timestamp := now_user env |} w1 in
        let w3 := perform (SaveMessage user userMessage) w2 in
        match save_user env with
        | Some e => (w3, RejectedWith e)
        | None =>
            let request := chatMessages (store w) userMessage in
            let w4 := setAbortController true w3 in
            let w5 := setBuddyMood talking (setStreaming true w4) in
            let w6 := addMessage {| id := assistantMsgId env;
                                    role := assistant; content := [];
                                    timestamp := now_assistant env |} w5 in
            let w7 := perform (Request key (model_id model) request) w6 in
            let stream := respond env key (model_id model) request in
            let (assistantContent, w8) :=
              fold_left (stream_step (assistantMsgId env))
                        (delivered stream) ([], w7) in
            let w9 :=
              match failure stream with
              | Some error => on_error env error w8
              | None =>
                  let w8a := perform (SaveMessage assistant assistantContent)
                                     w8 in
                  match save_assistant env with
                  | Some error => on_error env error w8a
                  | None =>
                      let finalMood :=
                        analyzeStreamingEmotion assistantContent happy in
                      perform (IdleTimer 3000) (setBuddyMood finalMood w8a)
                  end
              end in
            (on_finally w9, Fulfilled)
        end
      else (w, Fulfilled)
  | _, _ => (w, Fulfilled)
  end.

(** ** Notions of the specification *)

(** The requests made so far. *)
Definition requests (w : World) : list (list ChatMessage) :=
  flat_map (fun e => match e with
                     | Request _ _ ms => [ms]
                     | _ => []
                     end) (trace w).

(** The texts accumulated after each fragment. *)
Fixpoint accumulations (acc : jsstring) (fragments : list jsstring)
  : list jsstring :=
  match fragments with
  | [] => []
  | f :: rest => (acc ++ f) :: accumulations (acc ++ f) rest
  end.

(** The mood while streaming: the latest inference on an accumulated text
    that is not [talking], and [talking] when there is none. *)
Definition streaming_mood (fragments : list jsstring) : BuddyMood :=
  last (filter (fun m => negb (BuddyMood_eqb m talking))
               (map (fun text => analyzeStreamingEmotion text talking)
                    (accumulations [] fragments)))
       talking.

(** The message of the user, the partial answer and the error notice of
    one turn, as the turn leaves them in the store. *)
Definition user_message (env : Env) (w : World) : Message :=
  {| id := userMsgId env; role := user; content := trim (input w);
     timestamp := now_user env |}.

Definition answer_message (env : Env) (text : jsstring) : Message :=
  {| id := assistantMsgId env; role := assistant; content := text;
     timestamp := now_assistant env |}.

Definition error_notice (env : Env) (error : js_error) : Message :=
  {| id := errorMsgId env; role := assistant;
     content := lit "Oops, something went wrong: " ++ message error;
     timestamp := now_error env |}.

(** The request of a turn that starts in [w]. *)
Definition turn_request (w : World) : list ChatMessage :=
  chatMessages (store w) (trim (input w)).

(** The stream that answers it. *)
Definition turn_stream (env : Env) (w : World) : fragment_stream :=
  match apiKey (store w), selectedModel (store w) with
  | Some key, Some model => respond env key (model_id model) (turn_request w)
  | _, _ => {| delivered := []; failure := None |}
  end.

(** The world in which the loop over the stream starts: the message of
    the user and the empty answer are in the store, the request is made. *)
Definition stream_start (env : Env) (w : World) (key : jsstring)
  (model : OpenRouterModel) : World :=
  perform (Request key (model_id model) (turn_request w))
    (addMessage (answer_message env [])
       (setBuddyMood talking
          (setStreaming true
             (setAbortController true
                (perform (SaveMessage user (trim (input w)))
                   (addMessage (user_message env w)
                      (setBuddyMood thinking
                         (setIsLoading true (setInput [] w))))))))).

(** Sample data: a store with two earlier turns, and the environment of
    a turn whose stream the reader cuts short. *)
Definition earlier_turns : list Message :=
  [ {| id := lit "m1"; role := user; content := lit "Hello";
       timestamp := 1 |};
    {| id := lit "m2"; role := assistant; content := lit "Hi, nice to see you";
       timestamp := 2 |} ].

Definition sample_world : World :=
  {| store := {| messages := earlier_turns; isStreaming := false;
                 buddyMood := idle; apiKey := Some (lit "sk-or-key");
                 selectedModel := Some {| model_id := lit "vendor/model" |};
                 userName := Some (lit "Sam"); personality := balanced |};
     input := lit "  How are you?  "; isLoading := false;
     abortController := false; trace := [] |}.

Definition sample_env (error : js_error) : Env :=
  {| userMsgId := lit "u1"; assistantMsgId := lit "a1";
     errorMsgId := lit "e1"; now_user := 10; now_assistant := 11;
     now_error := 12; save_user := None; save_assistant := None;
     respond := fun _ _ _ =>
       {| delivered := [lit "I am "; lit "doing"]; failure := Some error |}
  |}.

Definition abort_error : js_error :=
  {| name := lit "AbortError"; message := lit "The user aborted a request." |}.

Definition network_error : js_error :=
  {| name := lit "TypeError"; message := lit "network error" |}.

End Chat.

(* ================================================================== *)
(** * Further notions for the stream decoder *)
(* ================================================================== *)

Module StreamMore.
Import Json Stream.

(** [line.startsWith('data: ')] *)
Definition has_data_prefix (line : jsstring) : bool :=
  startsWith line (lit "data: ").

(** A body whose lines end in a carriage return and a newline: content
    events, then the sentinel. *)
Definition crlf_body (texts : list jsstring) : jsstring :=
  List.concat (map (fun text => content_line text ++ [13; 10]) texts) ++
  done_line ++ [13; 10].

(** The message that a failed response reports: [error.error?.message]
    of its body, when the body is JSON. *)
Definition server_message (response : Response) : option json :=
  match json_result response with
  | Some error =>
      match get_property error (lit "error") with
      | Some inner => get_property inner (lit "message")
      | None => None
      end
  | None => None
  end.

(** Sample data: a body with carriage returns in two chunks, and lines
    that are not events among the events. *)
Definition sample_crlf : list (list N) :=
  [ content_line (lit "Hi") ++ [13; 10] ++ firstn 9 (content_line (lit "!"));
    skipn 9 (content_line (lit "!")) ++ [13; 10] ++ done_line ++ [13; 10] ].

Definition sample_noise : list jsstring :=
  [ lit ": keep-alive"; hi_event; []; lit "event: ping";
    quoted "data:{'choices':[{'delta':{'content':'lost'}}]}";
    there_event ].

Definition sample_failed_response : Response :=
  {| ok := false; status := 429;
     json_result := JSON_parse (quoted "{'error':{'message':'Rate limit exceeded'}}");
     body := None |}.

(** A failed response whose message is an object that cannot be
    converted to a string. *)
Definition sample_unprintable_response : Response :=
  {| ok := false; status := 500;
     json_result := JSON_parse (quoted "{'error':{'message':{'toString':0}}}");
     body := None |}.

End StreamMore.

(* ================================================================== *)
(** * Further notions for the conversation orchestrator *)
(* ================================================================== *)

Module ChatMore.
Import Emotion Chat.
Import Stream (js_error, name, message).

(** What never changes in a stored message. *)
Definition message_key (m : Message) : jsstring * Role * N :=
  (id m, role m, timestamp m).

Definition is_system (r : Role) : bool :=
  match r with
  | system => true
  | _ => false
  end.

(** The settings of the store, which a turn only reads. *)
Definition settings (s : AppState)
  : option jsstring * option OpenRouterModel * option jsstring *
    PersonalityLevel :=
  (apiKey s, selectedModel s, userName s, personality s).

(** The world in which [handleSubmit] is left when the first
    [saveMessage] rejects. *)
Definition stuck_world (env : Env) (w : World) : World :=
  perform (SaveMessage user (trim (input w)))
    (addMessage (user_message env w)
       (setBuddyMood thinking (setIsLoading true (setInput [] w)))).

(** The effects of a turn that were added to the trace of [w]. *)
Definition new_effects (w w' : World) : list effect :=
  skipn (List.length (trace w)) (trace w').

(** Sample data: environments of a turn whose stream completes, of a
    turn whose first [saveMessage] rejects, and of a turn whose second
    one does. *)
Definition quota_error : js_error :=
  {| name := lit "QuotaExceededError"; message := lit "quota exceeded" |}.

Definition completing_env (u a : jsstring) (first second : option js_error)
  : Env :=
  {| userMsgId := u; assistantMsgId := a; errorMsgId := lit "e1";
     now_user := 10; now_assistant := 11; now_error := 12;
     save_user := first; save_assistant := second;
     respond := fun _ _ _ =>
       {| delivered := [lit "I am fine, "; lit "thanks."];
          failure := None |} |}.

(** The line of the system prompt that names the user; empty when no
    name is set. *)
Definition name_line (s : AppState) : jsstring :=
  match userName s with
  | Some (c :: n) =>
      lit "The user's name is " ++ (c :: n) ++
      lit ". Use their name occasionally."
  | _ => []
  end.

Definition with_userName (n : option jsstring) (s : AppState) : AppState :=
  {| messages := messages s; isStreaming := isStreaming s;
     buddyMood := buddyMood s; apiKey := apiKey s;
     selectedModel := selectedModel s; userName := n;
     personality := personality s |}.

Definition blank_world : World :=
  setInput (lit "   ") sample_world.

(** ** The request as the specification words it *)

(** A turn of the specification: one message of the user and the
    message of the assistant that answers it. *)
Definition spec_turn : Type := (Message * Message)%type.

Definition spec_history (turns : list spec_turn) : list Message :=
  flat_map (fun t => [fst t; snd t]) turns.

(** The system prompt, the last prior turns capped at 20, and the input
    [u] as the message of the user. *)
Definition spec_request (s : AppState) (turns : list spec_turn)
  (u : jsstring) : list ChatMessage :=
  [ {| chat_role := system; chat_content := buildSystemPrompt s |} ] ++
  map to_chat (spec_history (slice_last 20 turns)) ++
  [ {| chat_role := user; chat_content := u |} ].

(** Sample data: a conversation of eleven turns, and a world that holds
    it with an input that has white space around it. *)
Definition sample_turn (n : nat) : spec_turn :=
  ({| id := lit "q" ++ of_N (N.of_nat n); role := user;
      content := lit "question " ++ of_N (N.of_nat n);
      timestamp := N.of_nat (2 * n) |},
   {| id := lit "r" ++ of_N (N.of_nat n); role := assistant;
      content := lit "answer " ++ of_N (N.of_nat n);
      timestamp := N.of_nat (2 * n + 1) |}).

Definition eleven_turns : list spec_turn := map sample_turn (seq 1 11).

Definition long_world : World :=
  with_store (set_messages (spec_history eleven_turns))
             (setInput (lit "  hi  ") sample_world).

End ChatMore.

(* ================================================================== *)
(** * Further notions for the emotion detector *)
(* ================================================================== *)

Module EmotionMore.
Import JsString Emotion.

(** The moods that the pattern table names. *)
Definition table_moods : list BuddyMood := map mood EMOTION_PATTERNS.

(** The moods that [analyzeStreamingEmotion] can put in place of the
    current one. *)
Definition strong_moods : list BuddyMood :=
  filter (fun m => negb (BuddyMood_eqb m thinking)) table_moods.

Definition is_latin_letter (c : N) : bool :=
  ((97 <=? c) && (c <=? 122)) || ((65 <=? c) && (c <=? 90)).

(** A code unit that is no Basic Latin letter and does not become one in
    lower case: the dotted capital I (U+0130) and the Kelvin sign
    (U+212A) do. *)
Definition letterless (c : N) : bool :=
  negb (is_latin_letter c) && negb (c =? 304) && negb (c =? 8490).

Definition starts_with_letter (s : jsstring) : bool :=
  match s with
  | k :: _ => (97 <=? k) && (k <=? 122)
  | [] => false
  end.

Definition sample_digits : jsstring :=
  lit "1 + 1 = 2; 2 * 21 = 42; 100% (50/50) ... 3.14159 ?!".

End EmotionMore.

(* ================================================================== *)
(** * The model listing: [fetchModels] *)
(* ================================================================== *)

Module Models.
Import JsString Json Stream.

(** [modalities.includes('text')] for a parsed value other than [null]:
    the method of an array compares every element with the string, the
    method of a string looks for it as a substring, and no other parsed
    value has a method of that name, so that the call raises. *)
Definition includes_text (modalities : json) : completion bool :=
  match modalities with
  | JArray items =>
      Normal (existsb (fun x => match x with
                                | JString s => JsString.eqb s (lit "text")
                                | _ => false
                                end) items)
  | JString s => Normal (includes s (lit "text"))
  | _ => ThrowTypeError
  end.

(** The callback of the filter, read as a condition:
    [model.architecture?.output_modalities?.includes('text')]. *)
Definition is_text_model (model : json) : completion bool :=
  match model with
  | JNull => ThrowTypeError
  | _ =>
      match get_property model (lit "architecture") with
      | None | Some JNull => Normal false
      | Some architecture =>
          match get_property architecture (lit "output_modalities") with
          | None | Some JNull => Normal false
          | Some modalities => includes_text modalities
          end
      end
  end.

(** [models.filter(callback)]: the callback runs on the elements in
    order, and its first exception ends the call. *)
Fixpoint filter_models (models : list json) : completion (list json) :=
  match models with
  | [] => Normal []
  | model :: rest =>
      match is_text_model model with
      | ThrowTypeError => ThrowTypeError
      | Normal keep =>
          match filter_models rest with
          | ThrowTypeError => ThrowTypeError
          | Normal kept => Normal (if keep then model :: kept else kept)
          end
      end
  end.

(** How the promise of [fetchModels] settles: with the list, with
    something thrown, or with the rejection of the second
    [response.json()], which nothing catches. *)
Inductive models_result :=
| ModelList (models : list json)
| ModelsThrew (t : thrown)
| BodyRejected.

(** [fetchModels], given what [fetch] does with the request. *)
Definition fetchModels (fetched : fetch_result) : models_result :=
  match fetched with
  | FetchRejects e => ModelsThrew (Rejected e)
  | FetchResolves response =>
      if negb (ok response) then
        let error := match json_result response with
                     | Some v => v
                     | None => JObject []
                     end in
        match error_message error with
        | ThrowTypeError => ModelsThrew TypeError
        | Normal m =>
            ModelsThrew
              (new_error
                 (match m with
                  | Some v =>
                      if truthy m then v
                      else JString (lit "Failed to fetch models: " ++
                                    of_N (status response))
                  | None =>
                      JString (lit "Failed to fetch models: " ++
                               of_N (status response))
                  end))
        end
      else
        match json_result response with
        | None => BodyRejected
        | Some JNull => ModelsThrew TypeError
        | Some data =>
            match get_property data (lit "data") with
            | Some (JArray models) =>
                match filter_models models with
                | Normal kept => ModelList kept
                | ThrowTypeError => ModelsThrew TypeError
                end
            | _ => ModelsThrew TypeError
            end
        end
  end.

(** ** Notions for the properties *)

(** The callback as a plain condition. *)
Definition text_model (model : json) : bool :=
  match is_text_model model with
  | Normal keep => keep
  | ThrowTypeError => false
  end.

(** An entry on which the callback raises. *)
Definition breaks_filter (model : json) : bool :=
  match is_text_model model with
  | Normal _ => false
  | ThrowTypeError => true
  end.

(** The entry names text among its output modalities: in a list of
    modalities, or in a single string that contains the word. *)
Definition declares_text (model : json) : Prop :=
  exists architecture modalities,
    get_property model (lit "architecture") = Some architecture /\
    get_property architecture (lit "output_modalities") = Some modalities /\
    ((exists items, modalities = JArray items /\
                    In (JString (lit "text")) items) \/
     (exists s, modalities = JString s /\ includes s (lit "text") = true)).

(** A successful response whose body is the given JSON text. *)
Definition listing_response (text : jsstring) : fetch_result :=
  FetchResolves {| ok := true; status := 200;
                   json_result := JSON_parse text; body := None |}.

Definition sample_listing : jsstring :=
  quoted "{'data':[{'id':'a/chat','architecture':{'output_modalities':['text']}},{'id':'b/image','architecture':{'output_modalities':['image']}},{'id':'c/old'},{'id':'d/both','architecture':{'output_modalities':['image','text']}}]}".

Definition sample_broken_listing : jsstring :=
  quoted "{'data':[{'id':'a/chat','architecture':{'output_modalities':['text']}},null]}".

Definition chat_entry (model : jsstring) (modalities : list json) : json :=
  JObject [(lit "id", JString model);
           (lit "architecture",
            JObject [(lit "output_modalities", JArray modalities)])].

Definition sample_entries : list json :=
  [ chat_entry (lit "a/chat") [JString (lit "text")];
    chat_entry (lit "b/image") [JString (lit "image")];
    JObject [(lit "id", JString (lit "c/old"))];
    chat_entry (lit "d/both") [JString (lit "image"); JString (lit "text")] ].

End Models.

(* ================================================================== *)
(** * The message store: [saveMessage], [getRecentMessages] and the
      loading of the stored messages *)
(* ================================================================== *)

Module Memory.
Import JsString Emotion Chat ChatMore.
Local Open Scope N_scope.

(** IndexedDB orders string keys by their code units. *)
Fixpoint key_ltb (a b : jsstring) : bool :=
  match a, b with
  | _, [] => false
  | [], _ :: _ => true
  | x :: a', y :: b' => (x <? y) || ((x =? y) && key_ltb a' b')
  end.

(** The order of the records in the index [by-timestamp]: by the
    timestamp, and by the primary key [id] among equal timestamps. *)
Definition index_leb (a b : Message) : bool :=
  (timestamp a <? timestamp b) ||
  ((timestamp a =? timestamp b) && negb (key_ltb (id b) (id a))).

Definition index_le (a b : Message) : Prop := index_leb a b = true.

(** The object store [messages]: its records, one for each [id]. *)
Definition MessageDB := list Message.

(** [db.put('messages', record)]: the record takes the place of the one
    with the same key, when there is one. *)
Definition put (record : Message) (db : MessageDB) : MessageDB :=
  record :: filter (fun m => negb (JsString.eqb (id m) (id record))) db.

Fixpoint insert (record : Message) (sorted : list Message) : list Message :=
  match sorted with
  | [] => [record]
  | m :: rest =>
      if index_leb record m then record :: m :: rest
      else m :: insert record rest
  end.

(** [db.getAllFromIndex('messages', 'by-timestamp')] *)
Definition getAllFromIndex (db : MessageDB) : list Message :=
  fold_right insert [] db.

(** [all.slice(start)] for an integer [start]: counted from the end when
    it is negative, and clamped to the array. *)
Definition slice_from {A} (start : Z) (l : list A) : list A :=
  let len := Z.of_nat (List.length l) in
  let k := if (start <? 0)%Z then Z.max (len + start) 0
           else Z.min start len in
  skipn (Z.to_nat k) l.

(** [getRecentMessages(limit = 50)] for an integer limit; [None] is a
    call without argument. *)
Definition getRecentMessages (limit : option Z) (db : MessageDB)
  : list Message :=
  let limit := match limit with
               | Some n => n
               | None => 50%Z
               end in
  slice_from (- limit)%Z (getAllFromIndex db).

(** [saveMessage(role, content)], given the values of
    [crypto.randomUUID()] and [Date.now()]: the store after the call and
    the id returned. *)
Definition saveMessage (newId : jsstring) (now : N) (r : Role)
  (text : jsstring) (db : MessageDB) : MessageDB * jsstring :=
  (put {| id := newId; role := r; content := text; timestamp := now |} db,
   newId).

Definition clearMessages (db : MessageDB) : MessageDB := [].

(** The effect that [ChatContainer] runs on mount: when the store holds
    no message, the stored messages that are not of the system are added
    one by one. *)
Definition loadMessages (db : MessageDB) (w : World) : World :=
  match messages (store w) with
  | [] =>
      fold_left (fun w msg =>
                   if negb (is_system (role msg)) then
                     addMessage {| id := id msg; role := role msg;
                                   content := content msg;
                                   timestamp := timestamp msg |} w
                   else w)
                (getRecentMessages (Some 100%Z) db) w
  | _ :: _ => w
  end.

(** ** Notions for the properties *)

(** The records that the saves among the effects of a turn leave in the
    store, when they succeed; the [n]-th call of [saveMessage] draws the
    id and the time [stamp n]. *)
Fixpoint persist (effects : list effect) (stamp : nat -> jsstring * N)
  (n : nat) (db : MessageDB) : MessageDB :=
  match effects with
  | [] => db
  | SaveMessage r text :: rest =>
      persist rest stamp (S n)
        (fst (saveMessage (fst (stamp n)) (snd (stamp n)) r text db))
  | _ :: rest => persist rest stamp n db
  end.

(** A component that has just been mounted: the store holds no message,
    since the persisted part of the store leaves the messages out. *)
Definition mounted (w : World) : World :=
  with_store (set_messages []) w.

Definition sample_db : MessageDB :=
  [ {| id := lit "k2"; role := assistant; content := lit "Hi, nice to see you";
       timestamp := 2 |};
    {| id := lit "k9"; role := user; content := lit "Hello";
       timestamp := 1 |} ].

Definition sample_stamp (n : nat) : jsstring * N :=
  match n with
  | O => (lit "k0", 20)
  | _ => (lit "k1", 30)
  end.

End Memory.

(* ================================================================== *)
(** * The PIN lock: [lib/auth/PinLock.ts] *)
(* ================================================================== *)

Module PinLock.
Import JsString.
Local Open Scope N_scope.

Definition SALT_LENGTH : nat := 16.
Definition LOCKOUT_DURATION_MS : N := 30000.
Definition MAX_ATTEMPTS : N := 5.

(** The two variables of the module. *)
Record LockState := {
  failedAttempts : N;
  lockoutUntil : N
}.

Definition initial : LockState :=
  {| failedAttempts := 0; lockoutUntil := 0 |}.

(** ** [generateSalt] *)

Definition hex_digit (d : N) : N :=
  if d <? 10 then 48 + d else 87 + d.

Fixpoint to_hex (fuel : nat) (n : N) (acc : jsstring) : jsstring :=
  match fuel with
  | O => acc
  | S fuel' =>
      let acc' := hex_digit (n mod 16) :: acc in
      if n / 16 =? 0 then acc' else to_hex fuel' (n / 16) acc'
  end.

(** [n.toString(16)] for a natural number. *)
Definition toString16 (n : N) : jsstring :=
  to_hex (S (N.to_nat (N.log2 n))) n [].

(** [s.padStart(width, c)] for a filler of one code unit. *)
Definition padStart (width : nat) (c : N) (s : jsstring) : jsstring :=
  repeat c (width - List.length s) ++ s.

(** The salt for the values that the random source writes into the
    array; an element of a [Uint8Array] holds its value modulo 256. *)
Definition generateSalt (random : nat -> N) : jsstring :=
  List.concat
    (map (fun i => padStart 2 48 (toString16 (random i mod 256)))
         (seq 0 SALT_LENGTH)).

(** ** [hashPin]

    The digest is SHA-256 in hexadecimal where the platform offers it and
    [simpleHash] elsewhere; either way it is a function of the one
    string [salt + pin], which is all that is modelled of it. *)
Definition hashPin (digest : jsstring -> jsstring) (pin salt : jsstring)
  : jsstring :=
  digest (salt ++ pin).

(** ** [createPinHash] *)

Definition is_digit (c : N) : bool := (48 <=? c) && (c <=? 57).

(** [/^\d+$/.test(pin)] *)
Definition all_digits (pin : jsstring) : bool :=
  negb (Chat.is_empty pin) && forallb is_digit pin.

Inductive created :=
| PinError (message : jsstring)
| PinHash (stored : jsstring).

Definition createPinHash (digest : jsstring -> jsstring)
  (random : nat -> N) (pin : jsstring) : created :=
  if (List.length pin <? 4)%nat || (6 <? List.length pin)%nat ||
     negb (all_digits pin)
  then PinError (lit "PIN must be 4-6 digits")
  else
    let salt := generateSalt random in
    let hash := hashPin digest pin salt in
    PinHash (salt ++ lit ":" ++ hash).

(** ** The lockout *)

(** [isLockedOut()] at the time [now]: the answer and the state after. *)
Definition isLockedOut (now : N) (st : LockState) : bool * LockState :=
  if now <? lockoutUntil st then (true, st)
  else if 0 <? lockoutUntil st then (false, initial)
  else (false, st).

(** [Math.ceil(x / 1000)] for an integer [x]. *)
Definition ceil_thousandth (x : Z) : Z := (- ((- x) / 1000))%Z.

(** [getLockoutRemaining()]; the clock is read twice. *)
Definition getLockoutRemaining (now1 now2 : N) (st : LockState)
  : Z * LockState :=
  let (locked, st') := isLockedOut now1 st in
  if negb locked then (0%Z, st')
  else (ceil_thousandth (Z.of_N (lockoutUntil st') - Z.of_N now2), st').

(** [getRemainingAttempts()] *)
Definition getRemainingAttempts (st : LockState) : Z :=
  Z.max 0 (Z.of_N MAX_ATTEMPTS - Z.of_N (failedAttempts st)).

(** [s.split(sep)] for a separator of one code unit. *)
Fixpoint split_on (sep : N) (s : jsstring) : list jsstring :=
  match s with
  | [] => [[]]
  | c :: s' =>
      if c =? sep then [] :: split_on sep s'
      else
        match split_on sep s' with
        | l :: ls => (c :: l) :: ls
        | [] => [[c]]
        end
  end.

(** ** [verifyPin]

    The function runs in two parts, with the [await] of [hashPin]
    between them; other calls can run in between, and the second part
    works on the variables as they are when it runs. *)

(** What a call holds while it awaits the digest. *)
Record pending := {
  pending_pin : jsstring;
  pending_salt : jsstring;
  pending_expected : jsstring
}.

Inductive started :=
| Settled (valid : bool)
| Awaiting (p : pending).

(** The part that runs at once, at the time [now]: the lockout check
    and the split of the stored hash. *)
Definition verifyPin_start (now : N) (pin storedHash : jsstring)
  (st : LockState) : started * LockState :=
  let (locked, st1) := isLockedOut now st in
  if locked then (Settled false, st1)
  else
    match split_on 58 storedHash with
    | salt :: expectedHash :: _ =>
        if Chat.is_empty salt || Chat.is_empty expectedHash
        then (Settled false, st1)
        else (Awaiting {| pending_pin := pin; pending_salt := salt;
                          pending_expected := expectedHash |}, st1)
    | _ => (Settled false, st1)
    end.

(** The part that runs when the digest is there, at the time [now]: the
    comparison and the update of the counter and the lockout. *)
Definition verifyPin_finish (digest : jsstring -> jsstring) (now : N)
  (p : pending) (st : LockState) : bool * LockState :=
  let hash := hashPin digest (pending_pin p) (pending_salt p) in
  if JsString.eqb hash (pending_expected p) then
    (true, {| failedAttempts := 0; lockoutUntil := lockoutUntil st |})
  else
    let failed := failedAttempts st + 1 in
    (false,
     {| failedAttempts := failed;
        lockoutUntil := if MAX_ATTEMPTS <=? failed
                        then now + LOCKOUT_DURATION_MS
                        else lockoutUntil st |}).

(** [verifyPin(pin, storedHash)] when no other call runs while it
    awaits: the clock is read at [now1] by the lockout check and at
    [now2] when the lockout is set. *)
Definition verifyPin (digest : jsstring -> jsstring) (now1 now2 : N)
  (pin storedHash : jsstring) (st : LockState) : bool * LockState :=
  match verifyPin_start now1 pin storedHash st with
  | (Settled valid, st1) => (valid, st1)
  | (Awaiting p, st1) => verifyPin_finish digest now2 p st1
  end.

(** ** Notions for the properties *)

(** The calls that the lock screen makes, each one finished before the
    next one starts. *)
Inductive call :=
| VerifyPin (now1 now2 : N) (pin storedHash : jsstring)
| IsLockedOut (now : N)
| GetLockoutRemaining (now1 now2 : N)
| GetRemainingAttempts.

Definition after_call (digest : jsstring -> jsstring) (st : LockState)
  (c : call) : LockState :=
  match c with
  | VerifyPin now1 now2 pin storedHash =>
      snd (verifyPin digest now1 now2 pin storedHash st)
  | IsLockedOut now => snd (isLockedOut now st)
  | GetLockoutRemaining now1 now2 => snd (getLockoutRemaining now1 now2 st)
  | GetRemainingAttempts => st
  end.

Definition after_calls (digest : jsstring -> jsstring) (calls : list call)
  : LockState :=
  fold_left (after_call digest) calls initial.

(** Either no lockout is set and fewer than five attempts have failed,
    or a lockout is set and five have. *)
Definition consistent (st : LockState) : Prop :=
  (lockoutUntil st = 0 /\ failedAttempts st < 5) \/
  (0 < lockoutUntil st /\ failedAttempts st = 5).

(** A stored hash that [verifyPin] can read: a salt and a hash, both
    not empty, with a colon between them. *)
Definition readable (storedHash salt expectedHash : jsstring) : Prop :=
  exists rest,
    split_on 58 storedHash = salt :: expectedHash :: rest /\
    salt <> [] /\ expectedHash <> [].

Definition is_hex (c : N) : bool :=
  ((48 <=? c) && (c <=? 57)) || ((97 <=? c) && (c <=? 102)).

(** Sample data: a digest that is good enough to tell two PINs apart,
    and a source of bytes. *)
Definition sample_digest (s : jsstring) : jsstring :=
  lit "h" ++ s.

Definition sample_random (i : nat) : N := 7 * N.of_nat i + 250.

End PinLock.

(* ================================================================== *)
(** * Facts about strings *)
(* ================================================================== *)

Section StringFacts.

Lemma jsstring_eqb_refl (a : jsstring) : JsString.eqb a a = true.
Proof.
  induction a as [|x a IH]; simpl; [reflexivity|].
  now rewrite N.eqb_refl.
Qed.

Lemma jsstring_eqb_eq (a b : jsstring) : JsString.eqb a b = true <-> a = b.
Proof.
  split.
  - revert b; induction a as [|x a IH]; intros [|y b]; simpl; try easy.
    rewrite andb_true_iff, N.eqb_eq. intros [-> H]. now rewrite (IH _ H).
  - intros ->. apply jsstring_eqb_refl.
Qed.

Lemma includes_occurrences (s sub : jsstring) :
  includes s sub = (0 <? occurrences s sub)%nat.
Proof.
  induction s as [|c s IH]; cbn [includes occurrences].
  - now destruct (startsWith [] sub).
  - rewrite IH. now destruct (startsWith (c :: s) sub).
Qed.

End StringFacts.

(* ================================================================== *)
(** * The JSON parser *)
(* ================================================================== *)

Module JsonFacts.
Import Json.

Lemma skip_ws_length (s : jsstring) :
  (List.length (skip_ws s) <= List.length s)%nat.
Proof.
  induction s as [|c s IH]; simpl; [lia|].
  destruct (is_ws c); simpl; lia.
Qed.

Lemma parse_string_body_length (n : nat) :
  forall s acc str r,
    (List.length s <= n)%nat ->
    parse_string_body s acc = Some (str, r) ->
    (List.length r < List.length s)%nat.
Proof.
  induction n as [|n IH]; intros s acc str r Hn H.
  - destruct s; [discriminate|simpl in Hn; lia].
  - destruct s as [|c s1]; [discriminate|]. simpl in Hn, H.
    destruct (c =? 34).
    { revert H. intros [= _ <-]. simpl. lia. }
    destruct (c <? 32); [discriminate|].
    destruct (c =? 92).
    + destruct s1 as [|e s2]; [discriminate|]. simpl in Hn.
      assert (Hs2 : forall a, parse_string_body s2 a = Some (str, r) ->
                              (List.length r < S (S (List.length s2)))%nat).
      { intros a Ha. apply IH in Ha; lia. }
      repeat match type of H with
             | (if ?b then _ else _) = _ =>
                 destruct b; [now apply Hs2 in H|]
             end.
      destruct (e =? 117); [|discriminate].
      destruct s2 as [|h1 [|h2 [|h3 [|h4 s3]]]]; try discriminate.
      destruct (hex4 h1 h2 h3 h4); [|discriminate].
      apply IH in H; simpl in *; lia.
    + apply IH in H; simpl; lia.
Qed.

Lemma parse_digits_length (s : jsstring) (v : N) (n : nat) :
  (List.length (snd (parse_digits s v n)) <= List.length s)%nat.
Proof.
  revert v n. induction s as [|c s IH]; intros v n; simpl; [lia|].
  destruct (is_digit c); simpl; [|lia].
  specialize (IH (v * 10 + (c - 48)) (S n)). lia.
Qed.

Lemma parse_number_length (s : jsstring) (v : json) (r : jsstring) :
  parse_number s = Some (v, r) -> (List.length r < List.length s)%nat.
Proof.
  unfold parse_number.
  set (sign := match s with
               | c :: s' => if c =? 45 then (true, s') else (false, s)
               | [] => (false, s)
               end).
  assert (Hs1 : (List.length (snd sign) <= List.length s)%nat).
  { unfold sign. destruct s as [|c s']; simpl; [lia|].
    destruct (c =? 45); simpl; lia. }
  destruct sign as [negative s1]. simpl in Hs1.
  destruct s1 as [|c s']; [discriminate|].
  set (int_part := if c =? 48 then Some (0, s')
                   else if is_digit c
                        then (let '(v, _, rest) := parse_digits (c :: s') 0 0
                              in Some (v, rest))
                        else None).
  assert (Hint : forall iv s2, int_part = Some (iv, s2) ->
                               (List.length s2 < List.length s)%nat).
  { unfold int_part. intros iv s2.
    destruct (c =? 48).
    - intros [= _ <-]. simpl in Hs1. lia.
    - destruct (is_digit c) eqn:Ed; [|discriminate].
      simpl. rewrite Ed.
      match goal with
      | |- context [parse_digits ?a ?b ?k] =>
          pose proof (parse_digits_length a b k) as Hd;
          destruct (parse_digits a b k) as [[v0 n0] r0]
      end.
      intros [= _ <-]. simpl in *. lia. }
  destruct int_part as [[int_value s2]|]; [|discriminate].
  specialize (Hint _ _ eq_refl).
  set (frac_part := match s2 with
                    | c0 :: s'0 =>
                        if c0 =? 46
                        then (let '(v0, n, rest) :=
                                parse_digits s'0 int_value 0 in
                              match n with
                              | O => None
                              | S _ => Some (v0, Z.of_nat n, rest)
                              end)
                        else Some (int_value, 0%Z, s2)
                    | [] => Some (int_value, 0%Z, s2)
                    end).
  assert (Hfrac : forall d fl s3, frac_part = Some (d, fl, s3) ->
                                  (List.length s3 <= List.length s2)%nat).
  { unfold frac_part. intros d fl s3.
    destruct s2 as [|c0 s'0]; [intros [= _ _ <-]; lia|].
    destruct (c0 =? 46); [|intros [= _ _ <-]; lia].
    pose proof (parse_digits_length s'0 int_value 0) as Hd.
    destruct (parse_digits s'0 int_value 0) as [[v0 n0] r0].
    destruct n0; [discriminate|]. intros [= _ _ <-]. simpl in *. lia. }
  destruct frac_part as [[[digits frac_len] s3]|]; [|discriminate].
  specialize (Hfrac _ _ _ eq_refl).
  destruct s3 as [|c1 s'1].
  - intros [= _ <-]. simpl in *. lia.
  - destruct ((c1 =? 101) || (c1 =? 69)).
    + set (esign := match s'1 with
                    | d :: s'' =>
                        if d =? 45 then (true, s'')
                        else if d =? 43 then (false, s'') else (false, s'1)
                    | [] => (false, s'1)
                    end).
      assert (He : (List.length (snd esign) <= List.length s'1)%nat).
      { unfold esign. destruct s'1 as [|d s'']; simpl; [lia|].
        destruct (d =? 45); simpl; [lia|]. destruct (d =? 43); simpl; lia. }
      destruct esign as [exp_negative s4]. simpl in He.
      pose proof (parse_digits_length s4 0 0) as Hd.
      destruct (parse_digits s4 0 0) as [[v0 n0] r0].
      destruct n0; [discriminate|]. intros [= _ <-]. simpl in *. lia.
    + intros [= _ <-]. simpl in *. lia.
Qed.

Ltac skip_ws_facts :=
  repeat match goal with
         | E : skip_ws ?a = ?b |- _ =>
             let F := fresh "F" in
             pose proof (skip_ws_length a) as F; rewrite E in F;
             revert E
         end; intros.

Ltac string_facts :=
  repeat match goal with
         | E : parse_string_body ?a ?acc = Some (?k, ?b) |- _ =>
             let F := fresh "F" in
             pose proof (parse_string_body_length _ a acc k b (le_n _) E) as F;
             revert E
         end; intros.

Lemma parse_rest_length (fuel : nat) :
  (forall s v r, parse_value fuel s = Some (v, r) ->
                 (List.length r < List.length s)%nat) /\
  (forall s acc v r, parse_elements fuel s acc = Some (v, r) ->
                     (List.length r < List.length s)%nat) /\
  (forall s acc v r, parse_member fuel s acc = Some (v, r) ->
                     (List.length r < List.length s)%nat).
Proof.
  induction fuel as [|fuel (IHv & IHe & IHm)].
  { repeat split; intros; discriminate. }
  assert (Hv : forall a v b, parse_value fuel (skip_ws a) = Some (v, b) ->
                             (List.length b < List.length a)%nat).
  { intros a v b H. apply IHv in H. pose proof (skip_ws_length a). lia. }
  split; [|split].
  - intros s v r H. cbn [parse_value] in H.
    destruct s as [|c s']; [discriminate|].
    destruct (c =? 123).
    { destruct (skip_ws s') as [|d s1] eqn:E; [discriminate|].
      skip_ws_facts. destruct (d =? 125).
      - inversion H; subst. simpl in *. lia.
      - apply IHm in H. simpl in *. lia. }
    destruct (c =? 91).
    { destruct (skip_ws s') as [|d s1] eqn:E; [discriminate|].
      skip_ws_facts. destruct (d =? 93).
      - inversion H; subst. simpl in *. lia.
      - destruct (parse_value fuel (d :: s1)) as [[v1 s2]|] eqn:E1;
          [|discriminate].
        apply IHv in E1. apply IHe in H. simpl in *. lia. }
    destruct (c =? 34).
    { destruct (parse_string_body s' []) as [[str s1]|] eqn:E;
        [|discriminate].
      string_facts. inversion H; subst. simpl. lia. }
    destruct (startsWith (c :: s') (lit "true")).
    { assert (L : (List.length (skipn 4 (c :: s')) < List.length (c :: s'))%nat)
        by (rewrite length_skipn; simpl; lia).
      inversion H; subst. exact L. }
    destruct (startsWith (c :: s') (lit "false")).
    { assert (L : (List.length (skipn 5 (c :: s')) < List.length (c :: s'))%nat)
        by (rewrite length_skipn; simpl; lia).
      inversion H; subst. exact L. }
    destruct (startsWith (c :: s') (lit "null")).
    { assert (L : (List.length (skipn 4 (c :: s')) < List.length (c :: s'))%nat)
        by (rewrite length_skipn; simpl; lia).
      inversion H; subst. exact L. }
    now apply parse_number_length in H.
  - intros s acc v r H. cbn [parse_elements] in H.
    destruct (skip_ws s) as [|c s1] eqn:E; [discriminate|].
    skip_ws_facts. destruct (c =? 93).
    { inversion H; subst. simpl in *. lia. }
    destruct (c =? 44); [|discriminate].
    destruct (parse_value fuel (skip_ws s1)) as [[v1 s2]|] eqn:E1;
      [|discriminate].
    apply Hv in E1. apply IHe in H. simpl in *. lia.
  - intros s acc v r H. cbn [parse_member] in H.
    destruct s as [|q s1]; [discriminate|].
    destruct (q =? 34); [|discriminate].
    destruct (parse_string_body s1 []) as [[key s2]|] eqn:E; [|discriminate].
    destruct (skip_ws s2) as [|colon s3] eqn:E2; [discriminate|].
    destruct (colon =? 58); [|discriminate].
    destruct (parse_value fuel (skip_ws s3)) as [[v1 s4]|] eqn:E3;
      [|discriminate].
    destruct (skip_ws s4) as [|c s5] eqn:E4; [discriminate|].
    string_facts. skip_ws_facts. apply Hv in E3.
    destruct (c =? 125).
    { inversion H; subst. simpl in *. lia. }
    destruct (c =? 44); [|discriminate].
    apply IHm in H. pose proof (skip_ws_length s5). simpl in *. lia.
Qed.

(** The parser's answer does not depend on the fuel once the fuel
    exceeds the length of the input: [None] is a syntax error. *)
Lemma parse_fuel_irrelevant (f1 : nat) :
  forall f2,
  (forall s, (List.length s < f1)%nat -> (List.length s < f2)%nat ->
             parse_value f1 s = parse_value f2 s) /\
  (forall s acc, (List.length s < f1)%nat -> (List.length s < f2)%nat ->
                 parse_elements f1 s acc = parse_elements f2 s acc) /\
  (forall s acc, (List.length s < f1)%nat -> (List.length s < f2)%nat ->
                 parse_member f1 s acc = parse_member f2 s acc).
Proof.
  induction f1 as [|f1 IH]; intros f2.
  { repeat split; intros; lia. }
  destruct f2 as [|f2].
  { repeat split; intros; lia. }
  destruct (IH f2) as (IHv & IHe & IHm).
  pose proof (parse_rest_length f1) as (Lv & Le & Lm).
  split; [|split].
  - intros s H1 H2. cbn [parse_value].
    destruct s as [|c s']; [reflexivity|]. simpl in H1, H2.
    destruct (c =? 123).
    { destruct (skip_ws s') as [|d s1] eqn:E; [reflexivity|].
      skip_ws_facts. destruct (d =? 125); [reflexivity|].
      apply IHm; simpl in *; lia. }
    destruct (c =? 91); [|reflexivity].
    destruct (skip_ws s') as [|d s1] eqn:E; [reflexivity|].
    skip_ws_facts. destruct (d =? 93); [reflexivity|].
    rewrite <- (IHv (d :: s1)) by (simpl in *; lia).
    destruct (parse_value f1 (d :: s1)) as [[v1 s2]|] eqn:E1; [|reflexivity].
    apply Lv in E1. apply IHe; simpl in *; lia.
  - intros s acc H1 H2. cbn [parse_elements].
    destruct (skip_ws s) as [|c s1] eqn:E; [reflexivity|].
    skip_ws_facts. destruct (c =? 93); [reflexivity|].
    destruct (c =? 44); [|reflexivity].
    pose proof (skip_ws_length s1) as F1.
    rewrite <- (IHv (skip_ws s1)) by (simpl in *; lia).
    destruct (parse_value f1 (skip_ws s1)) as [[v1 s2]|] eqn:E1;
      [|reflexivity].
    apply Lv in E1. apply IHe; simpl in *; lia.
  - intros s acc H1 H2. cbn [parse_member].
    destruct s as [|q s1]; [reflexivity|]. simpl in H1, H2.
    destruct (q =? 34); [|reflexivity].
    destruct (parse_string_body s1 []) as [[key s2]|] eqn:E; [|reflexivity].
    destruct (skip_ws s2) as [|colon s3] eqn:E2; [reflexivity|].
    destruct (colon =? 58); [|reflexivity].
    string_facts. skip_ws_facts.
    pose proof (skip_ws_length s3) as F3.
    rewrite <- (IHv (skip_ws s3)) by (simpl in *; lia).
    destruct (parse_value f1 (skip_ws s3)) as [[v1 s4]|] eqn:E3;
      [|reflexivity].
    apply Lv in E3.
    destruct (skip_ws s4) as [|c s5] eqn:E4; [reflexivity|].
    skip_ws_facts. destruct (c =? 125); [reflexivity|].
    destruct (c =? 44); [|reflexivity].
    pose proof (skip_ws_length s5) as F5.
    apply IHm; simpl in *; lia.
Qed.

(** [JSON_parse] is the parser with any fuel above the length of the
    text. *)
Lemma JSON_parse_any_fuel (text : jsstring) (fuel : nat) :
  (List.length text < fuel)%nat ->
  JSON_parse text =
  match parse_value fuel (skip_ws text) with
  | Some (v, rest) => match skip_ws rest with
                      | [] => Some v
                      | _ :: _ => None
                      end
  | None => None
  end.
Proof.
  intros H. unfold JSON_parse.
  pose proof (skip_ws_length text) as F.
  destruct (parse_fuel_irrelevant (S (List.length text)) fuel) as (Hv & _).
  now rewrite Hv by lia.
Qed.

End JsonFacts.

(* ================================================================== *)
(** * Mood inference *)
(* ================================================================== *)

Module EmotionFacts.
Import Emotion.
Local Open Scope Z_scope.

(** ** The score of one pattern *)

Lemma fold_left_cond_add {A} (f : A -> bool) (w : Z) (l : list A) (acc : Z) :
  fold_left (fun s x => if f x then s + w else s) l acc
  = acc + w * count_true f l.
Proof.
  unfold count_true. revert acc.
  induction l as [|x l IH]; intros acc; simpl.
  - lia.
  - rewrite IH. destruct (f x); simpl List.length; lia.
Qed.

Lemma pattern_score_reference (p : EmotionPattern) (lowerText : jsstring) :
  pattern_score p lowerText = reference_score p lowerText.
Proof.
  unfold pattern_score, reference_score.
  rewrite (fold_left_cond_add (fun kw => keyword_test kw lowerText)).
  rewrite (fold_left_cond_add (includes lowerText)). lia.
Qed.

Lemma count_true_nonneg {A} (f : A -> bool) (l : list A) : 0 <= count_true f l.
Proof. unfold count_true; lia. Qed.

Lemma reference_score_nonneg (p : EmotionPattern) (lowerText : jsstring) :
  0 <= weight p -> 0 <= reference_score p lowerText.
Proof.
  intros Hw. unfold reference_score.
  pose proof (count_true_nonneg (includes lowerText) (phrases p)).
  pose proof (count_true_nonneg (fun kw => keyword_test kw lowerText)
                                (keywords p)).
  nia.
Qed.

(** ** Selection of the best candidate *)

Lemma fold_max_ge_init (l : list Z) (a : Z) : a <= fold_left Z.max l a.
Proof.
  revert a; induction l as [|x l IH]; intros a; simpl; [lia|].
  specialize (IH (Z.max a x)); lia.
Qed.

Lemma fold_max_ge_In (l : list Z) (a x : Z) :
  In x l -> x <= fold_left Z.max l a.
Proof.
  revert a; induction l as [|y l IH]; intros a; simpl; [easy|].
  intros [->|H].
  - pose proof (fold_max_ge_init l (Z.max a x)); lia.
  - now apply IH.
Qed.

Lemma fold_max_attained (l : list Z) (a : Z) :
  fold_left Z.max l a = a \/ In (fold_left Z.max l a) l.
Proof.
  revert a; induction l as [|y l IH]; intros a; simpl; [now left|].
  destruct (IH (Z.max a y)) as [H|H].
  - rewrite H. destruct (Z.max_spec a y) as [[_ ->]|[_ ->]]; auto.
  - auto.
Qed.

Lemma highest_score_bound (cs : list (BuddyMood * Z)) (top : Z) :
  highest_score cs = Some top ->
  (forall c, In c cs -> snd c <= top) /\ (exists c, In c cs /\ snd c = top).
Proof.
  destruct cs as [|d rest]; simpl; [easy|].
  intros [= <-]. split.
  - intros c [<-|H].
    + apply fold_max_ge_init.
    + apply fold_max_ge_In. now apply in_map.
  - destruct (fold_max_attained (map snd rest) (snd d)) as [H|H].
    + exists d. auto.
    + apply in_map_iff in H as (c & Hc & Hin). exists c. auto.
Qed.

Lemma highest_score_snoc (cs : list (BuddyMood * Z)) (c : BuddyMood * Z) :
  highest_score (cs ++ [c]) =
  match highest_score cs with
  | None => Some (snd c)
  | Some top => Some (Z.max top (snd c))
  end.
Proof.
  destruct cs as [|d rest]; simpl; [reflexivity|].
  now rewrite map_app, fold_left_app.
Qed.

Lemma find_none_app {A} (f : A -> bool) (l1 l2 : list A) :
  find f l1 = None -> find f (l1 ++ l2) = find f l2.
Proof.
  induction l1 as [|x l1 IH]; simpl; [reflexivity|].
  destruct (f x); [discriminate|exact IH].
Qed.

Lemma find_some_app {A} (f : A -> bool) (l1 l2 : list A) (x : A) :
  find f l1 = Some x -> find f (l1 ++ l2) = Some x.
Proof.
  induction l1 as [|y l1 IH]; simpl; [discriminate|].
  destruct (f y); [easy|exact IH].
Qed.

Lemma find_exists {A} (f : A -> bool) (l : list A) (x : A) :
  In x l -> f x = true -> exists y, find f l = Some y.
Proof.
  induction l as [|y l IH]; simpl; [easy|].
  intros [->|H] Hf.
  - rewrite Hf. eauto.
  - destruct (f y); eauto.
Qed.

Lemma reference_select_score (cs : list (BuddyMood * Z)) (b : BuddyMood * Z) :
  reference_select cs = Some b -> highest_score cs = Some (snd b).
Proof.
  unfold reference_select.
  destruct (highest_score cs) as [top|]; [|discriminate].
  intros H. apply find_some in H as [_ H]. apply Z.eqb_eq in H. now subst.
Qed.

Lemma reference_select_none (cs : list (BuddyMood * Z)) :
  reference_select cs = None -> cs = [].
Proof.
  unfold reference_select.
  destruct (highest_score cs) as [top|] eqn:E.
  - destruct (highest_score_bound _ _ E) as [_ (c & Hin & Hc)].
    destruct (find_exists (fun c => snd c =? top) cs c Hin) as [y Hy].
    + now apply Z.eqb_eq.
    + congruence.
  - destruct cs; [reflexivity|discriminate].
Qed.

(** Appending one candidate is one step of the loop of [detectEmotion]. *)
Lemma reference_select_snoc (cs : list (BuddyMood * Z)) (c : BuddyMood * Z) :
  reference_select (cs ++ [c]) =
  match reference_select cs with
  | None => Some c
  | Some b => if snd b <? snd c then Some c else Some b
  end.
Proof.
  destruct (reference_select cs) as [b|] eqn:E.
  - pose proof (reference_select_score _ _ E) as Htop.
    unfold reference_select in E |- *.
    rewrite highest_score_snoc, Htop. rewrite Htop in E.
    destruct (highest_score_bound _ _ Htop) as [Hle _].
    destruct (Z.ltb_spec (snd b) (snd c)) as [Hlt|Hge].
    + replace (Z.max (snd b) (snd c)) with (snd c) by lia.
      rewrite find_none_app; simpl.
      * now rewrite Z.eqb_refl.
      * destruct (find (fun c0 => snd c0 =? snd c) cs) as [y|] eqn:F;
          [|reflexivity].
        apply find_some in F as [Hin Hy]. apply Z.eqb_eq in Hy.
        specialize (Hle _ Hin). lia.
    + replace (Z.max (snd b) (snd c)) with (snd b) by lia.
      now apply find_some_app.
  - apply reference_select_none in E. subst cs. simpl.
    unfold reference_select; simpl. now rewrite Z.eqb_refl.
Qed.

Lemma reference_candidates_snoc (table : list EmotionPattern)
  (p : EmotionPattern) (lowerText : jsstring) :
  reference_candidates (table ++ [p]) lowerText =
  reference_candidates table lowerText ++
  (if reference_score p lowerText =? 0 then []
   else [(mood p, reference_score p lowerText)]).
Proof.
  unfold reference_candidates. rewrite map_app, filter_app. simpl.
  now destruct (reference_score p lowerText =? 0).
Qed.

Lemma fold_update_best_reference (table : list EmotionPattern)
  (lowerText : jsstring) :
  Forall (fun p => 0 <= weight p) table ->
  fold_left (update_best lowerText) table None
  = reference_select (reference_candidates table lowerText).
Proof.
  induction table as [|p table IH] using rev_ind; intros Hw.
  - reflexivity.
  - apply Forall_app in Hw as [Hw Hp]. inversion_clear Hp as [|? ? Hp' _].
    rewrite fold_left_app, reference_candidates_snoc. simpl.
    rewrite (IH Hw). unfold update_best.
    rewrite pattern_score_reference.
    pose proof (reference_score_nonneg p lowerText Hp') as Hs.
    destruct (Z.eqb_spec (reference_score p lowerText) 0) as [E0|E0].
    + rewrite app_nil_r, E0. reflexivity.
    + rewrite reference_select_snoc. simpl.
      destruct (Z.ltb_spec 0 (reference_score p lowerText)); [|lia].
      simpl. now destruct (reference_select _).
Qed.

Lemma detectEmotion_with_reference (table : list EmotionPattern)
  (text : jsstring) :
  Forall (fun p => 0 <= weight p) table ->
  detectEmotion_with table text = reference_detectEmotion table text.
Proof.
  intros Hw. unfold detectEmotion_with, reference_detectEmotion, best_match.
  now rewrite fold_update_best_reference.
Qed.

Lemma EMOTION_PATTERNS_weights :
  Forall (fun p => 0 <= weight p) EMOTION_PATTERNS.
Proof. repeat constructor; simpl; lia. Qed.

End EmotionFacts.

Module KeywordFacts.
Import Emotion.

Lemma last_unit_app (prev : option N) (a b : jsstring) :
  last_unit prev (a ++ b) = last_unit (last_unit prev a) b.
Proof. unfold last_unit. apply fold_left_app. Qed.

Lemma canonicalize_is_word (c : N) :
  is_word_char (canonicalize c) = is_word_char c.
Proof.
  unfold canonicalize.
  destruct ((97 <=? c) && (c <=? 122)) eqn:E; [|reflexivity].
  unfold is_word_char. rewrite E.
  apply andb_true_iff in E as [E1 E2]. apply N.leb_le in E1, E2.
  replace (65 <=? c - 32) with true by (symmetry; apply N.leb_le; lia).
  replace (c - 32 <=? 90) with true by (symmetry; apply N.leb_le; lia).
  simpl. now rewrite orb_true_r.
Qed.

Lemma canonicalize_word (a b : N) :
  canonicalize a = canonicalize b -> is_word_char a = is_word_char b.
Proof.
  intros H.
  now rewrite <- (canonicalize_is_word a), <- (canonicalize_is_word b), H.
Qed.

Lemma match_chars_spec (kw : jsstring) (prev : option N) (text : jsstring)
  (p : option N) (rest : jsstring) :
  match_chars kw prev text = Some (p, rest) <->
  exists mid, text = mid ++ rest /\ same_letters mid kw /\
              p = last_unit prev mid.
Proof.
  unfold same_letters. revert prev text.
  induction kw as [|k kw IH]; intros prev text; simpl.
  - split.
    + intros [= <- <-]. exists []. auto.
    + intros (mid & -> & Hm & ->). destruct mid; [reflexivity|discriminate].
  - destruct text as [|c text].
    + split; [discriminate|].
      intros (mid & Ht & Hm & _). destruct mid; discriminate.
    + destruct (N.eqb_spec (canonicalize c) (canonicalize k)) as [E|E].
      * rewrite IH. split.
        -- intros (mid & -> & Hm & ->). exists (c :: mid). simpl.
           now rewrite E, Hm.
        -- intros (mid & Ht & Hm & ->). destruct mid as [|m mid];
             [discriminate|].
           simpl in Ht, Hm. injection Ht as <- ->. injection Hm as _ Hm.
           exists mid. auto.
      * split; [discriminate|].
        intros (mid & Ht & Hm & _). destruct mid as [|m mid];
          [discriminate|].
        simpl in Ht, Hm. injection Ht as <- ->. injection Hm as Hc _.
        contradiction.
Qed.

Lemma regex_search_spec (kw : jsstring) (prev : option N) (text : jsstring) :
  regex_search kw prev text = true <->
  exists pre mid suf,
    text = pre ++ mid ++ suf /\ same_letters mid kw /\
    word_boundary (last_unit prev pre) (hd_error (mid ++ suf)) = true /\
    word_boundary (last_unit prev (pre ++ mid)) (hd_error suf) = true.
Proof.
  split.
  - revert prev. induction text as [|c text IH]; intros prev; simpl;
      rewrite orb_true_iff.
    + intros [H|H]; [|discriminate].
      unfold match_at in H. apply andb_true_iff in H as [Hb H].
      destruct (match_chars kw prev []) as [[p rest]|] eqn:E; [|discriminate].
      apply match_chars_spec in E as (mid & Ht & Hm & ->).
      exists [], mid, rest. simpl. rewrite <- Ht. auto.
    + intros [H|H].
      * unfold match_at in H. apply andb_true_iff in H as [Hb H].
        destruct (match_chars kw prev (c :: text)) as [[p rest]|] eqn:E;
          [|discriminate].
        apply match_chars_spec in E as (mid & Ht & Hm & ->).
        exists [], mid, rest. simpl. rewrite <- Ht. auto.
      * apply IH in H as (pre & mid & suf & -> & Hm & H1 & H2).
        exists (c :: pre), mid, suf. simpl. auto.
  - intros (pre & mid & suf & -> & Hm & H1 & H2). revert prev H1 H2.
    induction pre as [|c pre IH]; intros prev H1 H2.
    + simpl in *.
      assert (H : match_at kw prev (mid ++ suf) = true).
      { unfold match_at. rewrite H1. simpl.
        assert (E : match_chars kw prev (mid ++ suf)
                    = Some (last_unit prev mid, suf))
          by (apply match_chars_spec; exists mid; auto).
        now rewrite E. }
      destruct (mid ++ suf); simpl; rewrite H; reflexivity.
    + simpl. rewrite (IH (Some c)); auto using orb_true_r.
Qed.

Lemma same_letters_hd (mid kw : jsstring) :
  same_letters mid kw ->
  is_word_at (hd_error mid) = is_word_at (hd_error kw).
Proof.
  unfold same_letters.
  destruct mid, kw; simpl; try easy. intros [= H _].
  now apply canonicalize_word.
Qed.

Lemma same_letters_last (mid kw : jsstring) (p q : option N) :
  same_letters mid kw -> is_word_at p = is_word_at q ->
  is_word_at (last_unit p mid) = is_word_at (last_unit q kw).
Proof.
  unfold same_letters, last_unit. revert kw p q.
  induction mid as [|m mid IH]; intros [|k kw] p q; simpl; try easy.
  intros [= H Hm] _. apply IH; [exact Hm|]. simpl.
  now apply canonicalize_word.
Qed.

Lemma last_unit_nonempty (p q : option N) (l : jsstring) :
  l <> [] -> last_unit p l = last_unit q l.
Proof.
  destruct l as [|c l]; [easy|]. reflexivity.
Qed.

(** For a keyword that starts and ends with a word character the regular
    expression finds exactly the whole-word occurrences. *)
Lemma keyword_test_whole_word (kw text : jsstring) :
  word_delimited kw ->
  (keyword_test kw text = true <-> whole_word_occurrence kw text).
Proof.
  intros [Hhd Hlast]. unfold keyword_test, whole_word_occurrence.
  rewrite regex_search_spec.
  assert (Hne : kw <> []) by (destruct kw; [discriminate|easy]).
  split; intros (pre & mid & suf & Ht & Hm & H1 & H2);
    exists pre, mid, suf; (split; [exact Ht|]); (split; [exact Hm|]).
  - assert (Hmne : mid <> []).
    { intros ->. unfold same_letters in Hm. destruct kw; [easy|discriminate]. }
    assert (Hh : is_word_at (hd_error (mid ++ suf)) = true).
    { destruct mid as [|m mid]; [easy|]. simpl.
      rewrite <- Hhd. now apply (same_letters_hd (m :: mid)). }
    assert (Hl : is_word_at (last_unit None (pre ++ mid)) = true).
    { rewrite last_unit_app, (last_unit_nonempty _ None mid Hmne), <- Hlast.
      now apply same_letters_last. }
    unfold word_boundary in H1, H2. rewrite Hh in H1. rewrite Hl in H2.
    split.
    + now destruct (is_word_at (last_unit None pre)).
    + now destruct (is_word_at (hd_error suf)).
  - assert (Hmne : mid <> []).
    { intros ->. unfold same_letters in Hm. destruct kw; [easy|discriminate]. }
    assert (Hh : is_word_at (hd_error (mid ++ suf)) = true).
    { destruct mid as [|m mid]; [easy|]. simpl.
      rewrite <- Hhd. now apply (same_letters_hd (m :: mid)). }
    assert (Hl : is_word_at (last_unit None (pre ++ mid)) = true).
    { rewrite last_unit_app, (last_unit_nonempty _ None mid Hmne), <- Hlast.
      now apply same_letters_last. }
    unfold word_boundary. rewrite Hh, Hl, H1, H2. auto.
Qed.

End KeywordFacts.

Module EmotionClaims.
Import Emotion EmotionFacts KeywordFacts.
Local Open Scope Z_scope.

Lemma BuddyMood_eqb_eq (a b : BuddyMood) : BuddyMood_eqb a b = true <-> a = b.
Proof. destruct a, b; simpl; split; congruence. Qed.

Lemma EMOTION_PATTERNS_word_delimited :
  Forall (fun p => Forall word_delimited (keywords p)) EMOTION_PATTERNS.
Proof. repeat constructor. Qed.

(** C2.  [detectEmotion] is the reference definition of the specification:
    lower-case the text, score each pattern (twice the weight for every
    phrase that is a substring, once the weight for every keyword that
    matches as a whole word, case-insensitively), drop the patterns with
    score zero and return the mood of the highest-scoring candidate, the
    earlier table entry winning ties, or nothing when there is no
    candidate.  A keyword matches exactly where it occurs with no word
    character on either side, which holds for every keyword of the table;
    a keyword inside a longer word (scar in scary, sad in sadly) adds
    nothing. *)
Theorem detectEmotion_matches_reference :
  (forall text,
     detectEmotion text = reference_detectEmotion EMOTION_PATTERNS text) /\
  (forall kw text,
     word_delimited kw ->
     (keyword_test kw text = true <-> whole_word_occurrence kw text)) /\
  Forall (fun p => Forall word_delimited (keywords p)) EMOTION_PATTERNS /\
  (forall m w,
     pattern_score {| mood := m; keywords := [lit "scar"]; phrases := [];
                      weight := w |} (toLowerCase (lit "scary")) = 0) /\
  detectEmotion (lit "sadly") = None.
Proof.
  split; [|split; [|split; [|split]]].
  - intros text. apply detectEmotion_with_reference.
    exact EMOTION_PATTERNS_weights.
  - exact keyword_test_whole_word.
  - exact EMOTION_PATTERNS_word_delimited.
  - intros m w. reflexivity.
  - reflexivity.
Qed.

Lemma detectEmotion_matches_reference_witness :
  word_delimited (lit "sad") /\
  (keyword_test (lit "sad") (lit "so SAD!") = true <->
   whole_word_occurrence (lit "sad") (lit "so SAD!")).
Proof.
  split.
  - split; reflexivity.
  - apply (proj1 (proj2 detectEmotion_matches_reference)).
    split; reflexivity.
Defined.

(** C3.  Below 50 code units of accumulated text the streaming inference
    returns the current mood unchanged, for every pattern table.  From 50
    code units on it returns the detected mood when there is one and it is
    not [thinking], and the current mood otherwise. *)
Theorem analyzeStreamingEmotion_policy (text : jsstring) (m : BuddyMood) :
  ((List.length text < 50)%nat ->
   analyzeStreamingEmotion text m = m /\
   forall table, analyzeStreamingEmotion_with table text m = m) /\
  ((50 <= List.length text)%nat ->
   (forall d, detectEmotion text = Some d -> d <> thinking ->
              analyzeStreamingEmotion text m = d) /\
   (detectEmotion text = None \/ detectEmotion text = Some thinking ->
    analyzeStreamingEmotion text m = m)).
Proof.
  unfold analyzeStreamingEmotion, analyzeStreamingEmotion_with, detectEmotion.
  split; intros Hlen.
  - split; [|intros table];
      (destruct (Z.ltb_spec (Z.of_nat (List.length text)) 50);
       [reflexivity|lia]).
  - destruct (Z.ltb_spec (Z.of_nat (List.length text)) 50); [lia|].
    split.
    + intros d -> Hd.
      destruct (BuddyMood_eqb d thinking) eqn:E; [|reflexivity].
      apply BuddyMood_eqb_eq in E. contradiction.
    + intros [->| ->]; reflexivity.
Qed.

Lemma analyzeStreamingEmotion_policy_witness :
  analyzeStreamingEmotion (lit "Wow, amazing!") talking = talking /\
  analyzeStreamingEmotion long_wow talking = excited /\
  analyzeStreamingEmotion long_think talking = talking.
Proof.
  split; [|split].
  - apply (proj1 (analyzeStreamingEmotion_policy (lit "Wow, amazing!")
                    talking)).
    vm_compute. lia.
  - apply (proj2 (analyzeStreamingEmotion_policy long_wow talking)).
    + vm_compute. lia.
    + reflexivity.
    + discriminate.
  - apply (proj2 (analyzeStreamingEmotion_policy long_think talking)).
    + vm_compute. lia.
    + right. reflexivity.
Defined.

(** C4, as stated: the text "that must be hard" would be scored 6.  It is
    scored 9. *)
Lemma phrase_score_is_not_6 :
  best_match EMOTION_PATTERNS (lit "that must be hard") <> Some (sad, 6).
Proof. vm_compute. discriminate. Qed.

(** C4, amended.  For the text "that must be hard" the selected mood is
    [sad] with score 9: twice the weight 3 for the phrase and once the
    weight for the keyword hard, which the phrase contains as a whole word.
    A pattern of weight at most 3 in which a single keyword and no phrase
    matches scores less. *)
Theorem phrase_outweighs_keyword :
  detectEmotion (lit "that must be hard") = Some sad /\
  best_match EMOTION_PATTERNS (lit "that must be hard") = Some (sad, 9) /\
  includes (lit "that must be hard") (lit "that must be hard") = true /\
  keyword_test (lit "hard") (lit "that must be hard") = true /\
  (forall p lowerText,
     weight p <= 3 ->
     count_true (includes lowerText) (phrases p) = 0 ->
     count_true (fun kw => keyword_test kw lowerText) (keywords p) = 1 ->
     pattern_score p lowerText < 9).
Proof.
  split; [reflexivity|]. split; [reflexivity|].
  split; [reflexivity|]. split; [reflexivity|].
  intros p lowerText Hw Hp Hk.
  rewrite pattern_score_reference. unfold reference_score.
  rewrite Hp, Hk. lia.
Qed.

Lemma phrase_outweighs_keyword_witness :
  weight excited_pattern <= 3 /\
  pattern_score excited_pattern (lit "wow") < 9.
Proof.
  split.
  - vm_compute. discriminate.
  - apply (proj2 (proj2 (proj2 (proj2 phrase_outweighs_keyword)))).
    + vm_compute. discriminate.
    + reflexivity.
    + reflexivity.
Defined.

(** ** Multiplicity *)

Lemma regex_search_count (kw : jsstring) (prev : option N) (text : jsstring) :
  regex_search kw prev text = (0 <? regex_count kw prev text)%nat.
Proof.
  revert prev. induction text as [|c text IH]; intros prev; simpl.
  - now destruct (match_at kw prev []).
  - rewrite IH. now destruct (match_at kw prev (c :: text)).
Qed.

Lemma weight_count_contribution {A} (w : Z) (f : A -> bool) (g : A -> nat)
  (l : list A) :
  (forall x, f x = (0 <? g x)%nat) ->
  w * count_true f l = sum_Z (map (fun x => contribution w (g x)) l).
Proof.
  intros Hfg. unfold count_true, contribution.
  induction l as [|x l IH]; simpl.
  - lia.
  - rewrite <- IH, <- Hfg. destruct (f x); simpl List.length; lia.
Qed.

Lemma pattern_score_contributions (p : EmotionPattern) (lowerText : jsstring) :
  pattern_score p lowerText =
  sum_Z (map (fun phrase =>
                contribution (weight p * 2) (occurrences lowerText phrase))
             (phrases p)) +
  sum_Z (map (fun kw =>
                contribution (weight p) (keyword_occurrences kw lowerText))
             (keywords p)).
Proof.
  rewrite pattern_score_reference. unfold reference_score.
  rewrite (weight_count_contribution (weight p * 2) (includes lowerText)
             (occurrences lowerText)) by apply includes_occurrences.
  rewrite Z.mul_1_r.
  rewrite (weight_count_contribution (weight p)
             (fun kw => keyword_test kw lowerText)
             (fun kw => keyword_occurrences kw lowerText)).
  - reflexivity.
  - intros kw. apply regex_search_count.
Qed.

Lemma sum_contribution_ext {A} (w : Z) (g1 g2 : A -> nat) (l : list A) :
  forallb (fun x => Bool.eqb (0 <? g1 x)%nat (0 <? g2 x)%nat) l = true ->
  sum_Z (map (fun x => contribution w (g1 x)) l) =
  sum_Z (map (fun x => contribution w (g2 x)) l).
Proof.
  induction l as [|x l IH]; simpl; [reflexivity|].
  rewrite andb_true_iff. intros [Hx Hl].
  apply Bool.eqb_prop in Hx. unfold contribution at 1 3.
  now rewrite Hx, (IH Hl).
Qed.

Lemma fold_update_best_ext (table : list EmotionPattern) (l1 l2 : jsstring)
  (best : option (BuddyMood * Z)) :
  Forall (fun p => pattern_score p l1 = pattern_score p l2) table ->
  fold_left (update_best l1) table best = fold_left (update_best l2) table best.
Proof.
  intros H. revert best. induction H as [|p table Hp _ IH]; intros best; simpl.
  - reflexivity.
  - unfold update_best at 2 4. rewrite Hp. apply IH.
Qed.

(** C9.  Every phrase and every keyword of a pattern adds a fixed amount
    to the pattern's score when it occurs at least once and nothing
    otherwise; the number of occurrences is not scored.  Two lower-cased
    texts in which the same phrases and keywords occur therefore get the
    same scores and the same selected mood, whatever the number of
    occurrences; one wow and three wows score the same. *)
Theorem score_ignores_multiplicity :
  (forall p lowerText,
     pattern_score p lowerText =
     sum_Z (map (fun phrase =>
                   contribution (weight p * 2)
                                (occurrences lowerText phrase))
                (phrases p)) +
     sum_Z (map (fun kw =>
                   contribution (weight p)
                                (keyword_occurrences kw lowerText))
                (keywords p))) /\
  (forall table text1 text2,
     same_presence table (toLowerCase text1) (toLowerCase text2) = true ->
     best_match table text1 = best_match table text2 /\
     detectEmotion_with table text1 = detectEmotion_with table text2) /\
  (keyword_occurrences (lit "wow") (lit "wow") = 1%nat /\
   keyword_occurrences (lit "wow") (lit "wow wow wow") = 3%nat /\
   best_match EMOTION_PATTERNS (lit "wow") = Some (excited, 3) /\
   best_match EMOTION_PATTERNS (lit "wow wow wow") = Some (excited, 3)).
Proof.
  split; [exact pattern_score_contributions|]. split.
  - intros table text1 text2 H.
    assert (E : best_match table text1 = best_match table text2).
    { unfold best_match. apply fold_update_best_ext.
      apply Forall_forall. intros p Hp.
      unfold same_presence in H. rewrite forallb_forall in H.
      specialize (H p Hp). apply andb_true_iff in H as [H1 H2].
      rewrite !pattern_score_contributions.
      f_equal; now apply sum_contribution_ext. }
    split; [exact E|]. unfold detectEmotion_with. now rewrite E.
  - repeat split; reflexivity.
Qed.

Lemma score_ignores_multiplicity_witness :
  same_presence EMOTION_PATTERNS (toLowerCase (lit "so sad, so sad, WOW"))
                (toLowerCase (lit "Wow. Sad!")) = true /\
  detectEmotion (lit "so sad, so sad, WOW") = detectEmotion (lit "Wow. Sad!").
Proof.
  split.
  - reflexivity.
  - apply (proj1 (proj2 score_ignores_multiplicity)). reflexivity.
Defined.

End EmotionClaims.

(* ================================================================== *)
(** * The stream decoder *)
(* ================================================================== *)

Module StreamFacts.
Import Json Stream.

(** ** Lines *)

Lemma split_lines_nonempty (s : jsstring) : split_lines s <> [].
Proof.
  destruct s as [|c s]; simpl; [discriminate|].
  destruct (c =? 10); [discriminate|].
  destruct (split_lines s); discriminate.
Qed.

Lemma split_lines_no_newline (s : jsstring) :
  no_newline s -> split_lines s = [s].
Proof.
  unfold no_newline. induction s as [|c s IH]; simpl; intros H.
  - reflexivity.
  - destruct (N.eqb_spec c 10) as [->|_]; [exfalso; auto|].
    rewrite IH; auto.
Qed.

Lemma split_lines_cons_line (line rest : jsstring) :
  no_newline line ->
  split_lines (line ++ 10 :: rest) = line :: split_lines rest.
Proof.
  unfold no_newline. induction line as [|c line IH]; simpl; intros H.
  - reflexivity.
  - destruct (N.eqb_spec c 10) as [->|_]; [exfalso; auto|].
    rewrite IH; auto.
Qed.

Lemma removelast_cons {A} (x : A) (l : list A) :
  l <> [] -> removelast (x :: l) = x :: removelast l.
Proof. destruct l; [easy|reflexivity]. Qed.

Lemma last_cons {A} (x d : A) (l : list A) :
  l <> [] -> last (x :: l) d = last l d.
Proof. destruct l; [easy|reflexivity]. Qed.

(** Splitting a text that grows: the complete lines stay, the unfinished
    line is continued. *)
Lemma split_lines_app (a b : jsstring) :
  split_lines (a ++ b) =
  removelast (split_lines a) ++ split_lines (last (split_lines a) [] ++ b).
Proof.
  induction a as [|c a IH]; simpl.
  - reflexivity.
  - destruct (c =? 10) eqn:Ec.
    + rewrite removelast_cons, last_cons by apply split_lines_nonempty.
      simpl. now rewrite IH.
    + rewrite IH.
      pose proof (split_lines_nonempty a) as Ha.
      destruct (split_lines a) as [|l ls] eqn:E; [easy|].
      destruct ls as [|l' ls].
      * simpl. rewrite Ec.
        pose proof (split_lines_nonempty (l ++ b)) as Hb.
        destruct (split_lines (l ++ b)); [easy|reflexivity].
      * rewrite removelast_cons by discriminate.
        rewrite (removelast_cons (c :: l)) by discriminate.
        rewrite (last_cons l), (last_cons (c :: l)) by discriminate.
        reflexivity.
Qed.

Lemma last_split_lines_no_newline (s : jsstring) :
  no_newline (last (split_lines s) []).
Proof.
  unfold no_newline. induction s as [|c s IH]; simpl.
  - easy.
  - destruct (N.eqb_spec c 10) as [->|Hc].
    + rewrite last_cons by apply split_lines_nonempty. exact IH.
    + pose proof (split_lines_nonempty s) as Hs.
      destruct (split_lines s) as [|l ls]; [easy|].
      destruct ls as [|l' ls].
      * simpl in *. intros [H|H]; auto.
      * rewrite last_cons by discriminate.
        rewrite last_cons in IH by discriminate. exact IH.
Qed.

Lemma complete_lines_app (a b : jsstring) :
  complete_lines (a ++ b) =
  complete_lines a ++ complete_lines (last (split_lines a) [] ++ b).
Proof.
  unfold complete_lines. rewrite split_lines_app.
  apply removelast_app, split_lines_nonempty.
Qed.

Lemma complete_lines_no_newline (s : jsstring) :
  no_newline s -> complete_lines s = [].
Proof.
  intros H. unfold complete_lines. now rewrite split_lines_no_newline.
Qed.

Lemma complete_lines_cons_line (line rest : jsstring) :
  no_newline line ->
  complete_lines (line ++ 10 :: rest) = line :: complete_lines rest.
Proof.
  intros H. unfold complete_lines. rewrite split_lines_cons_line by exact H.
  apply removelast_cons, split_lines_nonempty.
Qed.

Lemma complete_lines_lines_text (lines : list jsstring) (rest : jsstring) :
  Forall no_newline lines ->
  complete_lines (lines_text lines ++ rest) = lines ++ complete_lines rest.
Proof.
  unfold lines_text. induction 1 as [|line lines Hl _ IH]; simpl.
  - reflexivity.
  - rewrite <- !app_assoc. simpl.
    rewrite complete_lines_cons_line by exact Hl. now rewrite IH.
Qed.

(** ** The loop over the lines *)

Lemma for_lines_app (a b : list jsstring) :
  for_lines (a ++ b) =
  if snd (for_lines a) then (fst (for_lines a), true)
  else (fst (for_lines a) ++ fst (for_lines b), snd (for_lines b)).
Proof.
  induction a as [|line a IH]; simpl.
  - now destruct (for_lines b).
  - destruct (process_line line); simpl.
    + exact IH.
    + rewrite IH. destruct (for_lines a) as [fs r]; simpl.
      now destruct r.
    + reflexivity.
Qed.

(** ** The text decoder *)

Lemma decode_app (d : Utf8.decoder) (a b : list N) :
  Utf8.decode d (a ++ b) =
  (fst (Utf8.decode d a) ++ fst (Utf8.decode (snd (Utf8.decode d a)) b),
   snd (Utf8.decode (snd (Utf8.decode d a)) b)).
Proof.
  revert d. induction a as [|x a IH]; intros d; simpl.
  - now destruct (Utf8.decode d b).
  - destruct (Utf8.step d x) as [out d1]. rewrite IH.
    destruct (Utf8.decode d1 a) as [ta da]; simpl.
    destruct (Utf8.decode da b) as [tb db]; simpl.
    now rewrite app_assoc.
Qed.

(** ** The loop over the reads *)

(** The fragments and the outcome of the loop are those of the complete
    lines of the whole text, whatever the chunks are. *)
Lemma read_loop_lines (remaining : list (list N)) (d : Utf8.decoder)
  (buffer : jsstring) (e : source_end) :
  no_newline buffer ->
  let text := buffer ++ fst (Utf8.decode d (List.concat remaining)) in
  let r := read_loop d buffer remaining e in
  fragments r = fst (for_lines (complete_lines text)) /\
  result r = if snd (for_lines (complete_lines text)) then Returned
             else end_outcome e.
Proof.
  revert d buffer. induction remaining as [|value remaining IH];
    intros d buffer Hb; simpl.
  - rewrite app_nil_r, complete_lines_no_newline by exact Hb. simpl.
    now destruct e.
  - rewrite decode_app. simpl.
    destruct (Utf8.decode d value) as [text d'] eqn:Ed. simpl.
    rewrite app_assoc, complete_lines_app, for_lines_app.
    fold (complete_lines (buffer ++ text)).
    destruct (for_lines (complete_lines (buffer ++ text))) as [fs returned].
    simpl. destruct returned; simpl.
    + auto.
    + destruct (IH d' (last (split_lines (buffer ++ text)) [])
                  (last_split_lines_no_newline _)) as [Hf Hr].
      now rewrite Hf, Hr.
Qed.

(** Once the complete lines read so far hold the sentinel, the generator
    has returned: later chunks are not read. *)
Lemma read_loop_returned (before after : list (list N)) (d : Utf8.decoder)
  (buffer : jsstring) (e : source_end) :
  no_newline buffer ->
  let text := buffer ++ fst (Utf8.decode d (List.concat before)) in
  snd (for_lines (complete_lines text)) = true ->
  let r := read_loop d buffer (before ++ after) e in
  fragments r = fst (for_lines (complete_lines text)) /\
  result r = Returned /\
  (reads r <= List.length before)%nat.
Proof.
  revert d buffer. induction before as [|value before IH];
    intros d buffer Hb; simpl.
  - rewrite app_nil_r, complete_lines_no_newline by exact Hb. discriminate.
  - rewrite decode_app. simpl.
    destruct (Utf8.decode d value) as [text d'] eqn:Ed. simpl.
    rewrite app_assoc, complete_lines_app, for_lines_app.
    fold (complete_lines (buffer ++ text)).
    destruct (for_lines (complete_lines (buffer ++ text))) as [fs returned].
    simpl. destruct returned; simpl.
    + intros _. repeat split. lia.
    + intros Hs.
      destruct (IH d' (last (split_lines (buffer ++ text)) [])
                  (last_split_lines_no_newline _) Hs) as (Hf & Hr & Hn).
      rewrite Hf, Hr. repeat split. lia.
Qed.

End StreamFacts.

Module StreamClaims.
Import Json Stream StreamFacts.

Lemma no_newline_check (s : jsstring) :
  forallb (fun c => negb (c =? 10)) s = true -> no_newline s.
Proof.
  unfold no_newline. rewrite forallb_forall. intros H Hin.
  specialize (H _ Hin). discriminate.
Qed.

Lemma streamChat_lines (chunks : list (list N)) (e : source_end) :
  let r := streamChat (ok_response {| chunks := chunks; ending := e |}) in
  fragments r = fst (for_lines (complete_lines (decoded_text chunks))) /\
  result r = if snd (for_lines (complete_lines (decoded_text chunks)))
             then Returned else end_outcome e.
Proof.
  simpl. apply (read_loop_lines chunks Utf8.fresh [] e). easy.
Qed.

(** C1.  The fragments and the outcome of the stream decoder depend on
    the bytes of the body only, not on how they are cut into chunks.  The
    event line of the specification, cut in two at any offset, yields the
    single fragment Hi, as it does in one chunk. *)
Theorem chunk_split_invariance :
  (forall chunks e,
     let split := streamChat (ok_response {| chunks := chunks;
                                             ending := e |}) in
     let whole := streamChat (ok_response {| chunks := [List.concat chunks];
                                             ending := e |}) in
     fragments split = fragments whole /\ result split = result whole) /\
  (forall k,
     let r := streamChat (ok_response
                {| chunks := [firstn k hi_line; skipn k hi_line];
                   ending := EndOfBody |}) in
     fragments r = [JString (lit "Hi")] /\ result r = Returned) /\
  streamChat (ok_response {| chunks := [hi_line]; ending := EndOfBody |})
  = {| fragments := [JString (lit "Hi")]; result := Returned; reads := 2 |}.
Proof.
  assert (H : forall chunks e,
     let split := streamChat (ok_response {| chunks := chunks;
                                             ending := e |}) in
     let whole := streamChat (ok_response {| chunks := [List.concat chunks];
                                             ending := e |}) in
     fragments split = fragments whole /\ result split = result whole).
  { intros chunks e split whole.
    destruct (streamChat_lines chunks e) as [Hf Hr].
    destruct (streamChat_lines [List.concat chunks] e) as [Hf' Hr'].
    subst split whole. rewrite Hf, Hr, Hf', Hr'.
    unfold decoded_text. simpl. rewrite app_nil_r. auto. }
  split; [exact H|]. split.
  - intros k r.
    destruct (H [firstn k hi_line; skipn k hi_line] EndOfBody) as [Hf Hr].
    subst r. rewrite Hf, Hr. simpl List.concat.
    rewrite app_nil_r, firstn_skipn. split; reflexivity.
  - reflexivity.
Qed.

Lemma done_line_no_newline : no_newline done_line.
Proof. apply no_newline_check. reflexivity. Qed.

(** ** Content events *)

Lemma parse_string_body_plain (text acc rest : jsstring) :
  forallb plain_unit text = true ->
  parse_string_body (text ++ 34 :: rest) acc = Some (rev acc ++ text, rest).
Proof.
  revert acc. induction text as [|u text IH]; intros acc; simpl.
  - now rewrite app_nil_r.
  - unfold plain_unit at 1. rewrite !andb_true_iff, !negb_true_iff.
    intros [[[H1 H2] H3] H4]. rewrite H1, H2, H3, (IH _ H4). simpl.
    now rewrite <- app_assoc.
Qed.

Lemma skip_ws_value (c : N) (s : jsstring) :
  is_ws c = false -> skip_ws (c :: s) = c :: s.
Proof. intros H. simpl. now rewrite H. Qed.

(** A string value. *)
Lemma parse_value_string (fuel : nat) (text rest : jsstring) :
  forallb plain_unit text = true ->
  parse_value (S fuel) (34 :: text ++ 34 :: rest)
  = Some (JString text, rest).
Proof.
  intros H. simpl. now rewrite (parse_string_body_plain text [] rest H).
Qed.

(** An object with one member, written without white space. *)
Lemma parse_value_object1 (fuel : nat) (key vs rest : jsstring) (v : json) :
  forallb plain_unit key = true ->
  skip_ws vs = vs ->
  parse_value fuel vs = Some (v, 125 :: rest) ->
  parse_value (S (S fuel)) (123 :: 34 :: key ++ 34 :: 58 :: vs)
  = Some (JObject [(key, v)], rest).
Proof.
  intros Hk Hws Hv. simpl.
  rewrite (parse_string_body_plain key [] _ Hk). simpl.
  now rewrite Hws, Hv.
Qed.

(** An array with one element, written without white space. *)
Lemma parse_value_array1 (fuel : nat) (c : N) (vs rest : jsstring)
  (v : json) :
  is_ws c = false -> (c =? 93) = false ->
  parse_value fuel (c :: vs) = Some (v, 93 :: rest) ->
  parse_value (S fuel) (91 :: c :: vs) = Some (JArray [v], rest).
Proof.
  intros Hws Hc Hv.
  destruct fuel as [|fuel]; [discriminate|].
  remember (S fuel) as f eqn:Ef. simpl. rewrite Hws, Hc, Hv.
  subst f. reflexivity.
Qed.

Lemma JSON_parse_content_payload (text : jsstring) :
  forallb plain_unit text = true ->
  JSON_parse (content_payload text) = Some (content_chunk text).
Proof.
  intros Hplain. unfold JSON_parse, content_payload.
  let p := eval vm_compute in (quoted "{'choices':[{'delta':{'content':'") in
  change (quoted "{'choices':[{'delta':{'content':'") with p.
  let p := eval vm_compute in (quoted "'}}]}") in
  change (quoted "'}}]}") with p.
  cbn [List.length app].
  rewrite skip_ws_value by reflexivity.
  match goal with
  | |- match ?p with _ => _ end = _ =>
      assert (E : p = Some (content_chunk text, []))
  end.
  { apply (parse_value_object1 _ (lit "choices")); try reflexivity.
    apply (parse_value_array1 _ 123); try reflexivity.
    apply (parse_value_object1 _ (lit "delta")); try reflexivity.
    apply (parse_value_object1 _ (lit "content")); try reflexivity.
    apply (parse_value_string _ text); exact Hplain. }
  now rewrite E.
Qed.

(** A line [data: {"choices":[{"delta":{"content":"text"}}]}] with a
    plain, non-empty text is a content event that yields the text. *)
Lemma content_line_event (text : jsstring) :
  text <> [] -> forallb plain_unit text = true ->
  content_event (content_line text) (JString text).
Proof.
  intros Hne Hplain. split.
  - unfold no_newline, content_line, content_payload. rewrite !in_app_iff.
    intros [H|[H|[H|H]]].
    + revert H. apply no_newline_check. reflexivity.
    + revert H. apply no_newline_check. reflexivity.
    + rewrite forallb_forall in Hplain. specialize (Hplain _ H).
      discriminate.
    + revert H. apply no_newline_check. reflexivity.
  - unfold process_line, content_line.
    change (startsWith (lit "data: " ++ ?x) (lit "data: ")) with true.
    change (skipn 6 (lit "data: " ++ content_payload text))
      with (content_payload text).
    rewrite JSON_parse_content_payload by exact Hplain.
    cbn -[content_payload].
    destruct text as [|u text]; [contradiction|]. reflexivity.
Qed.

Lemma for_lines_no_sentinel (lines : list jsstring) :
  Forall (fun line => no_newline line /\ process_line line <> Done) lines ->
  for_lines lines = (flat_map line_fragments lines, false).
Proof.
  induction 1 as [|line lines [_ Hd] _ IH]; simpl.
  - reflexivity.
  - unfold line_fragments. rewrite IH.
    now destruct (process_line line).
Qed.

Lemma content_events_fragments (events : list (jsstring * json)) :
  Forall (fun ev => content_event (fst ev) (snd ev)) events ->
  flat_map line_fragments (map fst events) = map snd events.
Proof.
  induction 1 as [|[line c] events [_ Hy] _ IH]; simpl.
  - reflexivity.
  - simpl in Hy. unfold line_fragments at 1. now rewrite Hy, IH.
Qed.

(** C7.  When the text read so far consists of lines without a sentinel,
    the sentinel line and anything after it, the generator has yielded
    one fragment for every content event among those lines, in order,
    and returned without an error; N content events give exactly their N
    contents.  What follows the sentinel in the chunks read, the chunks
    not yet read and the way the body would end play no part, and no
    chunk after those is read. *)
Theorem sentinel_terminates (lines : list jsstring)
  (before after : list (list N)) (rest : jsstring) (e : source_end) :
  Forall (fun line => no_newline line /\ process_line line <> Done) lines ->
  decoded_text before = lines_text lines ++ done_line ++ [10] ++ rest ->
  let r := streamChat (ok_response {| chunks := before ++ after;
                                      ending := e |}) in
  fragments r = flat_map line_fragments lines /\
  result r = Returned /\
  (reads r <= List.length before)%nat /\
  (forall events,
     lines = map fst events ->
     Forall (fun ev => content_event (fst ev) (snd ev)) events ->
     fragments r = map snd events /\
     List.length (fragments r) = List.length events).
Proof.
  intros Hlines Htext. simpl.
  assert (Hfor : for_lines (complete_lines (decoded_text before))
                 = (flat_map line_fragments lines, true)).
  { rewrite Htext, complete_lines_lines_text.
    - change (done_line ++ [10] ++ rest) with (done_line ++ 10 :: rest).
      rewrite complete_lines_cons_line by apply done_line_no_newline.
      rewrite for_lines_app, for_lines_no_sentinel by exact Hlines.
      cbn [fst snd for_lines].
      replace (process_line done_line) with Done by reflexivity.
      now rewrite app_nil_r.
    - eapply Forall_impl; [|exact Hlines]. now intros line [Hn _]. }
  pose proof (read_loop_returned before after Utf8.fresh [] e) as H.
  simpl in H. fold (decoded_text before) in H. rewrite Hfor in H.
  destruct H as (Hf & Hr & Hn); [easy|reflexivity|].
  repeat split; try assumption.
  - rewrite Hf. subst lines. now apply content_events_fragments.
  - rewrite Hf. subst lines. rewrite content_events_fragments by assumption.
    apply length_map.
Qed.

Lemma sentinel_terminates_witness :
  let r := streamChat (ok_response
             {| chunks := sample_before ++ sample_after;
                ending := ReadFails {| name := lit "NetworkError";
                                       message := lit "connection lost" |} |})
  in
  fragments r = [JString (lit "Hi"); JString (lit " there")] /\
  result r = Returned /\
  (reads r <= 2)%nat.
Proof.
  destruct (sentinel_terminates sample_lines sample_before sample_after
              ([10] ++ hi_event ++ [10])
              (ReadFails {| name := lit "NetworkError";
                            message := lit "connection lost" |}))
    as (Hf & Hr & Hn & _).
  - repeat constructor;
      try (apply no_newline_check; reflexivity);
      intros H; vm_compute in H; discriminate.
  - reflexivity.
  - split; [exact Hf|]. split; [exact Hr|exact Hn].
Defined.

(** C10.  When the body ends before a sentinel line was seen, the
    generator returns without an error, and the fragments are those of
    the lines that a newline ended: the text after the last newline is
    never processed, even when it is a complete content event. *)
Theorem exhausted_source_completes :
  (forall chunks,
     result (streamChat (ok_response {| chunks := chunks;
                                        ending := EndOfBody |}))
     = Returned) /\
  (forall chunks lines partial e,
     Forall no_newline lines -> no_newline partial ->
     decoded_text chunks = lines_text lines ++ partial ->
     fragments (streamChat (ok_response {| chunks := chunks; ending := e |}))
     = fst (for_lines lines)) /\
  (process_line hi_event = Yield (JString (lit "Hi")) /\
   streamChat (ok_response {| chunks := [hi_event]; ending := EndOfBody |})
   = {| fragments := []; result := Returned; reads := 2 |}).
Proof.
  split; [|split].
  - intros chunks.
    destruct (streamChat_lines chunks EndOfBody) as [_ Hr]. rewrite Hr.
    now destruct (snd _).
  - intros chunks lines partial e Hl Hp Htext.
    destruct (streamChat_lines chunks e) as [Hf _]. rewrite Hf, Htext.
    rewrite complete_lines_lines_text by exact Hl.
    rewrite complete_lines_no_newline by exact Hp.
    now rewrite app_nil_r.
  - split; reflexivity.
Qed.

Lemma exhausted_source_completes_witness :
  fragments (streamChat (ok_response
               {| chunks := [hi_line; there_event]; ending := EndOfBody |}))
  = [JString (lit "Hi")].
Proof.
  apply (proj1 (proj2 exhausted_source_completes)
           [hi_line; there_event] [hi_event] there_event EndOfBody).
  - repeat constructor. apply no_newline_check. reflexivity.
  - apply no_newline_check. reflexivity.
  - reflexivity.
Defined.

(** ** Errors before the stream *)

(** A failed response carries the message of the server when the body
    has one that counts as true, and the status otherwise, as long as the
    body is not the JSON value null; the error is made by [new Error],
    which converts the message to a string. *)
Lemma failed_response_message (response : Response) :
  ok response = false ->
  json_result response <> Some JNull ->
  let error := match json_result response with
               | Some v => v
               | None => JObject []
               end in
  let reported :=
    match get_property error (lit "error") with
    | Some inner => get_property inner (lit "message")
    | None => None
    end in
  streamChat (FetchResolves response)
  = threw (new_error
             match reported with
             | Some v => if truthy reported then v
                         else generic_message (status response)
             | None => generic_message (status response)
             end).
Proof.
  intros Hok Hnull. unfold streamChat. rewrite Hok. cbn [negb].
  destruct (json_result response) as [[]|]; try congruence;
    try reflexivity.
  cbn [error_message get_property].
  destruct (lookup members (lit "error")) as [[]|]; reflexivity.
Qed.

Lemma unreadable_body (st : N) (j : option json) :
  streamChat (FetchResolves {| ok := true; status := st; json_result := j;
                               body := None |})
  = threw (NewError (JString (lit "Response body is not readable"))).
Proof. reflexivity. Qed.

(** A [data:] line whose payload is not JSON is skipped. *)
Lemma malformed_line_skipped (data : jsstring) :
  data <> lit "[DONE]" -> JSON_parse data = None ->
  process_line (lit "data: " ++ data) = Skip.
Proof.
  intros Hd Hp. unfold process_line.
  change (startsWith (lit "data: " ++ data) (lit "data: ")) with true.
  change (skipn 6 (lit "data: " ++ data)) with data.
  destruct (JsString.eqb data (lit "[DONE]")) eqn:E.
  - apply jsstring_eqb_eq in E. contradiction.
  - now rewrite Hp.
Qed.

(** The malformed event of the specification is a syntax error, not a
    parse that ran out of fuel. *)
Lemma malformed_payload_never_parses (fuel : nat) :
  parse_value fuel (lit "{not valid json}") = None.
Proof. destruct fuel as [|[|fuel]]; reflexivity. Qed.

Lemma malformed_between_events :
  process_line malformed_event = Skip /\
  streamChat (ok_response {| chunks := sample_malformed;
                             ending := EndOfBody |})
  = {| fragments := [JString (lit "Hi"); JString (lit " there")];
       result := Returned; reads := 2 |}.
Proof. split; reflexivity. Qed.

(** C8, where the code departs from it.  A failed response whose body is
    the JSON text null makes [streamChat] raise the [TypeError] of the
    property read on null; it does not raise the error with the generic
    message that carries the status. *)
Theorem null_error_body_raises_TypeError (st : N) (b : option source) :
  streamChat (null_error_response st b) = threw TypeError /\
  streamChat (null_error_response st b)
  <> threw (NewError (generic_message st)).
Proof. split; [reflexivity|discriminate]. Qed.

End StreamClaims.

(* ================================================================== *)
(** * The conversation orchestrator *)
(* ================================================================== *)

Module ChatFacts.
Import Emotion Chat.
Import Stream (js_error, name, message).

Lemma last_cons_default {A} (x d : A) (l : list A) :
  last (x :: l) d = last l x.
Proof.
  revert x d. induction l as [|y l IH]; intros x d; [reflexivity|].
  change (last (x :: y :: l) d) with (last (y :: l) d).
  now rewrite !(IH y).
Qed.

Lemma slice_last_length {A} (n : nat) (l : list A) :
  List.length (slice_last n l) = Nat.min n (List.length l).
Proof. unfold slice_last. rewrite length_skipn. lia. Qed.

Lemma slice_last_suffix {A} (n : nat) (l : list A) :
  firstn (List.length l - n) l ++ slice_last n l = l.
Proof. apply firstn_skipn. Qed.

Lemma slice_last_all {A} (n : nat) (l : list A) :
  (List.length l <= n)%nat -> slice_last n l = l.
Proof.
  intros H. unfold slice_last.
  replace (List.length l - n)%nat with O by lia. reflexivity.
Qed.

(** An input without white space at its ends is its own trimmed form. *)
Lemma trim_fixed (c : N) (rest : jsstring) :
  is_trim_space c = false -> is_trim_space (last rest c) = false ->
  trim (c :: rest) = c :: rest.
Proof.
  intros Hc Hl. unfold trim. cbn [trimStart]. rewrite Hc.
  destruct (exists_last (l := c :: rest)) as (l' & x & E); [discriminate|].
  assert (Hx : x = last rest c).
  { rewrite <- (last_cons_default c c rest), E. symmetry. apply last_last. }
  rewrite E, rev_app_distr. cbn [rev app trimStart].
  rewrite Hx, Hl. cbn [rev]. now rewrite rev_involutive.
Qed.

(** The update of the store in the loop changes the placeholder only,
    when no other message has its id. *)
Lemma update_placeholder (msgId text : jsstring) (pre : list Message)
  (m : Message) :
  Forall (fun x => id x <> msgId) pre -> id m = msgId ->
  map (fun x => if JsString.eqb (id x) msgId then set_content text x else x)
      (pre ++ [m])
  = pre ++ [set_content text m].
Proof.
  intros Hpre Hm. rewrite map_app. simpl.
  rewrite Hm, jsstring_eqb_refl. f_equal.
  induction Hpre as [|x pre Hx _ IH]; simpl; [reflexivity|].
  rewrite IH. destruct (JsString.eqb (id x) msgId) eqn:E; [|reflexivity].
  apply jsstring_eqb_eq in E. contradiction.
Qed.

(** What the loop over the fragments leaves alone, and the mood and the
    text it produces. *)
Lemma stream_loop_frame (msgId : jsstring) (fragments : list jsstring)
  (acc : jsstring) (w : World) :
  let r := fold_left (stream_step msgId) fragments (acc, w) in
  fst r = acc ++ List.concat fragments /\
  buddyMood (store (snd r))
  = last (filter (fun x => negb (BuddyMood_eqb x talking))
                 (map (fun text => analyzeStreamingEmotion text talking)
                      (accumulations acc fragments)))
         (buddyMood (store w)) /\
  isStreaming (store (snd r)) = isStreaming (store w) /\
  input (snd r) = input w /\
  isLoading (snd r) = isLoading w /\
  abortController (snd r) = abortController w /\
  trace (snd r) = trace w.
Proof.
  revert acc w. induction fragments as [|f fragments IH]; intros acc w.
  - simpl. rewrite app_nil_r. repeat split.
  - cbn [fold_left List.concat accumulations map].
    pose (d := analyzeStreamingEmotion (acc ++ f) talking).
    pose (w1 := if negb (BuddyMood_eqb d talking)
                then setBuddyMood d w else w).
    pose (w2 := with_store (fun s =>
              set_messages
                (map (fun x => if JsString.eqb (id x) msgId
                               then set_content (acc ++ f) x else x)
                     (messages s)) s) w1).
    change (stream_step msgId (acc, w) f) with (acc ++ f, w2).
    destruct (IH (acc ++ f) w2) as (H1 & H3 & H4 & H5 & H6 & H7 & H8).
    cbv zeta.
    rewrite H1, H3, H4, H5, H6, H7, H8, <- app_assoc.
    repeat split;
      try (unfold w2, w1; now destruct (negb (BuddyMood_eqb d talking))).
    assert (Hm2 : buddyMood (store w2)
                  = if negb (BuddyMood_eqb d talking) then d
                    else buddyMood (store w)).
    { unfold w2, w1. now destruct (negb (BuddyMood_eqb d talking)). }
    rewrite Hm2. cbn [filter]. fold d.
    destruct (negb (BuddyMood_eqb d talking)).
    + now rewrite last_cons_default.
    + reflexivity.
Qed.

(** The messages after the loop: the answer holds the text so far. *)
Lemma stream_loop_messages (msgId : jsstring) (fragments : list jsstring)
  (acc : jsstring) (w : World) (pre : list Message) (m : Message) :
  messages (store w) = pre ++ [m] ->
  Forall (fun x => id x <> msgId) pre -> id m = msgId -> content m = acc ->
  let r := fold_left (stream_step msgId) fragments (acc, w) in
  messages (store (snd r)) = pre ++ [set_content (fst r) m].
Proof.
  revert acc w m. induction fragments as [|f fragments IH];
    intros acc w m Hms Hpre Hid Hc.
  - simpl. rewrite Hms. destruct m; simpl in *. now subst.
  - cbn [fold_left].
    pose (d := analyzeStreamingEmotion (acc ++ f) talking).
    pose (w1 := if negb (BuddyMood_eqb d talking)
                then setBuddyMood d w else w).
    assert (Hms1 : messages (store w1) = pre ++ [m]).
    { unfold w1. now destruct (negb (BuddyMood_eqb d talking)). }
    pose (w2 := with_store (fun s =>
              set_messages
                (map (fun x => if JsString.eqb (id x) msgId
                               then set_content (acc ++ f) x else x)
                     (messages s)) s) w1).
    change (stream_step msgId (acc, w) f) with (acc ++ f, w2).
    assert (Hms2 : messages (store w2) = pre ++ [set_content (acc ++ f) m]).
    { unfold w2. simpl. rewrite Hms1. now apply update_placeholder. }
    pose proof (IH (acc ++ f) w2 (set_content (acc ++ f) m) Hms2 Hpre Hid
                   eq_refl) as HI.
    cbv zeta in *. now rewrite HI.
Qed.

Lemma can_submit_inv (w : World) :
  can_submit w = true ->
  exists key model,
    apiKey (store w) = Some key /\ selectedModel (store w) = Some model.
Proof.
  unfold can_submit. rewrite !andb_true_iff. intros [[[_ Hk] Hm] _].
  destruct (apiKey (store w)) as [key|]; [|discriminate].
  destruct (selectedModel (store w)) as [model|]; [|discriminate].
  eauto.
Qed.

(** A mood other than [talking] while streaming comes from an inference
    on an accumulated text. *)
Lemma streaming_mood_source (fragments : list jsstring) (m : BuddyMood) :
  streaming_mood fragments = m -> m <> talking ->
  exists text, In text (accumulations [] fragments) /\
               analyzeStreamingEmotion text talking = m.
Proof.
  unfold streaming_mood. intros H Hm.
  set (l := filter _ _) in H.
  assert (Hin : In m l).
  { destruct l as [|x l'] eqn:E; [simpl in H; congruence|].
    rewrite <- H. clear. revert x.
    induction l' as [|y l' IH]; intros x; [now left|].
    right. change (last (x :: y :: l') talking) with (last (y :: l') talking).
    apply IH. }
  unfold l in Hin. apply filter_In in Hin as [Hin _].
  apply in_map_iff in Hin as (text & Ht & Hin). eauto.
Qed.

Lemma accumulations_length (fragments : list jsstring) (acc text : jsstring) :
  In text (accumulations acc fragments) ->
  (List.length text <= List.length (acc ++ List.concat fragments))%nat.
Proof.
  revert acc. induction fragments as [|f fragments IH]; intros acc; simpl.
  - easy.
  - intros [<-|H].
    + rewrite !length_app. lia.
    + apply IH in H. now rewrite <- app_assoc in H.
Qed.

(** A text that stays below the threshold leaves the mood at [talking]. *)
Lemma streaming_mood_short (fragments : list jsstring) :
  (List.length (List.concat fragments) < 50)%nat ->
  streaming_mood fragments = talking.
Proof.
  intros Hlen. unfold streaming_mood.
  assert (H : forall text, In text (accumulations [] fragments) ->
                           analyzeStreamingEmotion text talking = talking).
  { intros text Hin. apply accumulations_length in Hin. simpl in Hin.
    unfold analyzeStreamingEmotion, analyzeStreamingEmotion_with.
    destruct (Z.ltb_spec (Z.of_nat (List.length text)) 50);
      [reflexivity|lia]. }
  induction (accumulations [] fragments) as [|text l IH]; [reflexivity|].
  simpl. rewrite (H text) by now left. simpl.
  apply IH. intros t Ht. apply H. now right.
Qed.

End ChatFacts.

Module ChatClaims.
Import Emotion Chat ChatFacts.
Import Stream (js_error, name, message).

(** A turn that starts runs up to the end of the stream as follows. *)
Lemma handleSubmit_turn (env : Env) (w : World) (key : jsstring)
  (model : OpenRouterModel) :
  can_submit w = true -> save_user env = None ->
  apiKey (store w) = Some key -> selectedModel (store w) = Some model ->
  let r := fold_left (stream_step (assistantMsgId env))
                     (delivered (turn_stream env w))
                     ([], stream_start env w key model) in
  handleSubmit env w =
  (on_finally
     match failure (turn_stream env w) with
     | Some error => on_error env error (snd r)
     | None =>
         let w8a := perform (SaveMessage assistant (fst r)) (snd r) in
         match save_assistant env with
         | Some error => on_error env error w8a
         | None =>
             perform (IdleTimer 3000)
               (setBuddyMood (analyzeStreamingEmotion (fst r) happy) w8a)
         end
     end, Fulfilled).
Proof.
  intros Hcan Hsave Hkey Hmodel. unfold handleSubmit, turn_stream.
  rewrite Hkey, Hmodel, Hcan, Hsave.
  change (chatMessages (store w) (trim (input w))) with (turn_request w).
  fold (user_message env w). fold (answer_message env []).
  fold (stream_start env w key model).
  now destruct (fold_left _ _ _).
Qed.

Lemma on_error_trace (env : Env) (error : js_error) (w : World) :
  trace (on_error env error w) = trace w.
Proof.
  unfold on_error. now destruct (negb (JsString.eqb _ _)).
Qed.

Lemma stream_start_trace (env : Env) (w : World) (key : jsstring)
  (model : OpenRouterModel) :
  trace (stream_start env w key model)
  = (trace w ++ [SaveMessage user (trim (input w))]) ++
    [Request key (model_id model) (turn_request w)].
Proof. reflexivity. Qed.

Ltac requests_of_trace :=
  rewrite ?stream_start_trace;
  repeat (rewrite flat_map_app; cbn [flat_map]);
  rewrite ?app_nil_r; reflexivity.

Lemma handleSubmit_requests (env : Env) (w : World) :
  can_submit w = true -> save_user env = None ->
  requests (fst (handleSubmit env w)) = requests w ++ [turn_request w].
Proof.
  intros Hcan Hsave.
  destruct (can_submit_inv w Hcan) as (key & model & Hkey & Hmodel).
  rewrite (handleSubmit_turn env w key model Hcan Hsave Hkey Hmodel).
  destruct (stream_loop_frame (assistantMsgId env)
              (delivered (turn_stream env w)) []
              (stream_start env w key model))
    as (_ & _ & _ & _ & _ & _ & Ht).
  cbv zeta in *. unfold requests. cbn [fst on_finally].
  assert (E : forall w', trace (on_finally w') = trace w') by reflexivity.
  unfold requests. rewrite E.
  destruct (failure (turn_stream env w)) as [error|].
  - rewrite on_error_trace, Ht. requests_of_trace.
  - destruct (save_assistant env) as [error|].
    + rewrite on_error_trace. cbn [perform trace]. rewrite Ht.
      requests_of_trace.
    + cbn [perform trace setBuddyMood with_store]. rewrite Ht.
      requests_of_trace.
Qed.

(** C5, as stated: the request would carry the last twenty prior turns,
    a turn being one exchange of a message of the user and its answer,
    and the input of the user as it is.  After eleven turns and with
    the input "  hi  " the request carries the last twenty messages,
    which are the last ten turns, and the input without the white space
    around it. *)
Lemma request_is_not_twenty_turns :
  let env := sample_env abort_error in
  messages (store ChatMore.long_world)
  = ChatMore.spec_history ChatMore.eleven_turns /\
  input ChatMore.long_world = lit "  hi  " /\
  requests (fst (handleSubmit env ChatMore.long_world))
  <> [ ChatMore.spec_request (store ChatMore.long_world)
         ChatMore.eleven_turns (input ChatMore.long_world) ] /\
  requests (fst (handleSubmit env ChatMore.long_world))
  = [ ChatMore.spec_request (store ChatMore.long_world)
        (slice_last 10 ChatMore.eleven_turns) (lit "hi") ].
Proof.
  cbv zeta. split; [reflexivity|]. split; [reflexivity|]. split.
  - intros H. apply (f_equal (map (@List.length ChatMessage))) in H.
    vm_compute in H. discriminate H.
  - vm_compute. reflexivity.
Qed.

(** C5.  A turn that starts makes one request.  Its message list is the
    system prompt, then the last prior messages of the conversation, at
    most 20 and in their order, then the new user message, which is its
    last element.  The user message is the input with the white space
    around it removed, hence the input itself when it has none.  With 20
    prior messages or fewer all of them are sent. *)
Theorem request_message_list (env : Env) (w : World) :
  can_submit w = true -> save_user env = None ->
  let H := messages (store w) in
  let sent := slice_last 20 H in
  let u := trim (input w) in
  requests (fst (handleSubmit env w))
  = requests w ++
    [ [ {| chat_role := system;
           chat_content := buildSystemPrompt (store w) |} ] ++
      map to_chat sent ++
      [ {| chat_role := user; chat_content := u |} ] ] /\
  List.length sent = Nat.min 20 (List.length H) /\
  firstn (List.length H - 20) H ++ sent = H /\
  ((List.length H <= 20)%nat -> sent = H) /\
  List.length (turn_request w) = (1 + Nat.min 20 (List.length H) + 1)%nat /\
  last (turn_request w) {| chat_role := system; chat_content := [] |}
  = {| chat_role := user; chat_content := u |} /\
  (forall c rest,
     input w = c :: rest -> is_trim_space c = false ->
     is_trim_space (last rest c) = false -> u = input w).
Proof.
  intros Hcan Hsave. cbv zeta.
  split; [|split; [|split; [|split; [|split; [|split]]]]];
    [| | | | | | intros c rest -> Hc Hl; now apply trim_fixed ].
  - now apply handleSubmit_requests.
  - apply slice_last_length.
  - apply slice_last_suffix.
  - apply slice_last_all.
  - unfold turn_request, chatMessages.
    rewrite !length_app, length_map, slice_last_length.
    cbn [List.length]. lia.
  - unfold turn_request, chatMessages. rewrite app_assoc. apply last_last.
Qed.

Lemma request_message_list_witness :
  requests (fst (handleSubmit (sample_env abort_error) sample_world))
  = [ [ {| chat_role := system;
           chat_content := buildSystemPrompt (store sample_world) |};
        {| chat_role := user; chat_content := lit "Hello" |};
        {| chat_role := assistant;
           chat_content := lit "Hi, nice to see you" |};
        {| chat_role := user; chat_content := lit "How are you?" |} ] ].
Proof.
  apply (request_message_list (sample_env abort_error) sample_world);
    reflexivity.
Defined.

Lemma stream_start_messages (env : Env) (w : World) (key : jsstring)
  (model : OpenRouterModel) :
  messages (store (stream_start env w key model))
  = (messages (store w) ++ [user_message env w]) ++ [answer_message env []].
Proof. reflexivity. Qed.

(** The store and the component when the stream of a turn has ended in
    an error. *)
Lemma handleSubmit_after_failure (env : Env) (w : World) (error : js_error) :
  can_submit w = true -> save_user env = None ->
  Forall (fun m => id m <> assistantMsgId env) (messages (store w)) ->
  userMsgId env <> assistantMsgId env ->
  failure (turn_stream env w) = Some error ->
  let fragments := delivered (turn_stream env w) in
  let kept := messages (store w) ++
              [user_message env w;
               answer_message env (List.concat fragments)] in
  exists w8,
    handleSubmit env w = (on_finally (on_error env error w8), Fulfilled) /\
    messages (store w8) = kept /\
    buddyMood (store w8) = streaming_mood fragments.
Proof.
  intros Hcan Hsave Hfresh Huser Hfail fragments kept.
  destruct (can_submit_inv w Hcan) as (key & model & Hkey & Hmodel).
  pose proof (handleSubmit_turn env w key model Hcan Hsave Hkey Hmodel) as Hh.
  pose proof (stream_loop_frame (assistantMsgId env) fragments []
                (stream_start env w key model)) as Hframe.
  pose proof (stream_loop_messages (assistantMsgId env) fragments []
                (stream_start env w key model)
                (messages (store w) ++ [user_message env w])
                (answer_message env [])
                (stream_start_messages env w key model)) as Hmsgs.
  cbv zeta in Hh, Hframe, Hmsgs. fold fragments in Hh.
  rewrite Hfail in Hh.
  set (r := fold_left (stream_step (assistantMsgId env)) fragments
                      ([], stream_start env w key model)) in *.
  exists (snd r). split; [exact Hh|].
  destruct Hframe as (Hfst & Hmood & _). split.
  - rewrite Hmsgs; try reflexivity.
    + rewrite Hfst. unfold kept. now rewrite <- app_assoc.
    + apply Forall_app. split; [exact Hfresh|]. now repeat constructor.
  - exact Hmood.
Qed.

(** C6.  When the stream of a turn ends in an error, the answer keeps
    the text of the fragments delivered before it.  After an abort
    nothing else happens to the conversation or the mood: no message is
    added, and the mood is the one the streamed text gave: [confused]
    only when an inference on that text said so, and [talking] as long
    as the text is shorter than the threshold.  After any
    other error one error notice is added behind the partial answer and
    the mood is [confused].  Either way the turn made its one request and
    no other, and the loading and streaming flags are cleared. *)
Theorem stream_failure_handling (env : Env) (w : World) (error : js_error) :
  can_submit w = true -> save_user env = None ->
  Forall (fun m => id m <> assistantMsgId env) (messages (store w)) ->
  userMsgId env <> assistantMsgId env ->
  failure (turn_stream env w) = Some error ->
  let fragments := delivered (turn_stream env w) in
  let w' := fst (handleSubmit env w) in
  let kept := messages (store w) ++
              [user_message env w;
               answer_message env (List.concat fragments)] in
  (name error = lit "AbortError" ->
   messages (store w') = kept /\
   buddyMood (store w') = streaming_mood fragments /\
   (buddyMood (store w') = confused ->
    exists text, In text (accumulations [] fragments) /\
                 analyzeStreamingEmotion text talking = confused) /\
   ((List.length (List.concat fragments) < 50)%nat ->
    buddyMood (store w') = talking)) /\
  (name error <> lit "AbortError" ->
   messages (store w') = kept ++ [error_notice env error] /\
   buddyMood (store w') = confused) /\
  requests w' = requests w ++ [turn_request w] /\
  isLoading w' = false /\
  isStreaming (store w') = false /\
  abortController w' = false.
Proof.
  intros Hcan Hsave Hfresh Huser Hfail fragments w' kept.
  destruct (handleSubmit_after_failure env w error Hcan Hsave Hfresh Huser
              Hfail) as (w8 & Hh & Hmsgs & Hmood).
  fold fragments in Hmsgs, Hmood. fold kept in Hmsgs.
  assert (Hw' : w' = on_finally (on_error env error w8))
    by (unfold w'; now rewrite Hh).
  split; [|split; [|split; [|repeat split]]].
  - intros Hname. rewrite Hw'. unfold on_error.
    rewrite Hname, jsstring_eqb_refl. cbn [negb].
    assert (Hm : buddyMood (store (on_finally w8)) = streaming_mood fragments)
      by exact Hmood.
    split; [exact Hmsgs|]. split; [exact Hm|]. split.
    + intros Hc. rewrite Hm in Hc. now apply streaming_mood_source.
    + intros Hlen. rewrite Hm. now apply streaming_mood_short.
  - intros Hname. rewrite Hw'. unfold on_error.
    destruct (JsString.eqb (name error) (lit "AbortError")) eqn:E.
    + apply jsstring_eqb_eq in E. contradiction.
    + cbn [negb]. split.
      * change (messages (store w8) ++ [error_notice env error]
                = kept ++ [error_notice env error]).
        now rewrite Hmsgs.
      * reflexivity.
  - now apply handleSubmit_requests.
  - now rewrite Hw'.
  - rewrite Hw'. reflexivity.
  - now rewrite Hw'.
Qed.

Lemma stream_failure_handling_witness :
  let aborted := fst (handleSubmit (sample_env abort_error) sample_world) in
  let failed := fst (handleSubmit (sample_env network_error) sample_world) in
  (messages (store aborted)
   = earlier_turns ++
     [user_message (sample_env abort_error) sample_world;
      answer_message (sample_env abort_error) (lit "I am doing")] /\
   buddyMood (store aborted) = talking) /\
  (messages (store failed)
   = earlier_turns ++
     [user_message (sample_env network_error) sample_world;
      answer_message (sample_env network_error) (lit "I am doing");
      error_notice (sample_env network_error) network_error] /\
   buddyMood (store failed) = confused).
Proof.
  split.
  - destruct (stream_failure_handling (sample_env abort_error) sample_world
                abort_error) as [H _]; try reflexivity.
    + repeat constructor; discriminate.
    + discriminate.
    + destruct (H eq_refl) as (Hm & Hb & _). split; [exact Hm|exact Hb].
  - destruct (stream_failure_handling (sample_env network_error) sample_world
                network_error) as (_ & H & _); try reflexivity.
    + repeat constructor; discriminate.
    + discriminate.
    + apply H. discriminate.
Defined.

End ChatClaims.


(* ================================================================== *)
(** * Further properties of the stream decoder *)
(* ================================================================== *)

Module StreamExtras.
Import Json Stream StreamMore StreamFacts StreamClaims.

Lemma process_line_truthy (line : jsstring) (c : json) :
  process_line line = Yield c -> truthy (Some c) = true.
Proof.
  unfold process_line.
  destruct (startsWith line (lit "data: ")); [|discriminate].
  destruct (JsString.eqb _ _); [discriminate|].
  destruct (JSON_parse _) as [chunk|]; [|discriminate].
  destruct (delta_content chunk) as [[c'|]|]; try discriminate.
  destruct (truthy (Some c')) eqn:E; [|discriminate].
  now intros [= <-].
Qed.

Lemma for_lines_truthy (lines : list jsstring) :
  Forall (fun c => truthy (Some c) = true) (fst (for_lines lines)).
Proof.
  induction lines as [|line lines IH]; simpl; [constructor|].
  destruct (process_line line) eqn:E.
  - exact IH.
  - destruct (for_lines lines) as [fs r]. simpl in *.
    constructor; [now apply process_line_truthy with line|exact IH].
  - constructor.
Qed.

Lemma read_loop_truthy (remaining : list (list N)) (d : Utf8.decoder)
  (buffer : jsstring) (e : source_end) :
  Forall (fun c => truthy (Some c) = true)
         (fragments (read_loop d buffer remaining e)).
Proof.
  revert d buffer. induction remaining as [|value remaining IH];
    intros d buffer; simpl; [constructor|].
  destruct (Utf8.decode d value) as [text d'].
  pose proof (for_lines_truthy
                (removelast (split_lines (buffer ++ text)))) as Hl.
  destruct (for_lines (removelast (split_lines (buffer ++ text))))
    as [fs returned].
  simpl in Hl. destruct returned; simpl; [exact Hl|].
  apply Forall_app. split; [exact Hl|apply IH].
Qed.

(** X1.  Every fragment that [streamChat] yields counts as true: the
    empty string, null, false and zero are never yielded, whatever the
    response is. *)
Theorem fragments_are_truthy (fetched : fetch_result) :
  Forall (fun c => truthy (Some c) = true) (fragments (streamChat fetched)) /\
  ~ In (JString []) (fragments (streamChat fetched)) /\
  ~ In JNull (fragments (streamChat fetched)).
Proof.
  assert (H : Forall (fun c => truthy (Some c) = true)
                     (fragments (streamChat fetched))).
  { unfold streamChat. destruct fetched as [e|response]; [constructor|].
    destruct (negb (ok response)).
    - destruct (error_message _) as [m|]; constructor.
    - destruct (body response) as [src|]; [|constructor].
      apply read_loop_truthy. }
  split; [exact H|]. rewrite Forall_forall in H.
  split; intros Hin; apply H in Hin; discriminate.
Qed.

Lemma decoded_text_app (cs1 cs2 : list (list N)) :
  exists text2, decoded_text (cs1 ++ cs2) = decoded_text cs1 ++ text2.
Proof.
  unfold decoded_text. rewrite concat_app, decode_app. simpl. eauto.
Qed.

(** X2.  Chunks that arrive later only add fragments: the fragments of
    the chunks read so far are a prefix of the fragments of any longer
    body, however either body ends. *)
Theorem fragments_grow (cs1 cs2 : list (list N)) (e1 e2 : source_end) :
  exists later,
    fragments (streamChat (ok_response {| chunks := cs1 ++ cs2;
                                          ending := e2 |}))
    = fragments (streamChat (ok_response {| chunks := cs1; ending := e1 |}))
      ++ later.
Proof.
  destruct (streamChat_lines (cs1 ++ cs2) e2) as [H12 _].
  destruct (streamChat_lines cs1 e1) as [H1 _].
  rewrite H12, H1.
  destruct (decoded_text_app cs1 cs2) as [text2 ->].
  rewrite complete_lines_app, for_lines_app.
  destruct (snd (for_lines (complete_lines (decoded_text cs1)))).
  - exists []. simpl. now rewrite app_nil_r.
  - eexists. reflexivity.
Qed.

Lemma for_lines_not_done (lines : list jsstring) :
  Forall (fun line => process_line line <> Done) lines ->
  for_lines lines = (flat_map line_fragments lines, false).
Proof.
  induction 1 as [|line lines Hd _ IH]; simpl.
  - reflexivity.
  - unfold line_fragments. rewrite IH.
    now destruct (process_line line).
Qed.

Lemma read_loop_all_reads (remaining : list (list N)) (d : Utf8.decoder)
  (buffer : jsstring) (e : source_end) :
  no_newline buffer ->
  snd (for_lines (complete_lines
                    (buffer ++ fst (Utf8.decode d (List.concat remaining)))))
  = false ->
  reads (read_loop d buffer remaining e) = S (List.length remaining).
Proof.
  revert d buffer. induction remaining as [|value remaining IH];
    intros d buffer Hb; simpl.
  - reflexivity.
  - rewrite decode_app. simpl.
    destruct (Utf8.decode d value) as [text d'] eqn:Ed. simpl.
    rewrite app_assoc, complete_lines_app, for_lines_app.
    fold (complete_lines (buffer ++ text)).
    destruct (for_lines (complete_lines (buffer ++ text))) as [fs returned].
    simpl. destruct returned; simpl; [discriminate|].
    intros Hs. f_equal.
    apply (IH d' _ (last_split_lines_no_newline _) Hs).
Qed.

(** X3.  When no complete line of the body is the sentinel, the
    generator reads every chunk and once more, yields one fragment for
    every content event among the complete lines, and ends as the body
    does: it returns when the body is exhausted and rethrows the error of
    the failing read otherwise. *)
Theorem body_without_sentinel (chunks : list (list N)) (e : source_end) :
  Forall (fun line => process_line line <> Done)
         (complete_lines (decoded_text chunks)) ->
  let r := streamChat (ok_response {| chunks := chunks; ending := e |}) in
  fragments r = flat_map line_fragments (complete_lines (decoded_text chunks))
  /\ result r = end_outcome e
  /\ reads r = S (List.length chunks).
Proof.
  intros Hl r. pose proof (for_lines_not_done _ Hl) as Hfor.
  destruct (streamChat_lines chunks e) as [Hf Hr]. fold r in Hf, Hr.
  rewrite Hf, Hr, Hfor. repeat split.
  apply (read_loop_all_reads chunks Utf8.fresh [] e); [easy|].
  simpl. fold (decoded_text chunks). now rewrite Hfor.
Qed.

Lemma body_without_sentinel_witness :
  let r := streamChat (ok_response
             {| chunks := [hi_line; there_event ++ [10]; hi_event];
                ending := ReadFails {| name := lit "TypeError";
                                       message := lit "network error" |} |})
  in
  fragments r = [JString (lit "Hi"); JString (lit " there")] /\
  result r = Threw (Rejected {| name := lit "TypeError";
                                message := lit "network error" |}) /\
  reads r = 4%nat.
Proof.
  apply (body_without_sentinel [hi_line; there_event ++ [10]; hi_event]).
  repeat constructor; intros H; vm_compute in H; discriminate.
Defined.

Lemma error_message_normal (error : json) :
  error <> JNull ->
  error_message error
  = Normal match get_property error (lit "error") with
           | Some inner => get_property inner (lit "message")
           | None => None
           end.
Proof.
  intros Hn. destruct error; try congruence; try reflexivity.
  cbn [error_message get_property].
  destruct (lookup members (lit "error")) as [[]|]; reflexivity.
Qed.

Lemma failed_response_thrown (response : Response) :
  ok response = false ->
  json_result response <> Some JNull ->
  streamChat (FetchResolves response)
  = threw (match server_message response with
           | Some v => if truthy (Some v) then new_error v
                       else NewError (generic_message (status response))
           | None => NewError (generic_message (status response))
           end).
Proof.
  intros Hok Hnull. unfold streamChat. rewrite Hok. cbn [negb].
  assert (Hm : error_message match json_result response with
                             | Some v => v
                             | None => JObject []
                             end
               = Normal (server_message response)).
  { unfold server_message.
    destruct (json_result response) as [error|]; [|reflexivity].
    apply error_message_normal. congruence. }
  rewrite Hm. unfold generic_message.
  destruct (server_message response) as [v|]; [|reflexivity].
  now destruct (truthy (Some v)).
Qed.

(** X4.  A failed response whose body is not the JSON value null makes
    [streamChat] throw before any read and any fragment.  When the
    message that the server reported counts as true, the error is made
    from it by [new Error], which converts it to a string: an error
    with that message for a string and for every other value that can
    be converted, and the [TypeError] of the conversion for an object
    with a member [toString] or an array that holds one.  In every
    other case (no JSON body, a body that is not an object, no error
    member, no message, an empty message) it is the error with the
    generic message and the status. *)
Theorem failed_response_reports (response : Response) :
  ok response = false ->
  json_result response <> Some JNull ->
  (forall v, server_message response = Some v ->
             truthy (Some v) = true -> to_string_raises v = false ->
             streamChat (FetchResolves response)
             = {| fragments := []; result := Threw (NewError v);
                  reads := 0 |}) /\
  (forall v, server_message response = Some v ->
             truthy (Some v) = true -> to_string_raises v = true ->
             streamChat (FetchResolves response)
             = {| fragments := []; result := Threw TypeError;
                  reads := 0 |}) /\
  (forall s, server_message response = Some (JString s) -> s <> [] ->
             streamChat (FetchResolves response)
             = {| fragments := []; result := Threw (NewError (JString s));
                  reads := 0 |}) /\
  (forall members,
     server_message response = Some (JObject members) ->
     lookup members (lit "toString") <> None ->
     streamChat (FetchResolves response)
     = {| fragments := []; result := Threw TypeError; reads := 0 |}) /\
  (truthy (server_message response) = false ->
   streamChat (FetchResolves response)
   = {| fragments := [];
        result := Threw (NewError (generic_message (status response)));
        reads := 0 |}).
Proof.
  intros Hok Hnull.
  rewrite (failed_response_thrown response Hok Hnull). unfold threw.
  split; [|split; [|split; [|split]]].
  - intros v -> Ht Hs. rewrite Ht. unfold new_error. now rewrite Hs.
  - intros v -> Ht Hs. rewrite Ht. unfold new_error. now rewrite Hs.
  - intros s -> Hs. destruct s as [|c s]; [congruence|]. reflexivity.
  - intros members -> Hl. cbn [truthy]. unfold new_error.
    cbn [to_string_raises].
    destruct (lookup members (lit "toString")); [reflexivity|congruence].
  - intros Ht. destruct (server_message response) as [v|]; [|reflexivity].
    now rewrite Ht.
Qed.

Lemma failed_response_reports_witness :
  streamChat (FetchResolves sample_failed_response)
  = {| fragments := [];
       result := Threw (NewError (JString (lit "Rate limit exceeded")));
       reads := 0 |} /\
  streamChat (FetchResolves sample_unprintable_response)
  = {| fragments := []; result := Threw TypeError; reads := 0 |}.
Proof.
  split.
  - destruct (failed_response_reports sample_failed_response)
      as (_ & _ & Hs & _).
    + reflexivity.
    + discriminate.
    + apply (Hs (lit "Rate limit exceeded")); [reflexivity|discriminate].
  - destruct (failed_response_reports sample_unprintable_response)
      as (_ & _ & _ & Ho & _).
    + reflexivity.
    + discriminate.
    + apply (Ho [(lit "toString", JNumber false 0 0)]);
        [reflexivity|discriminate].
Defined.

(** ** Carriage returns *)

Lemma parse_content_payload_rest (text rest : jsstring) :
  forallb plain_unit text = true ->
  parse_value (S (List.length (content_payload text ++ rest)))
              (content_payload text ++ rest)
  = Some (content_chunk text, rest).
Proof.
  intros Hplain. unfold content_payload.
  let p := eval vm_compute in (quoted "{'choices':[{'delta':{'content':'") in
  change (quoted "{'choices':[{'delta':{'content':'") with p.
  let p := eval vm_compute in (quoted "'}}]}") in
  change (quoted "'}}]}") with p.
  rewrite <- !app_assoc. cbn [List.length app].
  apply (parse_value_object1 _ (lit "choices")); try reflexivity.
  apply (parse_value_array1 _ 123); try reflexivity.
  apply (parse_value_object1 _ (lit "delta")); try reflexivity.
  apply (parse_value_object1 _ (lit "content")); try reflexivity.
  apply (parse_value_string _ text); exact Hplain.
Qed.

Lemma content_line_cr (text : jsstring) :
  text <> [] -> forallb plain_unit text = true ->
  process_line (content_line text ++ [13]) = Yield (JString text).
Proof.
  intros Hne Hplain. unfold process_line, content_line.
  rewrite <- app_assoc.
  change (startsWith (lit "data: " ++ ?x) (lit "data: ")) with true.
  change (skipn 6 (lit "data: " ++ content_payload text ++ [13]))
    with (content_payload text ++ [13]).
  assert (E : JSON_parse (content_payload text ++ [13])
              = Some (content_chunk text)).
  { unfold JSON_parse.
    replace (skip_ws (content_payload text ++ [13]))
      with (content_payload text ++ [13]) by reflexivity.
    now rewrite parse_content_payload_rest. }
  rewrite E. cbn -[content_payload].
  destruct text as [|u text]; [contradiction|]. reflexivity.
Qed.

Lemma crlf_body_lines (texts : list jsstring) :
  crlf_body texts
  = lines_text (map (fun text => content_line text ++ [13]) texts ++
                [done_line ++ [13]]) ++ [].
Proof.
  unfold crlf_body, lines_text. rewrite app_nil_r, map_app, concat_app.
  rewrite map_map. cbn [map List.concat]. rewrite app_nil_r.
  rewrite <- (app_assoc done_line). f_equal. f_equal.
  apply map_ext. intros text. now rewrite <- app_assoc.
Qed.

Lemma content_line_cr_no_newline (text : jsstring) :
  forallb plain_unit text = true -> no_newline (content_line text ++ [13]).
Proof.
  intros Hplain. unfold no_newline, content_line, content_payload.
  rewrite !in_app_iff. intros [[H|[H|[H|H]]]|H].
  - revert H. apply no_newline_check. reflexivity.
  - revert H. apply no_newline_check. reflexivity.
  - rewrite forallb_forall in Hplain. specialize (Hplain _ H). discriminate.
  - revert H. apply no_newline_check. reflexivity.
  - revert H. apply no_newline_check. reflexivity.
Qed.

(** X5.  When the lines of the body end in a carriage return and a
    newline, the content events are still delivered, but the line
    [data: [DONE]] followed by the carriage return is not the sentinel:
    the generator does not return on it, reads on, and ends as the body
    does. *)
Theorem carriage_return_hides_sentinel (texts : list jsstring)
  (chunks : list (list N)) (e : source_end) :
  Forall (fun text => text <> [] /\ forallb plain_unit text = true) texts ->
  decoded_text chunks = crlf_body texts ->
  let r := streamChat (ok_response {| chunks := chunks; ending := e |}) in
  fragments r = map JString texts /\
  result r = end_outcome e /\
  reads r = S (List.length chunks) /\
  process_line (done_line ++ [13]) = Skip.
Proof.
  intros Htexts Htext r.
  assert (Hlines : complete_lines (decoded_text chunks)
                   = map (fun text => content_line text ++ [13]) texts ++
                     [done_line ++ [13]]).
  { rewrite Htext, crlf_body_lines, complete_lines_lines_text.
    - unfold complete_lines. simpl. now rewrite app_nil_r.
    - apply Forall_app. split.
      + apply Forall_map. eapply Forall_impl; [|exact Htexts].
        intros text [_ Hp]. cbv beta. now apply content_line_cr_no_newline.
      + repeat constructor. apply no_newline_check. reflexivity. }
  destruct (body_without_sentinel chunks e) as (Hf & Hr & Hn).
  - rewrite Hlines. apply Forall_app. split.
    + apply Forall_map. eapply Forall_impl; [|exact Htexts].
      intros text [Hne Hp]. cbv beta.
      now rewrite (content_line_cr text Hne Hp).
    + repeat constructor. intros H. vm_compute in H. discriminate.
  - fold r in Hf, Hr, Hn. split; [|split; [exact Hr|split; [exact Hn|]]].
    + rewrite Hf, Hlines, flat_map_app. cbn [flat_map].
      replace (line_fragments (done_line ++ [13])) with (@nil json)
        by reflexivity.
      rewrite !app_nil_r. clear -Htexts.
      induction Htexts as [|text texts [Hne Hp] _ IH]; cbn [flat_map map].
      * reflexivity.
      * unfold line_fragments at 1.
        now rewrite (content_line_cr text Hne Hp), IH.
    + reflexivity.
Qed.

Lemma carriage_return_hides_sentinel_witness :
  let r := streamChat (ok_response {| chunks := sample_crlf;
                                      ending := EndOfBody |}) in
  fragments r = [JString (lit "Hi"); JString (lit "!")] /\
  result r = Returned /\
  reads r = 3%nat.
Proof.
  destruct (carriage_return_hides_sentinel [lit "Hi"; lit "!"] sample_crlf
              EndOfBody) as (Hf & Hr & Hn & _).
  - repeat constructor; discriminate.
  - reflexivity.
  - split; [exact Hf|]. split; [exact Hr|exact Hn].
Defined.

(** ** Lines that are not events *)

Lemma for_lines_filter_prefix (lines : list jsstring) :
  for_lines (filter has_data_prefix lines) = for_lines lines.
Proof.
  induction lines as [|line lines IH]; simpl; [reflexivity|].
  unfold has_data_prefix at 1.
  destruct (startsWith line (lit "data: ")) eqn:E; simpl.
  - now rewrite IH.
  - rewrite IH. unfold process_line. now rewrite E.
Qed.

(** X6.  Lines that do not start with [data: ] (comments, empty lines,
    other fields, and [data:] without the space) take no part: a body
    and the same body without those lines give the same fragments and
    the same outcome. *)
Theorem lines_without_prefix_ignored (lines : list jsstring)
  (partial partial' : jsstring) (chunks chunks' : list (list N))
  (e : source_end) :
  Forall no_newline lines -> no_newline partial -> no_newline partial' ->
  decoded_text chunks = lines_text lines ++ partial ->
  decoded_text chunks'
  = lines_text (filter has_data_prefix lines) ++ partial' ->
  let r := streamChat (ok_response {| chunks := chunks; ending := e |}) in
  let r' := streamChat (ok_response {| chunks := chunks'; ending := e |}) in
  fragments r = fragments r' /\ result r = result r'.
Proof.
  intros Hl Hp Hp' Ht Ht' r r'.
  destruct (streamChat_lines chunks e) as [Hf Hr].
  destruct (streamChat_lines chunks' e) as [Hf' Hr'].
  fold r in Hf, Hr. fold r' in Hf', Hr'.
  assert (Hfl : Forall no_newline (filter has_data_prefix lines)).
  { apply Forall_forall. intros line Hin. apply filter_In in Hin as [Hin _].
    rewrite Forall_forall in Hl. now apply Hl. }
  rewrite Hf, Hr, Hf', Hr', Ht, Ht'.
  rewrite !complete_lines_lines_text by assumption.
  rewrite !complete_lines_no_newline by assumption.
  rewrite !app_nil_r. now rewrite for_lines_filter_prefix.
Qed.

Lemma lines_without_prefix_ignored_witness :
  let r := streamChat (ok_response
             {| chunks := [lines_text sample_noise]; ending := EndOfBody |}) in
  let r' := streamChat (ok_response
              {| chunks := [hi_line; there_event ++ [10]];
                 ending := EndOfBody |}) in
  fragments r = fragments r' /\ result r = result r'.
Proof.
  apply (lines_without_prefix_ignored sample_noise [] []).
  - repeat constructor; apply no_newline_check; reflexivity.
  - easy.
  - easy.
  - reflexivity.
  - reflexivity.
Defined.

End StreamExtras.

(* ================================================================== *)
(** * Further properties of the conversation orchestrator *)
(* ================================================================== *)

Module ChatExtras.
Import Emotion Chat ChatMore ChatFacts ChatClaims.
Import Stream (js_error, name, message).

(** X7.  A submission with blank input, without an API key, without a
    selected model or while a turn is loading does nothing: the store,
    the component and the trace stay as they are and no request is made. *)
Theorem blocked_submission (env : Env) (w : World) :
  is_empty (trim (input w)) = true \/
  apiKey (store w) = None \/ apiKey (store w) = Some [] \/
  selectedModel (store w) = None \/ isLoading w = true ->
  handleSubmit env w = (w, Fulfilled).
Proof.
  intros H. unfold handleSubmit.
  destruct (apiKey (store w)) as [key|] eqn:Ek; [|reflexivity].
  destruct (selectedModel (store w)) as [model|] eqn:Em; [|reflexivity].
  assert (Hc : can_submit w = false).
  { unfold can_submit. rewrite Ek, Em.
    destruct H as [H|[H|[H|[H|H]]]]; try discriminate.
    - now rewrite H.
    - injection H as ->. simpl. now rewrite andb_false_r.
    - rewrite H. now rewrite andb_false_r. }
  now rewrite Hc.
Qed.

Lemma blocked_submission_witness :
  handleSubmit (sample_env abort_error) blank_world
  = (blank_world, Fulfilled).
Proof.
  apply blocked_submission. left. reflexivity.
Defined.

(** ** What a turn leaves alone *)

Lemma stream_loop_keys (msgId : jsstring) (fragments : list jsstring)
  (acc : jsstring) (w : World) :
  let r := fold_left (stream_step msgId) fragments (acc, w) in
  map message_key (messages (store (snd r)))
  = map message_key (messages (store w)) /\
  settings (store (snd r)) = settings (store w).
Proof.
  revert acc w. induction fragments as [|f fragments IH]; intros acc w.
  - simpl. auto.
  - cbn [fold_left].
    pose (d := analyzeStreamingEmotion (acc ++ f) talking).
    pose (w1 := if negb (BuddyMood_eqb d talking)
                then setBuddyMood d w else w).
    pose (w2 := with_store (fun s =>
              set_messages
                (map (fun x => if JsString.eqb (id x) msgId
                               then set_content (acc ++ f) x else x)
                     (messages s)) s) w1).
    change (stream_step msgId (acc, w) f) with (acc ++ f, w2).
    destruct (IH (acc ++ f) w2) as [Hk Hs]. cbv zeta in *.
    rewrite Hk, Hs. unfold w2, w1.
    destruct (negb (BuddyMood_eqb d talking)); simpl; rewrite map_map;
      (split; [|reflexivity]); apply map_ext; intros x;
      now destruct (JsString.eqb (id x) msgId).
Qed.

Lemma on_error_keys (env : Env) (error : js_error) (w : World) :
  exists added,
    map message_key (messages (store (on_error env error w)))
    = map message_key (messages (store w)) ++ added /\
    (added = [] \/ added = [message_key (error_notice env error)]) /\
    settings (store (on_error env error w)) = settings (store w).
Proof.
  unfold on_error. destruct (negb (JsString.eqb _ _)).
  - exists [message_key (error_notice env error)]. simpl.
    rewrite map_app. auto.
  - exists []. rewrite app_nil_r. auto.
Qed.

Lemma handleSubmit_rejected (env : Env) (w : World) (e : js_error) :
  can_submit w = true -> save_user env = Some e ->
  handleSubmit env w = (stuck_world env w, RejectedWith e).
Proof.
  intros Hcan Hsave.
  destruct (can_submit_inv w Hcan) as (key & model & Hkey & Hmodel).
  unfold handleSubmit. now rewrite Hkey, Hmodel, Hcan, Hsave.
Qed.

(** X8.  Whatever the environment does, [handleSubmit] never removes,
    reorders or relabels a message: the ids, roles and timestamps in the
    store are the old ones followed by at most three new ones (the
    message of the user, the answer, one error notice), none of them
    with the role system, and the settings of the store are untouched. *)
Theorem messages_only_grow (env : Env) (w : World) :
  let w' := fst (handleSubmit env w) in
  exists added,
    map message_key (messages (store w'))
    = map message_key (messages (store w)) ++ added /\
    (List.length added <= 3)%nat /\
    Forall (fun k => snd (fst k) <> system) added /\
    settings (store w') = settings (store w) /\
    (Forall (fun m => role m <> system) (messages (store w)) ->
     Forall (fun m => role m <> system) (messages (store w'))).
Proof.
  intros w'.
  assert (H : exists added,
    map message_key (messages (store w'))
    = map message_key (messages (store w)) ++ added /\
    (List.length added <= 3)%nat /\
    Forall (fun k => snd (fst k) <> system) added /\
    settings (store w') = settings (store w)).
  { unfold w'. destruct (can_submit w) eqn:Hcan.
    - destruct (can_submit_inv w Hcan) as (key & model & Hkey & Hmodel).
      destruct (save_user env) as [e|] eqn:Hsave.
      + rewrite (handleSubmit_rejected env w e Hcan Hsave). simpl.
        exists [message_key (user_message env w)]. rewrite map_app.
        repeat split; simpl; try lia. repeat constructor. discriminate.
      + rewrite (handleSubmit_turn env w key model Hcan Hsave Hkey Hmodel).
        destruct (stream_loop_keys (assistantMsgId env)
                    (delivered (turn_stream env w)) []
                    (stream_start env w key model)) as [Hk Hs].
        cbv zeta in *.
        set (r := fold_left _ _ _) in *.
        assert (Hstart : map message_key (messages (store (snd r)))
                         = map message_key (messages (store w)) ++
                           [message_key (user_message env w);
                            message_key (answer_message env [])]).
        { rewrite Hk. simpl. rewrite !map_app, <- app_assoc. reflexivity. }
        assert (Hcatch : forall error w0,
          map message_key (messages (store w0))
          = map message_key (messages (store (snd r))) ->
          settings (store w0) = settings (store (snd r)) ->
          exists added,
            map message_key
                (messages (store (on_finally (on_error env error w0))))
            = map message_key (messages (store w)) ++ added /\
            (List.length added <= 3)%nat /\
            Forall (fun k => snd (fst k) <> system) added /\
            settings (store (on_finally (on_error env error w0)))
            = settings (store w)).
        { intros error w0 Hk0 Hs0.
          destruct (on_error_keys env error w0) as (added & Ha & Hcase & Hs').
          exists ([message_key (user_message env w);
                   message_key (answer_message env [])] ++ added).
          change (messages (store (on_finally (on_error env error w0))))
            with (messages (store (on_error env error w0))).
          change (settings (store (on_finally (on_error env error w0))))
            with (settings (store (on_error env error w0))).
          rewrite Ha, Hk0, Hstart, Hs', Hs0, Hs, <- app_assoc.
          repeat split.
          - destruct Hcase as [-> | ->]; simpl; lia.
          - destruct Hcase as [-> | ->]; repeat constructor; discriminate. }
        cbn [fst].
        destruct (failure (turn_stream env w)) as [error|].
        * now apply Hcatch.
        * destruct (save_assistant env) as [error|].
          -- now apply Hcatch.
          -- exists [message_key (user_message env w);
                     message_key (answer_message env [])].
             repeat split; try (simpl; lia).
             ++ exact Hstart.
             ++ repeat constructor; discriminate.
             ++ change (settings (store (snd r)) = settings (store w)).
                rewrite Hs. reflexivity.
    - assert (E : handleSubmit env w = (w, Fulfilled)).
      { unfold handleSubmit.
        destruct (apiKey (store w)); [|reflexivity].
        destruct (selectedModel (store w)); [|reflexivity].
        now rewrite Hcan. }
      rewrite E. exists []. rewrite app_nil_r. repeat split; auto. }
  destruct H as (added & Hk & Hl & Hr & Hs).
  exists added. repeat split; try assumption.
  intros Hold.
  assert (Hroles : map role (messages (store w'))
                   = map role (messages (store w)) ++
                     map (fun k => snd (fst k)) added).
  { assert (Hrole : forall l : list Message,
              map role l = map (fun k => snd (fst k)) (map message_key l)).
    { intros l. rewrite map_map. reflexivity. }
    rewrite (Hrole (messages (store w'))), (Hrole (messages (store w))).
    rewrite Hk, map_app. reflexivity. }
  apply (proj1 (Forall_map role (fun r => r <> system) _)).
  rewrite Hroles. apply Forall_app. split.
  - now apply (proj2 (Forall_map role (fun r => r <> system) _)).
  - now apply (proj2 (Forall_map (fun k : jsstring * Role * N => snd (fst k))
                        (fun r => r <> system) _)).
Qed.

(** ** The turns that start *)

Lemma skipn_length_app {A} (l r : list A) :
  skipn (List.length l) (l ++ r) = r.
Proof. induction l as [|x l IH]; [reflexivity | exact IH]. Qed.

(** The world after the loop over the stream of a turn that starts. *)
Lemma turn_loop (env : Env) (w : World) :
  can_submit w = true -> save_user env = None ->
  Forall (fun m => id m <> assistantMsgId env) (messages (store w)) ->
  userMsgId env <> assistantMsgId env ->
  let full := List.concat (delivered (turn_stream env w)) in
  exists key model w8,
    apiKey (store w) = Some key /\ selectedModel (store w) = Some model /\
    handleSubmit env w =
    (on_finally
       match failure (turn_stream env w) with
       | Some error => on_error env error w8
       | None =>
           let w8a := perform (SaveMessage assistant full) w8 in
           match save_assistant env with
           | Some error => on_error env error w8a
           | None =>
               perform (IdleTimer 3000)
                 (setBuddyMood (analyzeStreamingEmotion full happy) w8a)
           end
       end, Fulfilled) /\
    messages (store w8)
    = messages (store w) ++ [user_message env w; answer_message env full] /\
    buddyMood (store w8) = streaming_mood (delivered (turn_stream env w)) /\
    settings (store w8) = settings (store w) /\
    input w8 = [] /\
    trace w8 = trace w ++ [SaveMessage user (trim (input w));
                           Request key (model_id model) (turn_request w)].
Proof.
  intros Hcan Hsave Hfresh Huser full.
  destruct (can_submit_inv w Hcan) as (key & model & Hkey & Hmodel).
  pose proof (handleSubmit_turn env w key model Hcan Hsave Hkey Hmodel) as Hh.
  pose proof (stream_loop_frame (assistantMsgId env)
                (delivered (turn_stream env w)) []
                (stream_start env w key model)) as Hframe.
  pose proof (stream_loop_keys (assistantMsgId env)
                (delivered (turn_stream env w)) []
                (stream_start env w key model)) as Hkeys.
  pose proof (stream_loop_messages (assistantMsgId env)
                (delivered (turn_stream env w)) []
                (stream_start env w key model)
                (messages (store w) ++ [user_message env w])
                (answer_message env [])
                (stream_start_messages env w key model)) as Hmsgs.
  cbv zeta in Hh, Hframe, Hmsgs, Hkeys.
  set (r := fold_left (stream_step (assistantMsgId env))
                      (delivered (turn_stream env w))
                      ([], stream_start env w key model)) in *.
  destruct Hframe as (Hfst & Hmood & _ & Hinput & _ & _ & Htrace).
  destruct Hkeys as [_ Hsettings].
  simpl in Hfst. fold full in Hfst.
  exists key, model, (snd r). rewrite Hfst in Hh.
  repeat split; try assumption.
  - rewrite Hmsgs; try reflexivity.
    + rewrite Hfst. now rewrite <- app_assoc.
    + apply Forall_app. split; [exact Hfresh|]. now repeat constructor.
  - rewrite Htrace, stream_start_trace, <- app_assoc. reflexivity.
Qed.

(** X9.  A turn whose stream completes and whose two saves succeed
    leaves the message of the user and the whole answer behind the
    earlier messages, sets the mood that the whole answer gives against
    [happy] (so [happy] itself for an answer under fifty code units),
    clears the input and the three flags, and performs exactly four
    effects in this order: the save of the user's text, the request, the
    save of the answer, the timer of 3000 ms for the return to idle. *)
Theorem completed_turn (env : Env) (w : World) :
  can_submit w = true -> save_user env = None ->
  save_assistant env = None -> failure (turn_stream env w) = None ->
  Forall (fun m => id m <> assistantMsgId env) (messages (store w)) ->
  userMsgId env <> assistantMsgId env ->
  let full := List.concat (delivered (turn_stream env w)) in
  let w' := fst (handleSubmit env w) in
  snd (handleSubmit env w) = Fulfilled /\
  messages (store w')
  = messages (store w) ++ [user_message env w; answer_message env full] /\
  buddyMood (store w') = analyzeStreamingEmotion full happy /\
  ((List.length full < 50)%nat -> buddyMood (store w') = happy) /\
  (exists key model,
     apiKey (store w) = Some key /\ selectedModel (store w) = Some model /\
     new_effects w w'
     = [SaveMessage user (trim (input w));
        Request key (model_id model) (turn_request w);
        SaveMessage assistant full; IdleTimer 3000]) /\
  input w' = [] /\ isLoading w' = false /\
  isStreaming (store w') = false /\ abortController w' = false.
Proof.
  intros Hcan Hsave Hsave2 Hfail Hfresh Huser full w'.
  destruct (turn_loop env w Hcan Hsave Hfresh Huser)
    as (key & model & w8 & Hkey & Hmodel & Hh & Hm & _ & _ & Hi & Ht).
  fold full in Hh, Hm. rewrite Hfail, Hsave2 in Hh. cbv zeta in Hh.
  unfold w'. rewrite Hh. cbn [fst snd].
  assert (Hmood : buddyMood (store (on_finally (perform (IdleTimer 3000)
            (setBuddyMood (analyzeStreamingEmotion full happy)
               (perform (SaveMessage assistant full) w8)))))
          = analyzeStreamingEmotion full happy) by reflexivity.
  repeat split; try assumption.
  - rewrite Hmood. unfold analyzeStreamingEmotion, analyzeStreamingEmotion_with.
    intros Hshort.
    replace (Z.of_nat (List.length full) <? 50)%Z with true; [reflexivity|].
    symmetry. apply Z.ltb_lt. lia.
  - exists key, model. repeat split; try assumption.
    unfold new_effects. simpl. rewrite Ht.
    rewrite <- !app_assoc. now rewrite skipn_length_app.
Qed.

Lemma completed_turn_witness :
  let env := completing_env (lit "u1") (lit "a1") None None in
  let w' := fst (handleSubmit env sample_world) in
  messages (store w')
  = earlier_turns ++
    [ {| id := lit "u1"; role := user; content := lit "How are you?";
         timestamp := 10 |};
      {| id := lit "a1"; role := assistant;
         content := lit "I am fine, thanks."; timestamp := 11 |} ] /\
  buddyMood (store w') = happy.
Proof.
  pose proof (completed_turn (completing_env (lit "u1") (lit "a1") None None)
                sample_world) as H.
  cbv zeta in *.
  destruct H as (_ & Hm & _ & Hshort & _).
  - reflexivity.
  - reflexivity.
  - reflexivity.
  - reflexivity.
  - repeat constructor; intros [=].
  - intros [=].
  - split.
    + rewrite Hm. reflexivity.
    + apply Hshort. vm_compute. lia.
Defined.

(** X10.  When the save of the answer rejects after a complete stream,
    the whole answer stays in the store and the rejection is handled as
    an error of the stream is.  A rejection whose name is not
    AbortError adds one notice behind the answer and sets the mood to
    [confused].  A rejection named AbortError, as that of an aborted
    transaction, adds nothing and leaves the mood that the streamed
    text gave.  Either way the three effects of the turn are the save
    of the user's text, the request and the save that was tried: the
    timer for the return to idle is never started.  The flags are
    cleared and the promise of [handleSubmit] is fulfilled. *)
Theorem answer_save_rejected (env : Env) (w : World) (error : js_error) :
  can_submit w = true -> save_user env = None ->
  save_assistant env = Some error -> failure (turn_stream env w) = None ->
  Forall (fun m => id m <> assistantMsgId env) (messages (store w)) ->
  userMsgId env <> assistantMsgId env ->
  let full := List.concat (delivered (turn_stream env w)) in
  let w' := fst (handleSubmit env w) in
  snd (handleSubmit env w) = Fulfilled /\
  (name error <> lit "AbortError" ->
   messages (store w')
   = messages (store w) ++
     [user_message env w; answer_message env full;
      error_notice env error] /\
   buddyMood (store w') = confused) /\
  (name error = lit "AbortError" ->
   messages (store w')
   = messages (store w) ++ [user_message env w; answer_message env full] /\
   buddyMood (store w') = streaming_mood (delivered (turn_stream env w))) /\
  (exists key model,
     new_effects w w'
     = [SaveMessage user (trim (input w));
        Request key (model_id model) (turn_request w);
        SaveMessage assistant full]) /\
  isLoading w' = false /\ isStreaming (store w') = false /\
  abortController w' = false.
Proof.
  intros Hcan Hsave Hsave2 Hfail Hfresh Huser full w'.
  destruct (turn_loop env w Hcan Hsave Hfresh Huser)
    as (key & model & w8 & Hkey & Hmodel & Hh & Hm & Hmood & _ & Hi & Ht).
  fold full in Hh, Hm. rewrite Hfail, Hsave2 in Hh. cbv zeta in Hh.
  unfold w'. rewrite Hh. cbn [fst snd].
  split; [reflexivity|]. split; [|split; [|split]].
  - intros Hname.
    assert (Hneq : negb (JsString.eqb (name error) (lit "AbortError")) = true).
    { apply negb_true_iff. apply not_true_is_false. intros E.
      apply Hname. now apply jsstring_eqb_eq. }
    unfold on_error. rewrite Hneq. split; [|reflexivity].
    simpl. rewrite Hm. rewrite <- app_assoc. reflexivity.
  - intros Hname.
    assert (Heq : negb (JsString.eqb (name error) (lit "AbortError")) = false).
    { apply negb_false_iff. now apply jsstring_eqb_eq. }
    unfold on_error. rewrite Heq. split.
    + exact Hm.
    + exact Hmood.
  - exists key, model. unfold new_effects.
    change (trace (on_finally (on_error env error
              (perform (SaveMessage assistant full) w8))))
      with (trace (on_error env error
              (perform (SaveMessage assistant full) w8))).
    rewrite on_error_trace. cbn [perform trace]. rewrite Ht.
    rewrite <- !app_assoc. now rewrite skipn_length_app.
  - repeat split.
Qed.

Lemma answer_save_rejected_witness :
  let env := completing_env (lit "u1") (lit "a1") None (Some quota_error) in
  let env' := completing_env (lit "u1") (lit "a1") None (Some abort_error) in
  buddyMood (store (fst (handleSubmit env sample_world))) = confused /\
  List.length (messages (store (fst (handleSubmit env' sample_world))))
  = 4%nat.
Proof.
  pose proof (answer_save_rejected
                (completing_env (lit "u1") (lit "a1") None (Some quota_error))
                sample_world quota_error) as H.
  pose proof (answer_save_rejected
                (completing_env (lit "u1") (lit "a1") None (Some abort_error))
                sample_world abort_error) as H'.
  cbv zeta in *. split.
  - destruct H as (_ & Hother & _).
    + reflexivity.
    + reflexivity.
    + reflexivity.
    + reflexivity.
    + repeat constructor; intros [=].
    + intros [=].
    + destruct Hother as [_ Hmood]; [intros [=]|]. exact Hmood.
  - destruct H' as (_ & _ & Habort & _).
    + reflexivity.
    + reflexivity.
    + reflexivity.
    + reflexivity.
    + repeat constructor; intros [=].
    + intros [=].
    + destruct Habort as [Hmsgs _]; [reflexivity|].
      rewrite Hmsgs. reflexivity.
Defined.

(** X11.  A turn whose stream fails performs two effects and no more:
    the save of the user's text and the request.  The partial answer and
    the error notice are never written by [saveMessage], and no timer
    brings the mood back to idle. *)
Theorem failed_turn_effects (env : Env) (w : World) (error : js_error) :
  can_submit w = true -> save_user env = None ->
  failure (turn_stream env w) = Some error ->
  exists key model,
    apiKey (store w) = Some key /\ selectedModel (store w) = Some model /\
    new_effects w (fst (handleSubmit env w))
    = [SaveMessage user (trim (input w));
       Request key (model_id model) (turn_request w)].
Proof.
  intros Hcan Hsave Hfail.
  destruct (can_submit_inv w Hcan) as (key & model & Hkey & Hmodel).
  pose proof (handleSubmit_turn env w key model Hcan Hsave Hkey Hmodel) as Hh.
  pose proof (stream_loop_frame (assistantMsgId env)
                (delivered (turn_stream env w)) []
                (stream_start env w key model)) as Hframe.
  cbv zeta in Hh, Hframe.
  set (r := fold_left (stream_step (assistantMsgId env))
                      (delivered (turn_stream env w))
                      ([], stream_start env w key model)) in *.
  destruct Hframe as (_ & _ & _ & _ & _ & _ & Htrace).
  rewrite Hfail in Hh.
  exists key, model. repeat split; try assumption.
  rewrite Hh. unfold new_effects. cbn [fst].
  change (trace (on_finally (on_error env error (snd r))))
    with (trace (on_error env error (snd r))).
  rewrite on_error_trace, Htrace, stream_start_trace, <- app_assoc.
  now rewrite skipn_length_app.
Qed.

Lemma failed_turn_effects_witness :
  new_effects sample_world
    (fst (handleSubmit (sample_env network_error) sample_world))
  = [SaveMessage user (lit "How are you?");
     Request (lit "sk-or-key") (lit "vendor/model")
             (turn_request sample_world)].
Proof.
  destruct (failed_turn_effects (sample_env network_error) sample_world
              network_error) as (key & model & Hkey & Hmodel & H);
    [reflexivity | reflexivity | reflexivity |].
  injection Hkey as <-. injection Hmodel as <-. exact H.
Defined.

(** X12.  When the save of the user's text rejects, [handleSubmit]
    rejects with the same error before any request is made, and nothing
    clears the loading flag: the message of the user is in the store,
    the mood stays [thinking], and from then on every submission,
    whatever is typed, is blocked. *)
Theorem user_save_rejected (env : Env) (w : World) (error : js_error) :
  can_submit w = true -> save_user env = Some error ->
  let w' := fst (handleSubmit env w) in
  snd (handleSubmit env w) = RejectedWith error /\
  messages (store w') = messages (store w) ++ [user_message env w] /\
  buddyMood (store w') = thinking /\
  isLoading w' = true /\
  requests w' = requests w /\
  new_effects w w' = [SaveMessage user (trim (input w))] /\
  (forall env' text,
     handleSubmit env' (setInput text w') = (setInput text w', Fulfilled)).
Proof.
  intros Hcan Hsave w'. unfold w'.
  rewrite (handleSubmit_rejected env w error Hcan Hsave). cbn [fst snd].
  repeat split.
  - unfold requests, stuck_world. simpl. rewrite flat_map_app. simpl.
    now rewrite app_nil_r.
  - unfold new_effects, stuck_world. simpl. now rewrite skipn_length_app.
  - intros env' text. unfold handleSubmit. simpl.
    destruct (apiKey (store w)); [|reflexivity].
    destruct (selectedModel (store w)); [|reflexivity].
    unfold can_submit. simpl. now rewrite !andb_false_r.
Qed.

Lemma user_save_rejected_witness :
  let env := completing_env (lit "u1") (lit "a1") (Some quota_error) None in
  let w' := fst (handleSubmit env sample_world) in
  isLoading w' = true /\
  handleSubmit env (setInput (lit "again") w')
  = (setInput (lit "again") w', Fulfilled).
Proof.
  pose proof (user_save_rejected
                (completing_env (lit "u1") (lit "a1") (Some quota_error) None)
                sample_world quota_error) as H.
  cbv zeta in *.
  destruct H as (_ & _ & _ & Hl & _ & _ & Hblocked).
  - reflexivity.
  - reflexivity.
  - split; [exact Hl | apply Hblocked].
Defined.

(** The effects of a turn that starts, whatever its outcome. *)
Lemma turn_trace (env : Env) (w : World) :
  can_submit w = true -> save_user env = None ->
  exists key model,
    apiKey (store w) = Some key /\ selectedModel (store w) = Some model /\
    new_effects w (fst (handleSubmit env w))
    = [SaveMessage user (trim (input w));
       Request key (model_id model) (turn_request w)] ++
      match failure (turn_stream env w) with
      | Some _ => []
      | None =>
          SaveMessage assistant (List.concat (delivered (turn_stream env w)))
          :: match save_assistant env with
             | Some _ => []
             | None => [IdleTimer 3000]
             end
      end.
Proof.
  intros Hcan Hsave.
  destruct (can_submit_inv w Hcan) as (key & model & Hkey & Hmodel).
  pose proof (handleSubmit_turn env w key model Hcan Hsave Hkey Hmodel) as Hh.
  pose proof (stream_loop_frame (assistantMsgId env)
                (delivered (turn_stream env w)) []
                (stream_start env w key model)) as Hframe.
  cbv zeta in Hh, Hframe.
  set (r := fold_left (stream_step (assistantMsgId env))
                      (delivered (turn_stream env w))
                      ([], stream_start env w key model)) in *.
  destruct Hframe as (Hfst & _ & _ & _ & _ & _ & Htrace).
  simpl in Hfst.
  exists key, model. repeat split; try assumption.
  rewrite Hh. unfold new_effects. cbn [fst].
  rewrite stream_start_trace, <- app_assoc in Htrace.
  destruct (failure (turn_stream env w)) as [error|].
  - change (trace (on_finally (on_error env error (snd r))))
      with (trace (on_error env error (snd r))).
    rewrite on_error_trace, Htrace, app_nil_r.
    now rewrite skipn_length_app.
  - destruct (save_assistant env) as [error|].
    + change (trace (on_finally (on_error env error
                (perform (SaveMessage assistant (fst r)) (snd r)))))
        with (trace (on_error env error
                (perform (SaveMessage assistant (fst r)) (snd r)))).
      rewrite on_error_trace. cbn [perform trace].
      rewrite Htrace, Hfst, <- app_assoc. now rewrite skipn_length_app.
    + cbn [on_finally setAbortController setStreaming setIsLoading
           with_store perform setBuddyMood trace].
      rewrite Htrace, Hfst, <- !app_assoc. now rewrite skipn_length_app.
Qed.

(** ** The turn after *)

Lemma settings_prompt (s s' : AppState) :
  settings s' = settings s -> buildSystemPrompt s' = buildSystemPrompt s.
Proof.
  unfold settings, buildSystemPrompt. intros [= _ _ Hu Hp]. now rewrite Hu, Hp.
Qed.

Lemma next_request (w w' : World) (text : jsstring) :
  settings (store w') = settings (store w) ->
  turn_request (setInput text w')
  = [ {| chat_role := system; chat_content := buildSystemPrompt (store w) |} ]
    ++ map to_chat (slice_last 20 (messages (store w'))) ++
    [ {| chat_role := user; chat_content := trim text |} ].
Proof.
  intros Hs. unfold turn_request, chatMessages. cbn [setInput store input].
  now rewrite (settings_prompt _ _ Hs).
Qed.

Lemma next_can_submit (w w' : World) (text : jsstring) :
  can_submit w = true -> settings (store w') = settings (store w) ->
  isLoading w' = false ->
  can_submit (setInput text w') = negb (is_empty (trim text)).
Proof.
  unfold can_submit, settings. intros Hcan [= Hk Hm _ _] Hl.
  cbn [setInput store input isLoading]. rewrite Hk, Hm, Hl.
  destruct (apiKey (store w)) as [k|];
    [|now rewrite andb_false_r in Hcan].
  destruct (is_empty k); [now rewrite andb_false_r in Hcan|].
  destruct (selectedModel (store w));
    [|now rewrite !andb_false_r in Hcan].
  now rewrite !andb_true_r.
Qed.

(** X13.  After a completed turn the form takes the next submission as
    soon as the input is not blank, and the request of that submission
    carries the same system prompt, then the last twenty of the stored
    messages, which now end with the message of the user and the whole
    answer of the turn before, then the new text.  The two requests are
    the only ones the two turns add. *)
Theorem next_turn_after_completion (env env2 : Env) (w : World)
  (text : jsstring) :
  can_submit w = true -> save_user env = None ->
  save_assistant env = None -> failure (turn_stream env w) = None ->
  Forall (fun m => id m <> assistantMsgId env) (messages (store w)) ->
  userMsgId env <> assistantMsgId env ->
  let full := List.concat (delivered (turn_stream env w)) in
  let w2 := setInput text (fst (handleSubmit env w)) in
  can_submit w2 = negb (is_empty (trim text)) /\
  turn_request w2
  = [ {| chat_role := system; chat_content := buildSystemPrompt (store w) |} ]
    ++ map to_chat
         (slice_last 20
            (messages (store w) ++
             [user_message env w; answer_message env full])) ++
    [ {| chat_role := user; chat_content := trim text |} ] /\
  (is_empty (trim text) = false -> save_user env2 = None ->
   requests (fst (handleSubmit env2 w2))
   = requests w ++ [turn_request w; turn_request w2]).
Proof.
  intros Hcan Hsave Hsave2 Hfail Hfresh Huser full w2.
  destruct (turn_loop env w Hcan Hsave Hfresh Huser)
    as (key & model & w8 & Hkey & Hmodel & Hh & Hm & _ & Hs & _ & _).
  fold full in Hh, Hm. rewrite Hfail, Hsave2 in Hh. cbv zeta in Hh.
  pose proof (handleSubmit_requests env w Hcan Hsave) as Hreq.
  unfold w2. rewrite Hh in *. cbn [fst] in *.
  set (w' := on_finally _) in *.
  assert (Hs' : settings (store w') = settings (store w)) by exact Hs.
  assert (Hm' : messages (store w')
                = messages (store w) ++
                  [user_message env w; answer_message env full]) by exact Hm.
  assert (Hcan2 : can_submit (setInput text w')
                  = negb (is_empty (trim text))).
  { now apply (next_can_submit w). }
  split; [exact Hcan2|]. split.
  - rewrite (next_request w w' text Hs'), Hm'. reflexivity.
  - intros Htext Hsave3.
    rewrite handleSubmit_requests; [| now rewrite Hcan2, Htext | exact Hsave3].
    change (requests (setInput text w')) with (requests w').
    rewrite Hreq, <- app_assoc. reflexivity.
Qed.

Lemma next_turn_after_completion_witness :
  let env := completing_env (lit "u1") (lit "a1") None None in
  let env2 := completing_env (lit "u2") (lit "a2") None None in
  let w2 := setInput (lit "Good to hear") (fst (handleSubmit env sample_world)) in
  map chat_content (turn_request w2)
  = [ buildSystemPrompt (store sample_world); lit "Hello";
      lit "Hi, nice to see you"; lit "How are you?";
      lit "I am fine, thanks."; lit "Good to hear" ].
Proof.
  pose proof (next_turn_after_completion
                (completing_env (lit "u1") (lit "a1") None None)
                (completing_env (lit "u2") (lit "a2") None None)
                sample_world (lit "Good to hear")) as H.
  cbv zeta in *.
  destruct H as (_ & Hr & _).
  - reflexivity.
  - reflexivity.
  - reflexivity.
  - reflexivity.
  - repeat constructor; intros [=].
  - intros [=].
  - rewrite Hr. reflexivity.
Defined.

(** X14.  After a turn that failed with an error other than an abort,
    the stored messages end with the message of the user, the partial
    answer and the error notice, and the next request sends the last
    twenty of them: the notice goes back to the model as a message of
    the assistant, and so does the partial answer, even when it is
    empty. *)
Theorem next_turn_after_failure (env : Env) (w : World) (error : js_error)
  (text : jsstring) :
  can_submit w = true -> save_user env = None ->
  Forall (fun m => id m <> assistantMsgId env) (messages (store w)) ->
  userMsgId env <> assistantMsgId env ->
  failure (turn_stream env w) = Some error ->
  name error <> lit "AbortError" ->
  let partial := List.concat (delivered (turn_stream env w)) in
  let w2 := setInput text (fst (handleSubmit env w)) in
  can_submit w2 = negb (is_empty (trim text)) /\
  turn_request w2
  = [ {| chat_role := system; chat_content := buildSystemPrompt (store w) |} ]
    ++ map to_chat
         (slice_last 20
            (messages (store w) ++
             [user_message env w; answer_message env partial;
              error_notice env error])) ++
    [ {| chat_role := user; chat_content := trim text |} ] /\
  ((List.length (messages (store w)) <= 17)%nat ->
   exists before,
     turn_request w2
     = before ++
       [ {| chat_role := assistant; chat_content := partial |};
         {| chat_role := assistant;
            chat_content := lit "Oops, something went wrong: " ++
                            message error |};
         {| chat_role := user; chat_content := trim text |} ]).
Proof.
  intros Hcan Hsave Hfresh Huser Hfail Hname partial w2.
  destruct (turn_loop env w Hcan Hsave Hfresh Huser)
    as (key & model & w8 & Hkey & Hmodel & Hh & Hm & _ & Hs & _ & _).
  fold partial in Hh, Hm. rewrite Hfail in Hh.
  unfold w2. rewrite Hh. cbn [fst].
  assert (Hneq : negb (JsString.eqb (name error) (lit "AbortError")) = true).
  { apply negb_true_iff. apply not_true_is_false. intros E.
    apply Hname. now apply jsstring_eqb_eq. }
  unfold on_error. rewrite Hneq.
  set (w' := on_finally _).
  assert (Hs' : settings (store w') = settings (store w)) by exact Hs.
  assert (Hm' : messages (store w')
                = messages (store w) ++
                  [user_message env w; answer_message env partial;
                   error_notice env error]).
  { unfold w'. simpl. rewrite Hm, <- app_assoc. reflexivity. }
  assert (Hreq : turn_request (setInput text w')
    = [ {| chat_role := system;
           chat_content := buildSystemPrompt (store w) |} ]
      ++ map to_chat
           (slice_last 20
              (messages (store w) ++
               [user_message env w; answer_message env partial;
                error_notice env error])) ++
      [ {| chat_role := user; chat_content := trim text |} ]).
  { rewrite (next_request w w' text Hs'), Hm'. reflexivity. }
  split; [now apply (next_can_submit w)|]. split; [exact Hreq|].
  intros Hlen. rewrite Hreq, slice_last_all.
  - exists ([ {| chat_role := system;
                 chat_content := buildSystemPrompt (store w) |} ] ++
            map to_chat (messages (store w) ++ [user_message env w])).
    rewrite !map_app, <- !app_assoc. reflexivity.
  - rewrite length_app. simpl. lia.
Qed.

Lemma next_turn_after_failure_witness :
  let w2 := setInput (lit "Hello?")
              (fst (handleSubmit (sample_env network_error) sample_world)) in
  map chat_content (turn_request w2)
  = [ buildSystemPrompt (store sample_world); lit "Hello";
      lit "Hi, nice to see you"; lit "How are you?"; lit "I am doing";
      lit "Oops, something went wrong: network error"; lit "Hello?" ].
Proof.
  pose proof (next_turn_after_failure (sample_env network_error) sample_world
                network_error (lit "Hello?")) as H.
  cbv zeta in *.
  destruct H as (_ & Hr & _).
  - reflexivity.
  - reflexivity.
  - repeat constructor; intros [=].
  - intros [=].
  - reflexivity.
  - intros [=].
  - rewrite Hr. reflexivity.
Defined.

(** ** The system prompt *)

(** X15.  The system prompt has four lines when the name of the user
    holds no newline: the introduction with the sentence of the chosen
    personality, the line that names the user, and two fixed lines.  The
    line of the name is empty both without a name and with the empty
    name, so that the two give the same prompt; the name is put in as it
    is.  Two stores with the same prompt have the same personality. *)
Theorem system_prompt_lines (s : AppState) :
  (forall n, userName s = Some n -> Stream.no_newline n) ->
  Stream.split_lines (buildSystemPrompt s)
  = [ lit "You are Buddy, a friendly AI companion. " ++
      personalityTraits (personality s);
      name_line s;
      lit "You remember previous conversations and care about the user's wellbeing.";
      lit "Keep responses concise but thoughtful. Show genuine interest in the user." ] /\
  buildSystemPrompt (with_userName (Some []) s)
  = buildSystemPrompt (with_userName None s) /\
  (forall s', buildSystemPrompt s' = buildSystemPrompt s ->
              personality s' = personality s).
Proof.
  intros Hname. split; [|split].
  - unfold buildSystemPrompt. fold (name_line s).
    assert (Hline : Stream.no_newline (name_line s)).
    { unfold name_line.
      destruct (userName s) as [[|c n]|] eqn:E;
        [intros [] | | intros []].
      unfold Stream.no_newline. rewrite !in_app_iff.
      intros [H|[H|H]].
      - vm_compute in H. intuition discriminate.
      - now apply (Hname (c :: n)).
      - vm_compute in H. intuition discriminate. }
    rewrite app_assoc. cbn [app].
    rewrite (StreamFacts.split_lines_cons_line
               (lit "You are Buddy, a friendly AI companion. " ++
                personalityTraits (personality s))).
    + f_equal.
      rewrite (StreamFacts.split_lines_cons_line (name_line s) _ Hline).
      reflexivity.
    + apply StreamClaims.no_newline_check.
      now destruct (personality s).
  - reflexivity.
  - intros s' H. unfold buildSystemPrompt in H.
    destruct (personality s'), (personality s); try reflexivity;
      vm_compute in H; discriminate H.
Qed.

Lemma system_prompt_lines_witness :
  nth 1 (Stream.split_lines (buildSystemPrompt (store sample_world))) []
  = lit "The user's name is Sam. Use their name occasionally.".
Proof.
  destruct (system_prompt_lines (store sample_world)) as (H & _).
  - intros n [= <-]. apply StreamClaims.no_newline_check. reflexivity.
  - rewrite H. reflexivity.
Defined.

End ChatExtras.

(* ================================================================== *)
(** * Further properties of the emotion detector *)
(* ================================================================== *)

Module EmotionExtras.
Import JsString Emotion EmotionMore EmotionFacts.
Local Open Scope Z_scope.

Lemma fold_update_best_mood (lowerText : jsstring)
  (table : list EmotionPattern) (best : option (BuddyMood * Z)) :
  forall b, fold_left (update_best lowerText) table best = Some b ->
  best = Some b \/ (In (fst b) (map mood table) /\ 0 < snd b).
Proof.
  revert best. induction table as [|p table IH]; intros best b H.
  - left. exact H.
  - cbn [fold_left] in H. apply IH in H. destruct H as [H|[H1 H2]].
    + unfold update_best in H.
      destruct (0 <? pattern_score p lowerText) eqn:Hpos; cbn [andb] in H.
      * destruct (match best with
                  | Some b0 => snd b0 <? pattern_score p lowerText
                  | None => true
                  end).
        -- injection H as <-. right. split; [left; reflexivity|].
           now apply Z.ltb_lt.
        -- left. exact H.
      * left. exact H.
    + right. split; [right; exact H1 | exact H2].
Qed.

Lemma detectEmotion_table (text : jsstring) (m : BuddyMood) :
  detectEmotion text = Some m -> In m table_moods.
Proof.
  unfold detectEmotion, detectEmotion_with, best_match.
  destruct (fold_left _ _ _) as [b|] eqn:H; [|discriminate].
  intros [= <-]. apply fold_update_best_mood in H.
  destruct H as [H|[H _]]; [discriminate | exact H].
Qed.

(** X16.  [detectEmotion] only names moods of the pattern table, so
    never idle, talking or sleepy, and [analyzeStreamingEmotion] gives
    back the current mood or one of excited, sad, surprised, happy,
    confused and embarrassed: it never moves the mascot to thinking,
    idle, talking or sleepy, and asking again with its own answer as the
    current mood changes nothing. *)
Theorem streaming_moods (text : jsstring) (current : BuddyMood) :
  (forall m, detectEmotion text = Some m ->
             In m [excited; sad; surprised; happy; confused; embarrassed;
                   thinking]) /\
  (analyzeStreamingEmotion text current = current \/
   In (analyzeStreamingEmotion text current)
      [excited; sad; surprised; happy; confused; embarrassed]) /\
  analyzeStreamingEmotion text (analyzeStreamingEmotion text current)
  = analyzeStreamingEmotion text current.
Proof.
  split; [exact (detectEmotion_table text)|].
  unfold analyzeStreamingEmotion, analyzeStreamingEmotion_with.
  fold (detectEmotion text).
  destruct (Z.of_nat (List.length text) <? 50); [now split; [left|]|].
  destruct (detectEmotion text) as [d|] eqn:Hd; [|now split; [left|]].
  pose proof (detectEmotion_table text d Hd) as Hin.
  destruct (negb (BuddyMood_eqb d thinking)) eqn:Hth; [|now split; [left|]].
  split; [|reflexivity]. right.
  assert (Hstrong : In d strong_moods).
  { apply filter_In. split; assumption. }
  exact Hstrong.
Qed.

(** ** Texts without letters *)

Lemma lower_unit_letterless (c : N) :
  letterless c = true ->
  Forall (fun u => is_latin_letter u = false) (lower_unit c).
Proof.
  unfold letterless, is_latin_letter, lower_unit. intros H.
  apply andb_true_iff in H. destruct H as [H H3].
  apply andb_true_iff in H. destruct H as [H1 H2].
  apply negb_true_iff in H1, H2, H3.
  apply orb_false_iff in H1. destruct H1 as [Hlow Hup].
  rewrite Hup, H2, H3.
  destruct (((192 <=? c)%N && (c <=? 214)%N) || ((216 <=? c)%N && (c <=? 222)%N))
    eqn:Hl.
  - constructor; [|constructor].
    assert (192 <= c <= 222)%N.
    { apply orb_true_iff in Hl.
      destruct Hl as [Hl|Hl]; apply andb_true_iff in Hl; destruct Hl as [A B];
        apply N.leb_le in A, B; lia. }
    apply orb_false_iff. split; apply andb_false_iff.
    + right. apply N.leb_gt. lia.
    + right. apply N.leb_gt. lia.
  - constructor; [|constructor]. now rewrite Hlow, Hup.
Qed.

Lemma toLowerCase_letterless (text : jsstring) :
  Forall (fun c => letterless c = true) text ->
  Forall (fun u => is_latin_letter u = false) (toLowerCase text).
Proof.
  unfold toLowerCase. induction 1 as [|c text Hc _ IH]; [constructor|].
  cbn [flat_map]. apply Forall_app. split; [|exact IH].
  now apply lower_unit_letterless.
Qed.

Lemma small_letter_not_unit (c k : N) :
  is_latin_letter c = false -> ((97 <=? k) && (k <=? 122))%N = true ->
  (c =? k)%N = false /\ (canonicalize c =? canonicalize k)%N = false.
Proof.
  unfold is_latin_letter, canonicalize. intros Hc Hk.
  apply orb_false_iff in Hc. destruct Hc as [Hlow Hup].
  rewrite Hlow, Hk.
  apply andb_true_iff in Hk. destruct Hk as [K1 K2].
  apply N.leb_le in K1, K2.
  assert (Hc1 : ~ (97 <= c <= 122)%N).
  { intros [A B]. apply N.leb_le in A, B. now rewrite A, B in Hlow. }
  assert (Hc2 : ~ (65 <= c <= 90)%N).
  { intros [A B]. apply N.leb_le in A, B. now rewrite A, B in Hup. }
  split; apply N.eqb_neq; lia.
Qed.

Lemma includes_letterless (lowerText phrase : jsstring) :
  Forall (fun u => is_latin_letter u = false) lowerText ->
  starts_with_letter phrase = true ->
  includes lowerText phrase = false.
Proof.
  destruct phrase as [|k phrase]; [discriminate|]. cbn [starts_with_letter].
  intros Htext Hk. induction Htext as [|c text Hc _ IH]; [reflexivity|].
  cbn [includes startsWith].
  destruct (small_letter_not_unit c k Hc Hk) as [-> _]. exact IH.
Qed.

Lemma regex_search_letterless (kw : jsstring) (prev : option N)
  (lowerText : jsstring) :
  Forall (fun u => is_latin_letter u = false) lowerText ->
  starts_with_letter kw = true ->
  regex_search kw prev lowerText = false.
Proof.
  destruct kw as [|k kw]; [discriminate|]. cbn [starts_with_letter].
  intros Htext Hk. revert prev.
  induction Htext as [|c text Hc _ IH]; intros prev.
  - cbn [regex_search]. unfold match_at. cbn [match_chars].
    now rewrite andb_false_r.
  - cbn [regex_search]. unfold match_at at 1. cbn [match_chars].
    destruct (small_letter_not_unit c k Hc Hk) as [_ ->].
    rewrite andb_false_r. apply IH.
Qed.

Lemma fold_left_never {A} (f : A -> bool) (w : Z) (l : list A) (acc : Z) :
  Forall (fun x => f x = false) l ->
  fold_left (fun s x => if f x then s + w else s) l acc = acc.
Proof.
  intros H. revert acc. induction H as [|x l Hx _ IH]; intros acc.
  - reflexivity.
  - cbn [fold_left]. rewrite Hx. apply IH.
Qed.

Lemma pattern_score_letterless (p : EmotionPattern) (lowerText : jsstring) :
  Forall (fun u => is_latin_letter u = false) lowerText ->
  forallb starts_with_letter (phrases p) = true ->
  forallb starts_with_letter (keywords p) = true ->
  pattern_score p lowerText = 0.
Proof.
  intros Htext Hp Hk. unfold pattern_score.
  rewrite (fold_left_never (includes lowerText)).
  - apply (fold_left_never (fun kw => keyword_test kw lowerText)).
    apply Forall_forall. intros kw Hin.
    apply regex_search_letterless; [exact Htext|].
    rewrite forallb_forall in Hk. now apply Hk.
  - apply Forall_forall. intros phrase Hin.
    apply includes_letterless; [exact Htext|].
    rewrite forallb_forall in Hp. now apply Hp.
Qed.

Lemma fold_update_best_zero (lowerText : jsstring)
  (table : list EmotionPattern) :
  Forall (fun p => pattern_score p lowerText = 0) table ->
  fold_left (update_best lowerText) table None = None.
Proof.
  induction 1 as [|p table Hp _ IH]; [reflexivity|].
  cbn [fold_left]. unfold update_best at 2. rewrite Hp. exact IH.
Qed.

(** X17.  A text without a Basic Latin letter (and without the two code
    units that lower-casing turns into one) matches no phrase and no
    keyword, whatever its length: [detectEmotion] finds nothing and
    [analyzeStreamingEmotion] keeps the current mood.  Every phrase and
    keyword of the table starts with a small letter. *)
Theorem letterless_text_is_neutral (text : jsstring) (current : BuddyMood) :
  Forall (fun c => letterless c = true) text ->
  detectEmotion text = None /\
  analyzeStreamingEmotion text current = current.
Proof.
  intros Htext.
  assert (Hnone : detectEmotion text = None).
  { unfold detectEmotion, detectEmotion_with, best_match.
    rewrite fold_update_best_zero; [reflexivity|].
    pose proof (toLowerCase_letterless text Htext) as Hlow.
    assert (Htable : forallb (fun p =>
                forallb starts_with_letter (phrases p) &&
                forallb starts_with_letter (keywords p))
              EMOTION_PATTERNS = true) by reflexivity.
    rewrite forallb_forall in Htable.
    apply Forall_forall. intros p Hin.
    specialize (Htable p Hin). apply andb_true_iff in Htable.
    now apply pattern_score_letterless. }
  split; [exact Hnone|].
  unfold analyzeStreamingEmotion, analyzeStreamingEmotion_with.
  fold (detectEmotion text). rewrite Hnone.
  now destruct (Z.of_nat (List.length text) <? 50).
Qed.

Lemma letterless_text_is_neutral_witness :
  (50 <= List.length sample_digits)%nat /\
  analyzeStreamingEmotion sample_digits talking = talking.
Proof.
  split; [vm_compute; lia|].
  apply (letterless_text_is_neutral sample_digits talking).
  unfold sample_digits. rewrite Forall_forall. apply forallb_forall.
  reflexivity.
Defined.

End EmotionExtras.

(* ================================================================== *)
(** * Properties of the model listing *)
(* ================================================================== *)

Module ModelsExtras.
Import JsString Json Stream StreamMore Models.

Lemma filter_models_filter (models : list json) :
  Forall (fun m => breaks_filter m = false) models ->
  filter_models models = Normal (filter text_model models).
Proof.
  induction 1 as [|m models Hm _ IH]; [reflexivity|].
  cbn [filter_models filter]. rewrite IH.
  unfold breaks_filter in Hm. unfold text_model.
  destruct (is_text_model m) as [keep|]; [reflexivity | discriminate].
Qed.

Lemma filter_models_breaks (models : list json) :
  Exists (fun m => breaks_filter m = true) models ->
  filter_models models = ThrowTypeError.
Proof.
  induction 1 as [m models Hm | m models _ IH]; cbn [filter_models].
  - unfold breaks_filter in Hm.
    destruct (is_text_model m); [discriminate | reflexivity].
  - rewrite IH. now destruct (is_text_model m).
Qed.

Lemma filter_twice {A} (f : A -> bool) (l : list A) :
  filter f (filter f l) = filter f l.
Proof.
  induction l as [|x l IH]; [reflexivity|].
  cbn [filter]. destruct (f x) eqn:E; [|exact IH].
  cbn [filter]. now rewrite E, IH.
Qed.

Lemma existsb_text (items : list json) :
  existsb (fun x => match x with
                    | JString s => JsString.eqb s (lit "text")
                    | _ => false
                    end) items = true <->
  In (JString (lit "text")) items.
Proof.
  rewrite existsb_exists. split.
  - intros (x & Hin & Hx). destruct x; try discriminate.
    apply jsstring_eqb_eq in Hx. now subst.
  - intros Hin. exists (JString (lit "text")). split; [exact Hin|].
    reflexivity.
Qed.

Lemma text_model_declares (model : json) :
  text_model model = true <-> declares_text model.
Proof.
  unfold text_model, declares_text, is_text_model. split.
  - intros H.
    destruct model; try discriminate;
      cbn [get_property] in *; try discriminate.
    destruct (lookup members (lit "architecture")) as [arch|];
      [|discriminate].
    destruct arch; try discriminate; cbn [get_property] in *;
      try discriminate.
    destruct (lookup members0 (lit "output_modalities")) as [mods|] eqn:Hl;
      [|discriminate].
    exists (JObject members0), mods. split; [reflexivity|].
    split; [exact Hl|].
    destruct mods; try discriminate; cbn [includes_text] in H.
    + right. exists s. now split.
    + left. exists items. split; [reflexivity|]. now apply existsb_text.
  - intros (arch & mods & Ha & Hm & Hcase).
    destruct model; try discriminate. rewrite Ha.
    destruct arch; try discriminate. rewrite Hm.
    destruct Hcase as [(items & -> & Hin) | (s & -> & Hs)];
      cbn [includes_text].
    + now apply existsb_text.
    + exact Hs.
Qed.

(** X18.  For a successful response whose [data] member is a list on
    which the filter does not raise, [fetchModels] resolves with the
    entries that name text among their output modalities, in the order
    of the listing and unchanged; an entry without architecture or
    without output modalities is left out.  Fetching the returned list
    again would return all of it. *)
Theorem fetchModels_keeps_text_models (response : Response) (data : json)
  (models : list json) :
  ok response = true -> json_result response = Some data ->
  get_property data (lit "data") = Some (JArray models) ->
  Forall (fun m => breaks_filter m = false) models ->
  fetchModels (FetchResolves response)
  = ModelList (filter text_model models) /\
  (forall m, In m (filter text_model models) <->
             In m models /\ declares_text m) /\
  (forall m, get_property m (lit "architecture") = None ->
             text_model m = false) /\
  filter_models (filter text_model models)
  = Normal (filter text_model models).
Proof.
  intros Hok Hjson Hdata Hfine.
  split; [|split; [|split]].
  - unfold fetchModels. rewrite Hok, Hjson. cbn [negb].
    destruct data; try discriminate. rewrite Hdata.
    now rewrite (filter_models_filter models Hfine).
  - intros m. rewrite filter_In, text_model_declares. reflexivity.
  - intros m Hm. unfold text_model, is_text_model. rewrite Hm.
    now destruct m.
  - rewrite filter_models_filter.
    + now rewrite filter_twice.
    + apply Forall_forall. intros m Hin. apply filter_In in Hin.
      rewrite Forall_forall in Hfine. now apply Hfine.
Qed.

Lemma fetchModels_keeps_text_models_witness :
  fetchModels (listing_response sample_listing)
  = ModelList [ chat_entry (lit "a/chat") [JString (lit "text")];
                chat_entry (lit "d/both")
                  [JString (lit "image"); JString (lit "text")] ].
Proof.
  destruct (fetchModels_keeps_text_models
              {| ok := true; status := 200;
                 json_result := JSON_parse sample_listing; body := None |}
              (JObject [(lit "data", JArray sample_entries)])
              sample_entries) as [H _].
  - reflexivity.
  - vm_compute. reflexivity.
  - reflexivity.
  - repeat constructor.
  - exact H.
Defined.

(** X19.  A listing that is not as expected makes the whole call raise
    a [TypeError] and yields no model at all: a body that is [null], a
    [data] member that is missing or not a list, or one entry on which
    the filter raises, such as an entry that is [null], wherever it
    stands in the list. *)
Theorem fetchModels_malformed_listing (response : Response) (data : json) :
  ok response = true -> json_result response = Some data ->
  data = JNull \/
  (forall models, get_property data (lit "data") <> Some (JArray models)) \/
  (exists models,
     get_property data (lit "data") = Some (JArray models) /\
     (In JNull models \/
      Exists (fun m => breaks_filter m = true) models)) ->
  fetchModels (FetchResolves response) = ModelsThrew TypeError.
Proof.
  intros Hok Hjson Hcase. unfold fetchModels. rewrite Hok, Hjson.
  cbn [negb].
  destruct Hcase as [-> | [Hno | (models & Hdata & Hbad)]].
  - reflexivity.
  - destruct data; try reflexivity.
    destruct (get_property (JObject members) (lit "data")) as [v|] eqn:E;
      [|reflexivity].
    destruct v; try reflexivity. now destruct (Hno items).
  - destruct data; try discriminate. rewrite Hdata.
    rewrite filter_models_breaks; [reflexivity|].
    destruct Hbad as [Hnull | Hex]; [|exact Hex].
    apply Exists_exists. exists JNull. now split.
Qed.

Lemma fetchModels_malformed_listing_witness :
  fetchModels (listing_response sample_broken_listing) = ModelsThrew TypeError.
Proof.
  apply (fetchModels_malformed_listing _
           (JObject [(lit "data", JArray
              [ chat_entry (lit "a/chat") [JString (lit "text")]; JNull ])])).
  - reflexivity.
  - vm_compute. reflexivity.
  - right. right. eexists. split; [reflexivity|]. left. right. now left.
Defined.

Lemma fetchModels_failed_thrown (response : Response) :
  ok response = false ->
  json_result response <> Some JNull ->
  fetchModels (FetchResolves response)
  = ModelsThrew
      (match server_message response with
       | Some v =>
           if truthy (Some v) then new_error v
           else NewError (JString (lit "Failed to fetch models: " ++
                                   of_N (status response)))
       | None => NewError (JString (lit "Failed to fetch models: " ++
                                    of_N (status response)))
       end).
Proof.
  intros Hok Hnot. unfold fetchModels. rewrite Hok. cbn [negb].
  assert (Hm : error_message (match json_result response with
                              | Some v => v
                              | None => JObject []
                              end)
               = Normal (server_message response)).
  { unfold server_message.
    destruct (json_result response) as [error|]; [|reflexivity].
    apply StreamExtras.error_message_normal. congruence. }
  rewrite Hm.
  destruct (server_message response) as [v|]; [|reflexivity].
  now destruct (truthy (Some v)).
Qed.

(** X20.  A failed response makes [fetchModels] throw.  When its body
    is not the JSON value null and the message that the server reported
    counts as true, the error is made from it by [new Error], which
    converts it to a string: an error with that message for a string
    and for every other value that can be converted, and the
    [TypeError] of the conversion for an object with a member
    [toString] or an array that holds one.  Without such a message it
    is the error with the words Failed to fetch models and the status.
    A body that is the JSON value null gives the [TypeError] of the
    property read.  A response that is fine but whose body is no JSON
    lets the rejection of the body through. *)
Theorem fetchModels_failed_response (response : Response) :
  (ok response = false -> json_result response <> Some JNull ->
   (forall v, server_message response = Some v ->
              truthy (Some v) = true -> to_string_raises v = false ->
              fetchModels (FetchResolves response)
              = ModelsThrew (NewError v)) /\
   (forall v, server_message response = Some v ->
              truthy (Some v) = true -> to_string_raises v = true ->
              fetchModels (FetchResolves response) = ModelsThrew TypeError) /\
   (forall s, server_message response = Some (JString s) -> s <> [] ->
              fetchModels (FetchResolves response)
              = ModelsThrew (NewError (JString s))) /\
   (forall members,
      server_message response = Some (JObject members) ->
      lookup members (lit "toString") <> None ->
      fetchModels (FetchResolves response) = ModelsThrew TypeError) /\
   (truthy (server_message response) = false ->
    fetchModels (FetchResolves response)
    = ModelsThrew (NewError (JString (lit "Failed to fetch models: " ++
                                      of_N (status response)))))) /\
  (ok response = false -> json_result response = Some JNull ->
   fetchModels (FetchResolves response) = ModelsThrew TypeError) /\
  (ok response = true -> json_result response = None ->
   fetchModels (FetchResolves response) = BodyRejected).
Proof.
  split; [|split].
  - intros Hok Hnot.
    rewrite (fetchModels_failed_thrown response Hok Hnot).
    split; [|split; [|split; [|split]]].
    + intros v -> Ht Hs. rewrite Ht. unfold new_error. now rewrite Hs.
    + intros v -> Ht Hs. rewrite Ht. unfold new_error. now rewrite Hs.
    + intros s -> Hs. destruct s as [|c s]; [congruence|]. reflexivity.
    + intros members -> Hl. cbn [truthy]. unfold new_error.
      cbn [to_string_raises].
      destruct (lookup members (lit "toString")); [reflexivity|congruence].
    + intros Ht. destruct (server_message response) as [v|]; [|reflexivity].
      now rewrite Ht.
  - intros Hok Hnull. unfold fetchModels. now rewrite Hok, Hnull.
  - intros Hok Hnone. unfold fetchModels. now rewrite Hok, Hnone.
Qed.

Lemma fetchModels_failed_response_witness :
  fetchModels (FetchResolves sample_failed_response)
  = ModelsThrew (NewError (JString (lit "Rate limit exceeded"))) /\
  fetchModels (FetchResolves sample_unprintable_response)
  = ModelsThrew TypeError.
Proof.
  split.
  - destruct (fetchModels_failed_response sample_failed_response)
      as [H _].
    destruct H as (_ & _ & Hs & _).
    + reflexivity.
    + discriminate.
    + apply (Hs (lit "Rate limit exceeded")); [reflexivity|discriminate].
  - destruct (fetchModels_failed_response sample_unprintable_response)
      as [H _].
    destruct H as (_ & _ & _ & Ho & _).
    + reflexivity.
    + discriminate.
    + apply (Ho [(lit "toString", JNumber false 0 0)]);
        [reflexivity|discriminate].
Defined.

End ModelsExtras.

(* ================================================================== *)
(** * Properties of the message store *)
(* ================================================================== *)

Module MemoryExtras.
Import JsString Emotion Chat ChatMore Memory.
Import Sorting.Sorted Sorting.Permutation.
Local Open Scope N_scope.

(** ** The order of the index *)

Lemma key_ltb_irrefl (a : jsstring) : key_ltb a a = false.
Proof.
  induction a as [|x a IH]; [reflexivity|].
  cbn [key_ltb]. now rewrite N.ltb_irrefl, N.eqb_refl, IH.
Qed.

Lemma key_ltb_connected (a b : jsstring) :
  key_ltb a b = false -> key_ltb b a = false -> a = b.
Proof.
  revert b. induction a as [|x a IH]; intros [|y b]; cbn [key_ltb];
    try easy.
  intros H1 H2.
  apply orb_false_iff in H1, H2. destruct H1 as [L1 E1], H2 as [L2 E2].
  apply N.ltb_ge in L1, L2. assert (x = y) by lia. subst y.
  rewrite N.eqb_refl in E1, E2. cbn [andb] in E1, E2.
  now rewrite (IH b E1 E2).
Qed.

Lemma key_ltb_trans (a b c : jsstring) :
  key_ltb a b = true -> key_ltb b c = true -> key_ltb a c = true.
Proof.
  revert b c. induction a as [|x a IH]; intros [|y b] [|z c];
    cbn [key_ltb]; try easy.
  intros H1 H2. apply orb_true_iff in H1, H2. apply orb_true_iff.
  destruct H1 as [H1|H1], H2 as [H2|H2].
  - left. apply N.ltb_lt in H1, H2. apply N.ltb_lt. lia.
  - apply andb_true_iff in H2. destruct H2 as [H2 _].
    apply N.eqb_eq in H2. subst z. now left.
  - apply andb_true_iff in H1. destruct H1 as [H1 _].
    apply N.eqb_eq in H1. subst y. now left.
  - apply andb_true_iff in H1, H2.
    destruct H1 as [H1 K1], H2 as [H2 K2].
    apply N.eqb_eq in H1, H2. subst y z. right.
    rewrite N.eqb_refl. cbn [andb]. now apply (IH b c).
Qed.

Lemma key_ltb_asym (a b : jsstring) :
  key_ltb a b = true -> key_ltb b a = false.
Proof.
  intros H. destruct (key_ltb b a) eqn:E; [|reflexivity].
  pose proof (key_ltb_trans a b a H E) as C.
  now rewrite key_ltb_irrefl in C.
Qed.

Lemma index_leb_total (a b : Message) :
  index_leb a b = false -> index_leb b a = true.
Proof.
  unfold index_leb. intros H. apply orb_false_iff in H.
  destruct H as [H1 H2]. apply N.ltb_ge in H1.
  destruct (N.eqb_spec (timestamp a) (timestamp b)) as [E|E].
  - cbn [andb] in H2. apply negb_false_iff in H2.
    rewrite E, N.eqb_refl, N.ltb_irrefl. cbn [orb andb].
    now rewrite (key_ltb_asym _ _ H2).
  - apply orb_true_iff. left. apply N.ltb_lt. lia.
Qed.

Lemma index_leb_trans (a b c : Message) :
  index_leb a b = true -> index_leb b c = true -> index_leb a c = true.
Proof.
  unfold index_leb. intros H1 H2.
  apply orb_true_iff in H1, H2. apply orb_true_iff.
  destruct H1 as [H1|H1], H2 as [H2|H2].
  - left. apply N.ltb_lt in H1, H2. apply N.ltb_lt. lia.
  - apply andb_true_iff in H2. destruct H2 as [H2 _].
    apply N.eqb_eq in H2. left. now rewrite <- H2.
  - apply andb_true_iff in H1. destruct H1 as [H1 _].
    apply N.eqb_eq in H1. left. now rewrite H1.
  - apply andb_true_iff in H1, H2.
    destruct H1 as [H1 K1], H2 as [H2 K2].
    apply N.eqb_eq in H1, H2. right. rewrite H1, H2, N.eqb_refl.
    cbn [andb]. apply negb_true_iff in K1, K2. apply negb_true_iff.
    destruct (key_ltb (id c) (id a)) eqn:E; [|reflexivity].
    destruct (key_ltb (id b) (id c)) eqn:F.
    + now rewrite (key_ltb_trans _ _ _ F E) in K1.
    + rewrite (key_ltb_connected _ _ K2 F) in E. congruence.
Qed.

Lemma index_leb_antisym (a b : Message) :
  index_leb a b = true -> index_leb b a = true ->
  timestamp a = timestamp b /\ id a = id b.
Proof.
  unfold index_leb. intros H1 H2.
  apply orb_true_iff in H1, H2.
  destruct H1 as [H1|H1], H2 as [H2|H2];
    try (apply N.ltb_lt in H1); try (apply N.ltb_lt in H2);
    try (apply andb_true_iff in H1; destruct H1 as [H1 K1];
         apply N.eqb_eq in H1);
    try (apply andb_true_iff in H2; destruct H2 as [H2 K2];
         apply N.eqb_eq in H2); try lia.
  split; [exact H1|].
  apply negb_true_iff in K1, K2. now apply key_ltb_connected.
Qed.

Lemma insert_perm (record : Message) (l : list Message) :
  Permutation (insert record l) (record :: l).
Proof.
  induction l as [|m l IH]; [reflexivity|].
  cbn [insert]. destruct (index_leb record m); [reflexivity|].
  rewrite IH. apply perm_swap.
Qed.

Lemma getAllFromIndex_perm (db : MessageDB) :
  Permutation (getAllFromIndex db) db.
Proof.
  induction db as [|m db IH]; [reflexivity|].
  unfold getAllFromIndex in *. cbn [fold_right].
  rewrite insert_perm. now constructor.
Qed.

Lemma insert_sorted (record : Message) (l : list Message) :
  Sorted index_le l -> Sorted index_le (insert record l).
Proof.
  induction 1 as [|m l Hs IH Hhd]; cbn [insert].
  - repeat constructor.
  - destruct (index_leb record m) eqn:E.
    + constructor; [now constructor|]. now constructor.
    + constructor; [exact IH|].
      apply index_leb_total in E.
      destruct l as [|m' l]; cbn [insert].
      * now constructor.
      * destruct (index_leb record m'); constructor; [exact E|].
        now inversion Hhd.
Qed.

Lemma getAllFromIndex_sorted (db : MessageDB) :
  StronglySorted index_le (getAllFromIndex db).
Proof.
  apply Sorted_StronglySorted.
  - intros a b c. apply index_leb_trans.
  - induction db as [|m db IH]; [constructor|].
    unfold getAllFromIndex in *. cbn [fold_right]. now apply insert_sorted.
Qed.

Lemma same_id_same_record (l : list Message) (a b : Message) :
  NoDup (map id l) -> In a l -> In b l -> id a = id b -> a = b.
Proof.
  induction l as [|m l IH]; [easy|].
  cbn [map]. intros Hnd Ha Hb Hid. inversion Hnd as [|? ? Hnot Hnd']; subst.
  destruct Ha as [<-|Ha], Hb as [<-|Hb].
  - reflexivity.
  - exfalso. apply Hnot. rewrite Hid. now apply in_map.
  - exfalso. apply Hnot. rewrite <- Hid. now apply in_map.
  - now apply IH.
Qed.

Lemma sorted_listing_unique (l1 l2 : list Message) :
  StronglySorted index_le l1 -> StronglySorted index_le l2 ->
  Permutation l1 l2 -> NoDup (map id l1) -> l1 = l2.
Proof.
  revert l2. induction l1 as [|a l1 IH]; intros l2 S1 S2 P Hnd.
  - apply Permutation_nil in P. now subst.
  - destruct l2 as [|b l2].
    + apply Permutation_sym, Permutation_nil in P. discriminate.
    + assert (a = b) as <-.
      { inversion S1 as [|? ? S1' F1]; subst.
        inversion S2 as [|? ? S2' F2]; subst.
        assert (Ha : In a (b :: l2)).
        { apply (Permutation_in _ P). now left. }
        assert (Hb : In b (a :: l1)).
        { apply (Permutation_in _ (Permutation_sym P)). now left. }
        destruct Ha as [<-|Ha]; [reflexivity|].
        destruct Hb as [<-|Hb]; [reflexivity|].
        rewrite Forall_forall in F1, F2.
        destruct (index_leb_antisym a b (F1 b Hb) (F2 a Ha)) as [_ Hid].
        apply (same_id_same_record (a :: l1)); auto.
        - now left.
        - now right. }
      f_equal. apply IH.
      * now inversion S1.
      * now inversion S2.
      * now apply Permutation_cons_inv in P.
      * cbn [map] in Hnd. now inversion Hnd.
Qed.

(** X21.  The listing by timestamp holds exactly the records of the
    store, ordered by timestamp and among equal timestamps by id, so
    that it does not depend on the order in which the records came in:
    two messages saved within one millisecond come back in the order of
    their random ids, which need not be the order in which they were
    saved. *)
Theorem index_listing_is_sorted (db : MessageDB) :
  Permutation (getAllFromIndex db) db /\
  StronglySorted index_le (getAllFromIndex db) /\
  (forall db', Permutation db db' -> NoDup (map id db) ->
               getAllFromIndex db' = getAllFromIndex db) /\
  (forall a b r1 t1 r2 t2 now,
     key_ltb b a = true ->
     getAllFromIndex
       (fst (saveMessage b now r2 t2 (fst (saveMessage a now r1 t1 []))))
     = [ {| id := b; role := r2; content := t2; timestamp := now |};
         {| id := a; role := r1; content := t1; timestamp := now |} ]).
Proof.
  split; [apply getAllFromIndex_perm|].
  split; [apply getAllFromIndex_sorted|]. split.
  - intros db' P Hnd. symmetry. apply sorted_listing_unique.
    + apply getAllFromIndex_sorted.
    + apply getAllFromIndex_sorted.
    + rewrite !getAllFromIndex_perm. exact P.
    + apply (Permutation_NoDup (l := map id db)); [|exact Hnd].
      apply Permutation_map. symmetry. apply getAllFromIndex_perm.
  - intros a b r1 t1 r2 t2 now Hlt.
    unfold saveMessage, put. cbn [fst filter id].
    assert (Hne : JsString.eqb a b = false).
    { destruct (JsString.eqb a b) eqn:E; [|reflexivity].
      apply jsstring_eqb_eq in E. subst b.
      now rewrite key_ltb_irrefl in Hlt. }
    rewrite Hne. cbn [negb getAllFromIndex fold_right insert].
    unfold index_leb. cbn [timestamp id].
    rewrite N.ltb_irrefl, N.eqb_refl. cbn [orb andb].
    now rewrite (key_ltb_asym _ _ Hlt).
Qed.

Lemma index_listing_is_sorted_witness :
  getAllFromIndex (rev sample_db) = getAllFromIndex sample_db.
Proof.
  destruct (index_listing_is_sorted sample_db) as (_ & _ & H & _).
  apply H.
  - apply Permutation_rev.
  - repeat constructor; simpl; intuition discriminate.
Defined.

(** ** The window of [getRecentMessages] *)

Lemma getAllFromIndex_length (db : MessageDB) :
  List.length (getAllFromIndex db) = List.length db.
Proof. apply Permutation_length, getAllFromIndex_perm. Qed.

Lemma slice_from_suffix {A} (start : Z) (l : list A) :
  exists older, l = older ++ slice_from start l.
Proof.
  unfold slice_from. eexists. symmetry. apply firstn_skipn.
Qed.

Lemma slice_from_length {A} (start : Z) (l : list A) :
  List.length (slice_from start l)
  = if (start <? 0)%Z
    then Nat.min (Z.to_nat (- start)) (List.length l)
    else (List.length l - Z.to_nat start)%nat.
Proof.
  unfold slice_from. rewrite length_skipn.
  destruct (Z.ltb_spec start 0); lia.
Qed.

(** X22.  [getRecentMessages] returns the end of the listing by
    timestamp: the latest [limit] records for a positive limit, or all
    of them when there are fewer, and the latest fifty when called
    without a limit.  The limit zero does not give an empty list but
    every record, and a negative limit drops that many of the oldest
    records and returns the rest. *)
Theorem recent_messages_window (limit : Z) (db : MessageDB) :
  let all := getAllFromIndex db in
  let recent := getRecentMessages (Some limit) db in
  (exists older, all = older ++ recent) /\
  ((0 < limit)%Z ->
   List.length recent = Nat.min (Z.to_nat limit) (List.length db)) /\
  (limit = 0%Z -> recent = all) /\
  ((limit < 0)%Z ->
   List.length recent = (List.length db - Z.to_nat (- limit))%nat) /\
  getRecentMessages None db = getRecentMessages (Some 50%Z) db.
Proof.
  intros all recent. unfold recent, getRecentMessages. fold all.
  split; [apply slice_from_suffix|].
  split; [|split; [|split; [|reflexivity]]].
  - intros Hpos. rewrite slice_from_length. unfold all.
    rewrite getAllFromIndex_length.
    destruct (Z.ltb_spec (- limit) 0); [|lia].
    now rewrite Z.opp_involutive.
  - intros ->. unfold slice_from. cbn [Z.opp Z.ltb Z.compare].
    replace (Z.to_nat (Z.min 0 (Z.of_nat (List.length all)))) with O by lia.
    reflexivity.
  - intros Hneg. rewrite slice_from_length. unfold all.
    rewrite getAllFromIndex_length.
    destruct (Z.ltb_spec (- limit) 0); [lia|reflexivity].
Qed.

Lemma recent_messages_window_witness :
  List.length (getRecentMessages (Some 1%Z) sample_db) = 1%nat /\
  getRecentMessages (Some 0%Z) sample_db = getAllFromIndex sample_db.
Proof.
  destruct (recent_messages_window 1 sample_db) as (_ & H1 & _).
  destruct (recent_messages_window 0 sample_db) as (_ & _ & H0 & _).
  split.
  - rewrite H1; [reflexivity | lia].
  - apply H0. reflexivity.
Defined.

(** ** Saving *)

Lemma insert_latest (record : Message) (l : list Message) :
  Forall (fun m => timestamp m < timestamp record) l ->
  insert record l = l ++ [record].
Proof.
  induction 1 as [|m l Hm _ IH]; [reflexivity|].
  cbn [insert app]. unfold index_leb.
  replace (timestamp record <? timestamp m) with false
    by (symmetry; apply N.ltb_ge; lia).
  replace (timestamp record =? timestamp m) with false
    by (symmetry; apply N.eqb_neq; lia).
  cbn [orb andb]. now rewrite IH.
Qed.

Lemma filter_fresh (key : jsstring) (db : MessageDB) :
  Forall (fun m => id m <> key) db ->
  filter (fun m => negb (JsString.eqb (id m) key)) db = db.
Proof.
  induction 1 as [|m db Hm _ IH]; [reflexivity|].
  cbn [filter].
  destruct (JsString.eqb (id m) key) eqn:E.
  - apply jsstring_eqb_eq in E. contradiction.
  - cbn [negb]. now rewrite IH.
Qed.

Lemma listing_after_save (newId : jsstring) (now : N) (r : Role)
  (text : jsstring) (db : MessageDB) :
  Forall (fun m => timestamp m < now) db ->
  Forall (fun m => id m <> newId) db ->
  getAllFromIndex (fst (saveMessage newId now r text db))
  = getAllFromIndex db ++
    [ {| id := newId; role := r; content := text; timestamp := now |} ].
Proof.
  intros Hold Hfresh. unfold saveMessage, put. cbn [fst id].
  rewrite (filter_fresh newId db Hfresh).
  unfold getAllFromIndex. cbn [fold_right]. apply insert_latest.
  cbn [timestamp].
  eapply Permutation_Forall; [|exact Hold].
  symmetry. apply getAllFromIndex_perm.
Qed.

(** X23.  A message saved with a timestamp later than every stored one
    is the last record of the listing, behind the records that were
    there, of which only one with the same id is replaced; so it is the
    last of the recent messages for every positive limit.  With a fresh
    id nothing is replaced: the listing grows by exactly the new
    record. *)
Theorem saved_message_comes_last (newId : jsstring) (now : N) (r : Role)
  (text : jsstring) (db : MessageDB) (limit : Z) :
  Forall (fun m => timestamp m < now) db ->
  let record := {| id := newId; role := r; content := text;
                   timestamp := now |} in
  let db' := fst (saveMessage newId now r text db) in
  snd (saveMessage newId now r text db) = newId /\
  getAllFromIndex db'
  = getAllFromIndex
      (filter (fun m => negb (JsString.eqb (id m) newId)) db) ++ [record] /\
  (Forall (fun m => id m <> newId) db ->
   getAllFromIndex db' = getAllFromIndex db ++ [record]) /\
  ((0 < limit)%Z ->
   exists earlier, getRecentMessages (Some limit) db' = earlier ++ [record]).
Proof.
  intros Hold record db'.
  assert (Hlist : getAllFromIndex db'
                  = getAllFromIndex
                      (filter (fun m => negb (JsString.eqb (id m) newId)) db)
                    ++ [record]).
  { unfold db', saveMessage, put. cbn [fst id].
    unfold getAllFromIndex. cbn [fold_right]. apply insert_latest.
    cbn [timestamp].
    eapply Permutation_Forall.
    - symmetry. apply getAllFromIndex_perm.
    - apply Forall_forall. intros m Hin. apply filter_In in Hin.
      rewrite Forall_forall in Hold. now apply Hold. }
  split; [reflexivity|]. split; [exact Hlist|]. split.
  - intros Hfresh. now apply listing_after_save.
  - intros Hpos. unfold getRecentMessages, slice_from.
    rewrite Hlist.
    set (l := getAllFromIndex _).
    replace (- limit <? 0)%Z with true by (symmetry; apply Z.ltb_lt; lia).
    rewrite length_app. cbn [List.length].
    set (k := Z.to_nat _).
    assert (Hk : (k <= List.length l)%nat) by (unfold k; lia).
    exists (skipn k l). rewrite skipn_app.
    replace (k - List.length l)%nat with O by lia. reflexivity.
Qed.

Lemma saved_message_comes_last_witness :
  getRecentMessages (Some 2%Z)
    (fst (saveMessage (lit "k0") 20 user (lit "How are you?") sample_db))
  = [ {| id := lit "k2"; role := assistant;
         content := lit "Hi, nice to see you"; timestamp := 2 |};
      {| id := lit "k0"; role := user; content := lit "How are you?";
         timestamp := 20 |} ].
Proof.
  destruct (saved_message_comes_last (lit "k0") 20 user (lit "How are you?")
              sample_db 2) as (_ & _ & _ & H).
  - repeat constructor.
  - destruct H as (earlier & H); [lia|].
    rewrite H. f_equal.
    assert (E : List.length (earlier ++
                  [ {| id := lit "k0"; role := user;
                       content := lit "How are you?"; timestamp := 20 |} ])
                = 2%nat) by (rewrite <- H; reflexivity).
    assert (E' : removelast (earlier ++
                  [ {| id := lit "k0"; role := user;
                       content := lit "How are you?"; timestamp := 20 |} ])
                 = [ {| id := lit "k2"; role := assistant;
                        content := lit "Hi, nice to see you";
                        timestamp := 2 |} ])
      by (rewrite <- H; reflexivity).
    now rewrite removelast_last in E'.
Defined.

(** ** Loading on mount *)

Lemma record_eta (m : Message) :
  {| id := id m; role := role m; content := content m;
     timestamp := timestamp m |} = m.
Proof. now destruct m. Qed.

Lemma load_loop (stored : list Message) (w : World) :
  let w' := fold_left (fun w msg =>
                         if negb (is_system (role msg)) then
                           addMessage {| id := id msg; role := role msg;
                                         content := content msg;
                                         timestamp := timestamp msg |} w
                         else w) stored w in
  messages (store w')
  = messages (store w) ++
    filter (fun m => negb (is_system (role m))) stored /\
  settings (store w') = settings (store w) /\
  buddyMood (store w') = buddyMood (store w) /\
  trace w' = trace w /\ input w' = input w /\ isLoading w' = isLoading w.
Proof.
  revert w. induction stored as [|m stored IH]; intros w.
  - cbn. rewrite app_nil_r. repeat split.
  - cbn [fold_left filter].
    destruct (negb (is_system (role m))).
    + destruct (IH (addMessage {| id := id m; role := role m;
                                  content := content m;
                                  timestamp := timestamp m |} w))
        as (Hm & Hrest).
      cbv zeta in *. rewrite Hm. split; [|exact Hrest].
      rewrite record_eta. cbn. now rewrite <- app_assoc.
    + apply IH.
Qed.

(** X24.  On mount, a component whose store holds no message gets the
    latest hundred stored records without those of the system, in the
    order of their timestamps and with their stored ids; a component
    whose store holds a message already loads nothing.  Loading changes
    neither the settings nor the mood and has no effect outside. *)
Theorem loadMessages_restores (db : MessageDB) (w : World) :
  (messages (store w) = [] ->
   messages (store (loadMessages db w))
   = filter (fun m => negb (is_system (role m)))
            (getRecentMessages (Some 100%Z) db) /\
   (List.length (messages (store (loadMessages db w))) <= 100)%nat /\
   Forall (fun m => role m <> system) (messages (store (loadMessages db w))))
  /\
  (messages (store w) <> [] -> loadMessages db w = w) /\
  settings (store (loadMessages db w)) = settings (store w) /\
  buddyMood (store (loadMessages db w)) = buddyMood (store w) /\
  trace (loadMessages db w) = trace w.
Proof.
  pose proof (load_loop (getRecentMessages (Some 100%Z) db) w) as H.
  cbv zeta in H. destruct H as (Hm & Hs & Hmood & Ht & _).
  unfold loadMessages.
  destruct (messages (store w)) as [|m0 ms] eqn:E.
  - split; [|split; [congruence|auto]].
    intros _. rewrite Hm. cbn [app]. split; [reflexivity|]. split.
    + etransitivity; [apply filter_length_le|].
      destruct (recent_messages_window 100 db) as (_ & Hlen & _).
      cbv zeta in Hlen. rewrite Hlen; lia.
    + apply Forall_forall. intros m Hin. apply filter_In in Hin.
      destruct Hin as [_ Hr]. intros Hsys. now rewrite Hsys in Hr.
  - split; [discriminate|]. split; [reflexivity|]. auto.
Qed.

Lemma loadMessages_restores_witness :
  messages (store (loadMessages sample_db (mounted sample_world)))
  = rev sample_db.
Proof.
  destruct (loadMessages_restores sample_db (mounted sample_world))
    as (H & _).
  destruct H as (H & _); [reflexivity|].
  rewrite H. reflexivity.
Defined.

(** ** A turn, then a reload *)

Lemma filter_no_system (l : list Message) :
  Forall (fun m => role m <> system) l ->
  filter (fun m => negb (is_system (role m))) l = l.
Proof.
  induction 1 as [|m l Hm _ IH]; [reflexivity|].
  cbn [filter]. rewrite IH. now destruct (role m).
Qed.

Lemma load_on_mount (db : MessageDB) (w : World) :
  messages (store (loadMessages db (mounted w)))
  = filter (fun m => negb (is_system (role m)))
           (getRecentMessages (Some 100%Z) db).
Proof.
  pose proof (load_loop (getRecentMessages (Some 100%Z) db) (mounted w))
    as H.
  cbv zeta in H. destruct H as (Hm & _).
  unfold loadMessages. cbn [mounted with_store store set_messages messages].
  change (messages (store (mounted w))) with (@nil Message) in Hm.
  exact Hm.
Qed.

Lemma last_hundred {A} (l : list A) :
  slice_from (-100) l = skipn (List.length l - 100) l.
Proof.
  unfold slice_from. cbn [Z.ltb Z.compare]. f_equal. lia.
Qed.

Lemma last_hundred_app {A} (l saved : list A) :
  (List.length saved <= 100)%nat ->
  slice_from (-100) (l ++ saved)
  = skipn (List.length l + List.length saved - 100) l ++ saved.
Proof.
  intros Hlen. rewrite last_hundred, length_app, skipn_app.
  replace (List.length l + List.length saved - 100 - List.length l)%nat
    with O by lia.
  reflexivity.
Qed.

(** X25.  What a reload shows of a turn whose saves succeeded, when the
    saves draw fresh ids, different from each other, and increasing
    times later than that of every stored record.  The records of the
    turn are the text of the user and, when the stream completed, the
    whole answer; when the stream failed, the partial answer and the
    error notice were only in the store of the page and are gone.  The
    reloaded conversation is the stored records that are not of the
    system, as far as they fit with the records of the turn into the
    latest hundred, followed by the records of the turn: with a hundred
    stored records and a completed turn the two oldest are not shown.
    When all fit and no stored record is of the system, it is the whole
    stored conversation followed by the records of the turn.  The ids
    are those drawn by [saveMessage], not those the messages had on the
    page. *)
Theorem reload_after_turn (env : Env) (w : World) (db : MessageDB)
  (stamp : nat -> jsstring * N) :
  can_submit w = true -> save_user env = None -> save_assistant env = None ->
  Forall (fun m => timestamp m < snd (stamp 0%nat)) db ->
  snd (stamp 0%nat) < snd (stamp 1%nat) ->
  Forall (fun m => id m <> fst (stamp 0%nat) /\ id m <> fst (stamp 1%nat))
         db ->
  fst (stamp 0%nat) <> fst (stamp 1%nat) ->
  let w' := fst (handleSubmit env w) in
  let asked := {| id := fst (stamp 0%nat); role := user;
                  content := trim (input w);
                  timestamp := snd (stamp 0%nat) |} in
  let answered := {| id := fst (stamp 1%nat); role := assistant;
                     content := List.concat (delivered (turn_stream env w));
                     timestamp := snd (stamp 1%nat) |} in
  let saved := asked :: match failure (turn_stream env w) with
                        | Some _ => []
                        | None => [answered]
                        end in
  let reloaded :=
    messages (store (loadMessages (persist (new_effects w w') stamp 0 db)
                                  (mounted w'))) in
  reloaded
  = filter (fun m => negb (is_system (role m)))
           (skipn (List.length db + List.length saved - 100)
                  (getAllFromIndex db)) ++ saved /\
  (List.length reloaded <= 100)%nat /\
  ((List.length db + List.length saved <= 100)%nat ->
   Forall (fun m => role m <> system) db ->
   reloaded = getAllFromIndex db ++ saved).
Proof.
  intros Hcan Hsave Hsave2 Hold Hclock Hfresh Hids w' asked answered saved
    reloaded.
  destruct (ChatExtras.turn_trace env w Hcan Hsave)
    as (key & model & _ & _ & Heff).
  fold w' in Heff.
  assert (Hfresh0 : Forall (fun m => id m <> fst (stamp 0%nat)) db).
  { eapply Forall_impl; [|exact Hfresh]. now intros m [H _]. }
  assert (Hfresh1 : Forall (fun m => id m <> fst (stamp 1%nat)) db).
  { eapply Forall_impl; [|exact Hfresh]. now intros m [_ H]. }
  assert (Hput : fst (saveMessage (fst (stamp 0%nat)) (snd (stamp 0%nat))
                        user (trim (input w)) db) = asked :: db).
  { unfold saveMessage, put. cbn [fst id]. now rewrite filter_fresh. }
  assert (Hlist : getAllFromIndex (asked :: db)
                  = getAllFromIndex db ++ [asked]).
  { rewrite <- Hput. now apply listing_after_save. }
  assert (Hall : getAllFromIndex (persist (new_effects w w') stamp 0 db)
                 = getAllFromIndex db ++ saved).
  { rewrite Heff, Hsave2. unfold saved.
    destruct (failure (turn_stream env w)) as [error|].
    - cbn [app persist]. rewrite Hput. exact Hlist.
    - cbn [app persist]. rewrite Hput.
      rewrite listing_after_save.
      + rewrite Hlist, <- app_assoc. reflexivity.
      + constructor; [exact Hclock|].
        eapply Forall_impl; [|exact Hold]. cbv beta. intros m Hm. lia.
      + constructor; [exact Hids | exact Hfresh1]. }
  assert (Hsaved : (List.length saved <= 100)%nat).
  { unfold saved. destruct (failure (turn_stream env w)); cbn; lia. }
  assert (Hroles : filter (fun m => negb (is_system (role m))) saved = saved).
  { apply filter_no_system. unfold saved.
    destruct (failure (turn_stream env w)); repeat constructor; discriminate. }
  assert (Hreload :
    reloaded
    = filter (fun m => negb (is_system (role m)))
             (skipn (List.length db + List.length saved - 100)
                    (getAllFromIndex db)) ++ saved).
  { unfold reloaded. rewrite load_on_mount. unfold getRecentMessages.
    change (- 100)%Z with (-100)%Z. rewrite Hall.
    rewrite (last_hundred_app _ _ Hsaved), getAllFromIndex_length.
    now rewrite filter_app, Hroles. }
  split; [exact Hreload|]. split.
  - rewrite Hreload, length_app.
    pose proof (filter_length_le (fun m => negb (is_system (role m)))
                  (skipn (List.length db + List.length saved - 100)
                         (getAllFromIndex db))) as Hle.
    rewrite length_skipn, getAllFromIndex_length in Hle. lia.
  - intros Hfit Hnone. rewrite Hreload.
    replace (List.length db + List.length saved - 100)%nat with O by lia.
    cbn [skipn]. rewrite filter_no_system; [reflexivity|].
    eapply Permutation_Forall; [|exact Hnone].
    symmetry. apply getAllFromIndex_perm.
Qed.

Lemma reload_after_turn_witness :
  let w' := fst (handleSubmit (sample_env network_error) sample_world) in
  map content
    (messages (store (loadMessages
                        (persist (new_effects sample_world w') sample_stamp 0
                                 sample_db)
                        (mounted w'))))
  = [lit "Hello"; lit "Hi, nice to see you"; lit "How are you?"] /\
  map content (messages (store w'))
  = [lit "Hello"; lit "Hi, nice to see you"; lit "How are you?";
     lit "I am doing"; lit "Oops, something went wrong: network error"].
Proof.
  split; [|reflexivity].
  pose proof (reload_after_turn (sample_env network_error) sample_world
                sample_db sample_stamp) as H.
  cbv zeta in H. destruct H as (_ & _ & H).
  - reflexivity.
  - reflexivity.
  - reflexivity.
  - repeat constructor.
  - reflexivity.
  - repeat constructor; intros [=].
  - intros [=].
  - rewrite H.
    + reflexivity.
    + simpl. lia.
    + repeat constructor; intros [=].
Defined.

End MemoryExtras.

(* ================================================================== *)
(** * Properties of the PIN lock *)
(* ================================================================== *)

Module PinLockExtras.
Import JsString PinLock.
Local Open Scope N_scope.

(** ** The counter and the lockout *)

Lemma verifyPin_alone (digest : jsstring -> jsstring) (now1 now2 : N)
  (pin storedHash : jsstring) (st : LockState) :
  verifyPin digest now1 now2 pin storedHash st
  = let (locked, st1) := isLockedOut now1 st in
    if locked then (false, st1)
    else
      match split_on 58 storedHash with
      | salt :: expectedHash :: _ =>
          if Chat.is_empty salt || Chat.is_empty expectedHash
          then (false, st1)
          else
            if JsString.eqb (hashPin digest pin salt) expectedHash then
              (true, {| failedAttempts := 0;
                        lockoutUntil := lockoutUntil st1 |})
            else
              (false,
               {| failedAttempts := failedAttempts st1 + 1;
                  lockoutUntil := if MAX_ATTEMPTS <=? failedAttempts st1 + 1
                                  then now2 + LOCKOUT_DURATION_MS
                                  else lockoutUntil st1 |})
      | _ => (false, st1)
      end.
Proof.
  unfold verifyPin, verifyPin_start.
  destruct (isLockedOut now1 st) as [[] st1]; [reflexivity|].
  destruct (split_on 58 storedHash) as [|salt [|expected rest]];
    try reflexivity.
  now destruct (Chat.is_empty salt || Chat.is_empty expected).
Qed.

Lemma isLockedOut_consistent (now : N) (st : LockState) :
  consistent st -> consistent (snd (isLockedOut now st)).
Proof.
  intros H. unfold isLockedOut.
  destruct (now <? lockoutUntil st); [exact H|].
  destruct (0 <? lockoutUntil st); [|exact H].
  left. cbn. lia.
Qed.

Lemma isLockedOut_open (now : N) (st : LockState) :
  consistent st -> fst (isLockedOut now st) = false ->
  lockoutUntil (snd (isLockedOut now st)) = 0 /\
  failedAttempts (snd (isLockedOut now st)) < 5.
Proof.
  intros H. unfold isLockedOut.
  destruct (now <? lockoutUntil st); [discriminate|].
  destruct (N.ltb_spec 0 (lockoutUntil st)) as [Hpos|Hzero]; intros _.
  - cbn. lia.
  - cbn. destruct H as [[H1 H2]|[H1 H2]]; lia.
Qed.

Lemma verifyPin_consistent (digest : jsstring -> jsstring) (now1 now2 : N)
  (pin storedHash : jsstring) (st : LockState) :
  consistent st ->
  consistent (snd (verifyPin digest now1 now2 pin storedHash st)).
Proof.
  intros H. rewrite verifyPin_alone.
  pose proof (isLockedOut_consistent now1 st H) as Hc.
  pose proof (isLockedOut_open now1 st H) as Ho.
  destruct (isLockedOut now1 st) as [locked st1]. cbn [fst snd] in *.
  destruct locked; [exact Hc|].
  destruct (Ho eq_refl) as [Hu Hf].
  destruct (split_on 58 storedHash) as [|salt [|expected rest]];
    try exact Hc.
  destruct (Chat.is_empty salt || Chat.is_empty expected); [exact Hc|].
  destruct (JsString.eqb _ _); cbn [snd].
  - left. cbn. lia.
  - unfold MAX_ATTEMPTS, LOCKOUT_DURATION_MS.
    destruct (N.leb_spec 5 (failedAttempts st1 + 1)).
    + right. cbn. lia.
    + left. cbn. lia.
Qed.

Lemma after_call_consistent (digest : jsstring -> jsstring) (st : LockState)
  (c : call) :
  consistent st -> consistent (after_call digest st c).
Proof.
  intros H. destruct c as [now1 now2 pin storedHash|now|now1 now2|];
    cbn [after_call].
  - now apply verifyPin_consistent.
  - now apply isLockedOut_consistent.
  - unfold getLockoutRemaining.
    pose proof (isLockedOut_consistent now1 st H) as Hc.
    destruct (isLockedOut now1 st) as [locked st1].
    now destruct locked.
  - exact H.
Qed.

Lemma after_calls_consistent (digest : jsstring -> jsstring)
  (calls : list call) (st : LockState) :
  consistent st -> consistent (fold_left (after_call digest) calls st).
Proof.
  revert st. induction calls as [|c calls IH]; intros st H; [exact H|].
  cbn [fold_left]. apply IH. now apply after_call_consistent.
Qed.

Lemma verifyPin_start_open (now : N) (pin storedHash salt expected : jsstring)
  (st : LockState) :
  readable storedHash salt expected -> lockoutUntil st = 0 ->
  verifyPin_start now pin storedHash st
  = (Awaiting {| pending_pin := pin; pending_salt := salt;
                 pending_expected := expected |}, st).
Proof.
  intros (rest & Hsplit & Hsalt & Hexp) Hopen.
  unfold verifyPin_start, isLockedOut. rewrite Hopen.
  replace (now <? 0) with false by (symmetry; apply N.ltb_ge; lia).
  cbn [N.ltb N.compare]. rewrite Hsplit.
  destruct salt as [|c salt]; [congruence|].
  destruct expected as [|e expected]; [congruence|].
  reflexivity.
Qed.

Lemma eqb_false_of_neq (a b : jsstring) : a <> b -> JsString.eqb a b = false.
Proof.
  intros H. destruct (JsString.eqb a b) eqn:E; [|reflexivity].
  apply jsstring_eqb_eq in E. contradiction.
Qed.

(** X26.  As long as the calls of the lock screen do not overlap, each
    verification being finished before the next call starts, the counter
    of failed attempts is five exactly when a lockout is set and below
    five otherwise, whatever the clock and the digest do: between zero
    and five attempts remain, and none remains exactly when a lockout is
    set.  Calls that overlap break this.  The lockout is only looked at
    when a verification starts: one that is awaiting its digest accepts
    the right PIN in every state, a lockout included, and sets the
    counter back to zero without lifting the lockout.  So when a wrong
    and the right PIN are both started with one attempt left, and both
    finish in that order, the first sets the lockout and the second
    still returns true, leaving a lockout with five attempts
    remaining. *)
Theorem lock_state_invariant (digest : jsstring -> jsstring)
  (calls : list call) :
  let st := after_calls digest calls in
  (((lockoutUntil st = 0 /\ failedAttempts st < 5) \/
    (0 < lockoutUntil st /\ failedAttempts st = 5)) /\
   (0 <= getRemainingAttempts st <= 5)%Z /\
   (getRemainingAttempts st = 0%Z <-> 0 < lockoutUntil st)) /\
  (forall p now st',
     hashPin digest (pending_pin p) (pending_salt p) = pending_expected p ->
     verifyPin_finish digest now p st'
     = (true, {| failedAttempts := 0; lockoutUntil := lockoutUntil st' |})) /\
  (forall storedHash salt expected wrong right start1 start2 now1 now2 st0,
     readable storedHash salt expected ->
     digest (salt ++ wrong) <> expected ->
     digest (salt ++ right) = expected ->
     lockoutUntil st0 = 0 -> failedAttempts st0 = 4 ->
     let locked := {| failedAttempts := 5; lockoutUntil := now1 + 30000 |} in
     let unlocked := {| failedAttempts := 0;
                        lockoutUntil := now1 + 30000 |} in
     exists p1 p2,
       verifyPin_start start1 wrong storedHash st0 = (Awaiting p1, st0) /\
       verifyPin_start start2 right storedHash st0 = (Awaiting p2, st0) /\
       verifyPin_finish digest now1 p1 st0 = (false, locked) /\
       verifyPin_finish digest now2 p2 locked = (true, unlocked) /\
       getRemainingAttempts unlocked = 5%Z /\
       0 < lockoutUntil unlocked).
Proof.
  intros st. split; [|split].
  - assert (H : consistent st).
    { apply after_calls_consistent. left. cbn. lia. }
    split; [exact H|].
    unfold getRemainingAttempts, MAX_ATTEMPTS.
    destruct H as [[H1 H2]|[H1 H2]]; lia.
  - intros p now st' Hright. unfold verifyPin_finish. rewrite Hright.
    now rewrite (proj2 (jsstring_eqb_eq _ _) eq_refl).
  - intros storedHash salt expected wrong right start1 start2 now1 now2 st0
      Hread Hwrong Hright Hopen Hfour locked unlocked.
    exists {| pending_pin := wrong; pending_salt := salt;
              pending_expected := expected |},
           {| pending_pin := right; pending_salt := salt;
              pending_expected := expected |}.
    split; [now apply verifyPin_start_open|].
    split; [now apply verifyPin_start_open|].
    split; [|split; [|split]].
    + unfold verifyPin_finish, hashPin. cbn [pending_pin pending_salt
                                                pending_expected].
      rewrite (eqb_false_of_neq _ _ Hwrong), Hfour. reflexivity.
    + unfold verifyPin_finish, hashPin. cbn [pending_pin pending_salt
                                                pending_expected].
      rewrite Hright. now rewrite (proj2 (jsstring_eqb_eq _ _) eq_refl).
    + reflexivity.
    + unfold unlocked. cbn [lockoutUntil]. lia.
Qed.

Lemma lock_state_invariant_witness :
  let stored := lit "ab:hab1234" in
  let st0 := {| failedAttempts := 4; lockoutUntil := 0 |} in
  exists p1 p2,
    verifyPin_start 100 (lit "0000") stored st0 = (Awaiting p1, st0) /\
    verifyPin_start 101 (lit "1234") stored st0 = (Awaiting p2, st0) /\
    verifyPin_finish sample_digest 102 p2
      (snd (verifyPin_finish sample_digest 102 p1 st0))
    = (true, {| failedAttempts := 0; lockoutUntil := 30102 |}).
Proof.
  destruct (lock_state_invariant sample_digest []) as (_ & _ & H).
  destruct (H (lit "ab:hab1234") (lit "ab") (lit "hab1234") (lit "0000")
              (lit "1234") 100 101 102 102
              {| failedAttempts := 4; lockoutUntil := 0 |})
    as (p1 & p2 & H1 & H2 & H3 & H4 & _).
  - exists []. repeat split; discriminate.
  - discriminate.
  - reflexivity.
  - reflexivity.
  - reflexivity.
  - exists p1, p2. cbv zeta. split; [exact H1|]. split; [exact H2|].
    rewrite H3. exact H4.
Defined.

(** X27.  While a lockout is set and its time has not come, every
    verification fails at once, without looking at the PIN, the right
    one included, and leaves the counter and the lockout as they are.
    [getLockoutRemaining] then reads the clock a second time and gives
    the time from that reading to the end of the lockout in whole
    seconds, rounded up: at least one exactly when the second reading is
    before the end, zero or less when the clock has passed the end
    between the two readings, and at most thirty when the end is at
    most thirty seconds after the second reading.  The first check at
    or after the end lifts the lockout and gives all five attempts
    back. *)
Theorem lockout_blocks_then_expires (digest : jsstring -> jsstring)
  (st : LockState) (now1 now2 : N) (pin storedHash : jsstring) :
  0 < lockoutUntil st ->
  (now1 < lockoutUntil st ->
   verifyPin_start now1 pin storedHash st = (Settled false, st) /\
   verifyPin digest now1 now2 pin storedHash st = (false, st) /\
   isLockedOut now1 st = (true, st) /\
   snd (getLockoutRemaining now1 now2 st) = st /\
   let remaining := fst (getLockoutRemaining now1 now2 st) in
   (1000 * (remaining - 1)
    < Z.of_N (lockoutUntil st) - Z.of_N now2
    <= 1000 * remaining)%Z /\
   (now2 < lockoutUntil st <-> (1 <= remaining)%Z) /\
   (lockoutUntil st <= now2 + 30000 -> (remaining <= 30)%Z)) /\
  (lockoutUntil st <= now1 ->
   isLockedOut now1 st = (false, initial) /\
   getLockoutRemaining now1 now2 st = (0%Z, initial) /\
   getRemainingAttempts (snd (isLockedOut now1 st)) = 5%Z).
Proof.
  intros Hset. split.
  - intros Hbefore.
    assert (Hl : isLockedOut now1 st = (true, st)).
    { unfold isLockedOut.
      now replace (now1 <? lockoutUntil st) with true
        by (symmetry; apply N.ltb_lt; lia). }
    split; [unfold verifyPin_start; now rewrite Hl|].
    split; [rewrite verifyPin_alone; now rewrite Hl|].
    split; [exact Hl|].
    unfold getLockoutRemaining. rewrite Hl. cbn [negb fst snd].
    split; [reflexivity|]. cbv zeta.
    unfold ceil_thousandth.
    set (x := (Z.of_N (lockoutUntil st) - Z.of_N now2)%Z).
    pose proof (Z.div_mod (- x) 1000 ltac:(lia)) as Hd.
    pose proof (Z.mod_pos_bound (- x) 1000 ltac:(lia)) as Hm.
    assert (Hx : now2 < lockoutUntil st <-> (0 < x)%Z)
      by (unfold x; lia).
    assert (Hy : lockoutUntil st <= now2 + 30000 -> (x <= 30000)%Z)
      by (unfold x; lia).
    split; [lia|]. split; [|lia].
    rewrite Hx. lia.
  - intros Hafter.
    assert (Hl : isLockedOut now1 st = (false, initial)).
    { unfold isLockedOut.
      replace (now1 <? lockoutUntil st) with false
        by (symmetry; apply N.ltb_ge; lia).
      now replace (0 <? lockoutUntil st) with true
        by (symmetry; apply N.ltb_lt; lia). }
    split; [exact Hl|]. split.
    + unfold getLockoutRemaining. now rewrite Hl.
    + rewrite Hl. reflexivity.
Qed.

Lemma lockout_blocks_then_expires_witness :
  let st := {| failedAttempts := 5; lockoutUntil := 31000 |} in
  fst (getLockoutRemaining 1500 1500 st) = 30%Z /\
  fst (getLockoutRemaining 30000 30500 st) = 1%Z /\
  fst (getLockoutRemaining 30999 31000 st) = 0%Z /\
  isLockedOut 31000 st = (false, initial).
Proof.
  pose proof (lockout_blocks_then_expires sample_digest
                {| failedAttempts := 5; lockoutUntil := 31000 |}
                1500 1500 [] []) as H1.
  pose proof (lockout_blocks_then_expires sample_digest
                {| failedAttempts := 5; lockoutUntil := 31000 |}
                30000 30500 [] []) as H2.
  pose proof (lockout_blocks_then_expires sample_digest
                {| failedAttempts := 5; lockoutUntil := 31000 |}
                30999 31000 [] []) as H3.
  pose proof (lockout_blocks_then_expires sample_digest
                {| failedAttempts := 5; lockoutUntil := 31000 |}
                31000 31000 [] []) as H4.
  cbv zeta in *. split; [|split; [|split]].
  - destruct H1 as [H1 _]; [reflexivity|].
    destruct H1 as (_ & _ & _ & _ & Hb & _); [reflexivity|].
    cbn [lockoutUntil] in Hb. lia.
  - destruct H2 as [H2 _]; [reflexivity|].
    destruct H2 as (_ & _ & _ & _ & Hb & _); [reflexivity|].
    cbn [lockoutUntil] in Hb. lia.
  - destruct H3 as [H3 _]; [reflexivity|].
    destruct H3 as (_ & _ & _ & _ & Hb & _); [reflexivity|].
    cbn [lockoutUntil] in Hb. lia.
  - destruct H4 as [_ H4]; [reflexivity|].
    destruct H4 as (H4 & _); [cbn; lia|]. exact H4.
Defined.

(** ** Wrong PINs *)

Lemma wrong_pin_step (digest : jsstring -> jsstring) (now1 now2 : N)
  (pin storedHash salt expected : jsstring) (st : LockState) :
  readable storedHash salt expected ->
  digest (salt ++ pin) <> expected ->
  lockoutUntil st = 0 ->
  verifyPin digest now1 now2 pin storedHash st
  = (false,
     {| failedAttempts := failedAttempts st + 1;
        lockoutUntil := if 5 <=? failedAttempts st + 1
                        then now2 + 30000 else 0 |}).
Proof.
  intros (rest & Hsplit & Hsalt & Hexp) Hwrong Hopen.
  rewrite verifyPin_alone. unfold isLockedOut. rewrite Hopen.
  replace (now1 <? 0) with false by (symmetry; apply N.ltb_ge; lia).
  cbn [N.ltb N.compare]. rewrite Hsplit.
  destruct salt as [|c salt]; [congruence|].
  destruct expected as [|e expected]; [congruence|].
  cbn [Chat.is_empty orb]. unfold hashPin.
  destruct (JsString.eqb (digest ((c :: salt) ++ pin)) (e :: expected)) eqn:E.
  - apply jsstring_eqb_eq in E. contradiction.
  - rewrite Hopen. reflexivity.
Qed.

(** X28.  Against a readable stored hash, each wrong PIN counts one
    failed attempt, and the fifth in a row sets the lockout to thirty
    seconds after the clock of that attempt; the times of the attempts
    do not matter otherwise.  A stored hash without a colon, or with
    nothing before or after it, is never matched and never counted, so
    it cannot cause a lockout. *)
Theorem wrong_pins_lock (digest : jsstring -> jsstring)
  (storedHash salt expected : jsstring) (attempts : list (N * N * jsstring))
  (last_check last_now : N) (last_pin : jsstring) :
  readable storedHash salt expected ->
  Forall (fun a => digest (salt ++ snd a) <> expected)
         (attempts ++ [(last_check, last_now, last_pin)]) ->
  List.length attempts = 4%nat ->
  let calls := map (fun a => VerifyPin (fst (fst a)) (snd (fst a)) (snd a)
                                       storedHash) in
  after_calls digest (calls (attempts ++ [(last_check, last_now, last_pin)]))
  = {| failedAttempts := 5; lockoutUntil := last_now + 30000 |} /\
  (forall k, (k <= 4)%nat ->
     after_calls digest (calls (firstn k attempts))
     = {| failedAttempts := N.of_nat k; lockoutUntil := 0 |}) /\
  (forall bad now1 now2 pin st,
     (forall s e rest, split_on 58 bad = s :: e :: rest ->
                       s = [] \/ e = []) ->
     verifyPin digest now1 now2 pin bad st
     = (false, snd (isLockedOut now1 st))).
Proof.
  intros Hread Hwrong Hlen calls.
  assert (Hsteps : forall l : list (N * N * jsstring),
            Forall (fun a => digest (salt ++ snd a) <> expected) l ->
            (List.length l <= 4)%nat ->
            after_calls digest (calls l)
            = {| failedAttempts := N.of_nat (List.length l);
                 lockoutUntil := 0 |}).
  { intros l. induction l as [|a l IH] using rev_ind; intros Hw Hl.
    - reflexivity.
    - apply Forall_app in Hw. destruct Hw as [Hw Ha].
      rewrite length_app in Hl. cbn [List.length] in Hl.
      unfold after_calls, calls in *.
      rewrite map_app, fold_left_app. cbn [map fold_left after_call].
      rewrite IH; [|exact Hw|lia].
      rewrite (wrong_pin_step digest _ _ _ storedHash salt expected);
        [|exact Hread|now inversion Ha|reflexivity].
      cbn [snd failedAttempts]. rewrite length_app. cbn [List.length].
      replace (5 <=? N.of_nat (List.length l) + 1) with false
        by (symmetry; apply N.leb_gt; lia).
      f_equal. lia. }
  split; [|split].
  - apply Forall_app in Hwrong. destruct Hwrong as [Hw Ha].
    unfold after_calls, calls in *.
    rewrite map_app, fold_left_app. cbn [map fold_left after_call].
    rewrite Hsteps; [|exact Hw|lia].
    rewrite (wrong_pin_step digest _ _ _ storedHash salt expected);
      [|exact Hread|now inversion Ha|reflexivity].
    cbn [snd failedAttempts fst]. rewrite Hlen. reflexivity.
  - intros k Hk. rewrite Hsteps.
    + rewrite length_firstn. f_equal. lia.
    + apply Forall_app in Hwrong. destruct Hwrong as [Hw _].
      apply Forall_forall. intros a Hin.
      rewrite Forall_forall in Hw. apply Hw.
      rewrite <- (firstn_skipn k attempts). apply in_or_app. now left.
    + rewrite length_firstn. lia.
  - intros bad now1 now2 pin st Hbad. rewrite verifyPin_alone.
    destruct (isLockedOut now1 st) as [locked st1]. cbn [snd].
    destruct locked; [reflexivity|].
    destruct (split_on 58 bad) as [|s [|e rest]] eqn:E; try reflexivity.
    destruct (Hbad s e rest eq_refl) as [-> | ->]; cbn [Chat.is_empty orb].
    + reflexivity.
    + now rewrite orb_true_r.
Qed.

Lemma wrong_pins_lock_witness :
  let stored := lit "ab:h-ab-1234" in
  after_calls sample_digest
    (map (fun now => VerifyPin now now (lit "0000") stored)
         [100; 200; 300; 400; 500])
  = {| failedAttempts := 5; lockoutUntil := 30500 |}.
Proof.
  destruct (wrong_pins_lock sample_digest (lit "ab:h-ab-1234") (lit "ab")
              (lit "h-ab-1234")
              [(100, 100, lit "0000"); (200, 200, lit "0000");
               (300, 300, lit "0000"); (400, 400, lit "0000")]
              500 500 (lit "0000")) as (H & _).
  - exists []. repeat split; discriminate.
  - repeat constructor; discriminate.
  - reflexivity.
  - exact H.
Defined.

(** ** Creating and checking a PIN *)

Lemma hex_bytes_check :
  forallb (fun i => let s := padStart 2 48 (toString16 (N.of_nat i)) in
                    (List.length s =? 2)%nat && forallb is_hex s)
          (seq 0 256) = true.
Proof. vm_compute. reflexivity. Qed.

Lemma byte_hex (b : N) :
  b < 256 ->
  List.length (padStart 2 48 (toString16 b)) = 2%nat /\
  forallb is_hex (padStart 2 48 (toString16 b)) = true.
Proof.
  intros Hb. pose proof hex_bytes_check as H.
  rewrite forallb_forall in H.
  specialize (H (N.to_nat b)). rewrite N2Nat.id in H.
  cbv zeta in H. rewrite andb_true_iff, Nat.eqb_eq in H.
  apply H. apply in_seq. lia.
Qed.

Lemma generateSalt_format (random : nat -> N) :
  List.length (generateSalt random) = 32%nat /\
  forallb is_hex (generateSalt random) = true.
Proof.
  unfold generateSalt.
  assert (H : forall l : list nat,
            List.length (List.concat
              (map (fun i => padStart 2 48 (toString16 (random i mod 256)))
                   l)) = (2 * List.length l)%nat /\
            forallb is_hex (List.concat
              (map (fun i => padStart 2 48 (toString16 (random i mod 256)))
                   l)) = true).
  { induction l as [|i l [IH1 IH2]]; [split; reflexivity|].
    cbn [map List.concat].
    destruct (byte_hex (random i mod 256)) as [B1 B2].
    { apply N.mod_lt. discriminate. }
    rewrite length_app, forallb_app, B1, B2, IH1, IH2.
    cbn [List.length]. split; [lia | reflexivity]. }
  destruct (H (seq 0 SALT_LENGTH)) as [H1 H2].
  rewrite H1, length_seq. split; [reflexivity | exact H2].
Qed.

Lemma split_on_without (sep : N) (s : jsstring) :
  ~ In sep s -> split_on sep s = [s].
Proof.
  induction s as [|c s IH]; [reflexivity|].
  intros Hin. cbn [split_on].
  destruct (N.eqb_spec c sep) as [->|Hne].
  - exfalso. apply Hin. now left.
  - rewrite IH; [reflexivity|]. intros H. apply Hin. now right.
Qed.

Lemma split_on_first (sep : N) (a b : jsstring) :
  ~ In sep a -> split_on sep (a ++ sep :: b) = a :: split_on sep b.
Proof.
  induction a as [|c a IH]; intros Hin.
  - cbn [app split_on]. now rewrite N.eqb_refl.
  - cbn [app split_on].
    destruct (N.eqb_spec c sep) as [->|Hne].
    + exfalso. apply Hin. now left.
    + rewrite IH; [reflexivity|]. intros H. apply Hin. now right.
Qed.

Lemma hex_is_no_colon (s : jsstring) :
  forallb is_hex s = true -> ~ In 58 s.
Proof.
  rewrite forallb_forall. intros H Hin. specialize (H 58 Hin).
  discriminate.
Qed.

Lemma all_digits_spec (pin : jsstring) :
  all_digits pin = true <->
  pin <> [] /\ Forall (fun c => 48 <= c <= 57) pin.
Proof.
  unfold all_digits. rewrite andb_true_iff, negb_true_iff, forallb_forall,
    Forall_forall.
  split; intros [H1 H2].
  - split; [now destruct pin|].
    intros c Hc. specialize (H2 c Hc). unfold is_digit in H2.
    apply andb_true_iff in H2. destruct H2 as [A B].
    apply N.leb_le in A, B. lia.
  - split; [now destruct pin|].
    intros c Hc. specialize (H2 c Hc). unfold is_digit.
    apply andb_true_iff. split; apply N.leb_le; lia.
Qed.

(** X29.  [createPinHash] accepts exactly the PINs of four to six
    decimal digits and rejects every other string with the one error
    message.  What it returns for an accepted PIN is a salt of 32
    hexadecimal digits, a colon, and the digest of the salt followed by
    the PIN. *)
Theorem pin_validation (digest : jsstring -> jsstring) (random : nat -> N)
  (pin : jsstring) :
  let salt := generateSalt random in
  List.length salt = 32%nat /\ forallb is_hex salt = true /\
  ((4 <= List.length pin <= 6)%nat /\ Forall (fun c => 48 <= c <= 57) pin ->
   createPinHash digest random pin
   = PinHash (salt ++ lit ":" ++ digest (salt ++ pin))) /\
  (~ ((4 <= List.length pin <= 6)%nat /\
      Forall (fun c => 48 <= c <= 57) pin) ->
   createPinHash digest random pin
   = PinError (lit "PIN must be 4-6 digits")).
Proof.
  intros salt.
  destruct (generateSalt_format random) as [Hlen Hhex].
  split; [exact Hlen|]. split; [exact Hhex|].
  unfold createPinHash, hashPin. fold salt.
  destruct (all_digits pin) eqn:Hd.
  - apply all_digits_spec in Hd. destruct Hd as [_ Hd].
    destruct (Nat.ltb_spec (List.length pin) 4) as [L1|L1];
      destruct (Nat.ltb_spec 6 (List.length pin)) as [L2|L2];
      cbn [orb negb]; split; intros Hv; try reflexivity; try lia.
    exfalso. apply Hv. split; [lia | exact Hd].
  - rewrite !orb_true_r. split; [|reflexivity].
    intros [Hl Hdig].
    assert (all_digits pin = true).
    { apply all_digits_spec. split; [|exact Hdig].
      destruct pin; [cbn in Hl; lia | discriminate]. }
    congruence.
Qed.

Lemma pin_validation_witness :
  createPinHash sample_digest sample_random (lit "1234")
  = PinHash (generateSalt sample_random ++ lit ":" ++
             sample_digest (generateSalt sample_random ++ lit "1234")) /\
  createPinHash sample_digest sample_random (lit "12a4")
  = PinError (lit "PIN must be 4-6 digits").
Proof.
  destruct (pin_validation sample_digest sample_random (lit "1234"))
    as (_ & _ & H1 & _).
  destruct (pin_validation sample_digest sample_random (lit "12a4"))
    as (_ & _ & _ & H2).
  split.
  - apply H1. split; [simpl; lia|].
    repeat constructor; vm_compute; discriminate.
  - apply H2. intros [_ H].
    inversion H as [|? ? _ H']. inversion H' as [|? ? _ H''].
    inversion H'' as [|? ? [_ Hc] _]. vm_compute in Hc. now apply Hc.
Defined.

(** X30.  The hash that [createPinHash] stores verifies its own PIN and
    no PIN with another digest, as long as no lockout is set and the
    digest is not empty and holds no colon: the right PIN gives true and
    sets the counter back to zero, a PIN with another digest gives false
    and counts one failed attempt. *)
Theorem stored_pin_round_trip (digest : jsstring -> jsstring)
  (random : nat -> N) (pin : jsstring) (st : LockState) (now1 now2 : N) :
  let salt := generateSalt random in
  let stored := salt ++ lit ":" ++ digest (salt ++ pin) in
  digest (salt ++ pin) <> [] -> ~ In 58 (digest (salt ++ pin)) ->
  lockoutUntil st = 0 ->
  readable stored salt (digest (salt ++ pin)) /\
  verifyPin digest now1 now2 pin stored st
  = (true, {| failedAttempts := 0; lockoutUntil := 0 |}) /\
  (forall pin',
     digest (salt ++ pin') <> digest (salt ++ pin) ->
     verifyPin digest now1 now2 pin' stored st
     = (false,
        {| failedAttempts := failedAttempts st + 1;
           lockoutUntil := if 5 <=? failedAttempts st + 1
                           then now2 + 30000 else 0 |})).
Proof.
  intros salt stored Hne Hcolon Hopen.
  destruct (generateSalt_format random) as [Hlen Hhex]. fold salt in Hlen, Hhex.
  assert (Hread : readable stored salt (digest (salt ++ pin))).
  { exists []. split; [|split; [|exact Hne]].
    - unfold stored. change (lit ":" ++ digest (salt ++ pin))
        with (58 :: digest (salt ++ pin)).
      rewrite split_on_first; [|now apply hex_is_no_colon].
      now rewrite split_on_without.
    - intros E. rewrite E in Hlen. discriminate. }
  split; [exact Hread|]. split.
  - destruct Hread as (rest & Hsplit & Hsalt & _).
    rewrite verifyPin_alone. unfold isLockedOut. rewrite Hopen.
    replace (now1 <? 0) with false by (symmetry; apply N.ltb_ge; lia).
    cbn [N.ltb N.compare]. rewrite Hsplit.
    destruct salt as [|c salt']; [congruence|].
    destruct (digest ((c :: salt') ++ pin)) as [|e expected] eqn:E;
      [congruence|].
    cbn [Chat.is_empty orb]. unfold hashPin. rewrite E.
    rewrite (proj2 (jsstring_eqb_eq _ _) eq_refl). now rewrite Hopen.
  - intros pin' Hwrong.
    now apply (wrong_pin_step digest now1 now2 pin' stored salt
                 (digest (salt ++ pin))).
Qed.

Lemma stored_pin_round_trip_witness :
  let salt := generateSalt sample_random in
  let stored := salt ++ lit ":" ++ sample_digest (salt ++ lit "1234") in
  fst (verifyPin sample_digest 10 10 (lit "1234") stored initial) = true /\
  fst (verifyPin sample_digest 10 10 (lit "4321") stored initial) = false.
Proof.
  destruct (stored_pin_round_trip sample_digest sample_random (lit "1234")
              initial 10 10) as (_ & Hright & Hwrong).
  - discriminate.
  - vm_compute. intuition discriminate.
  - reflexivity.
  - cbv zeta. split.
    + now rewrite Hright.
    + rewrite Hwrong; [reflexivity|]. vm_compute. discriminate.
Defined.

End PinLockExtras.
